(** * Cupy elementwise kernels: a shallow embedding of [elementwise.py]
      and of the per-device memoizer of [cuda/device.py].

    Python values are modelled as Rocq data, exceptions as the left side of
    a sum, and the interpreter-wide mutable state (current device, memo
    dictionaries, compile and launch history, object allocator) as an
    explicit [World] threaded through a small state-and-exception monad. *)

From Stdlib Require Import List String Ascii ZArith Lia Bool Arith.
From Stdlib Require Import Numbers.DecimalString.
Import ListNotations.
Open Scope string_scope.
Open Scope list_scope.

Set Implicit Arguments.

(** ** Exceptions and results *)

Inductive exn : Type :=
| Exception (msg : string)
| TypeError (msg : string)
| ValueError (msg : string)
| KeyError (msg : string)
| IndexError (msg : string)
| AttributeError (msg : string)
| CompileError (msg : string)
| AssertionError.

Definition Result (A : Type) : Type := (exn + A)%type.
Definition Ok {A} (a : A) : Result A := inr a.
Definition Raise {A} (e : exn) : Result A := inl e.


Definition is_raise {A} (r : Result A) : Prop :=
  match r with inl _ => True | inr _ => False end.

Definition rbind {A B} (r : Result A) (k : A -> Result B) : Result B :=
  match r with
  | inl e => inl e
  | inr a => k a
  end.

Declare Scope result_scope.
Delimit Scope result_scope with res.
Notation "'do' x <- c ; k" := (rbind c (fun x => k))
  (at level 10, x pattern, c at level 100, k at level 200) : result_scope.

(** ** Python string helpers *)

Definition dquote : string := String (ascii_of_nat 34) "".

(** [str.isspace] on one character, for code points below 256. *)
Definition isspace (c : ascii) : bool :=
  let n := nat_of_ascii c in
  (((9 <=? n) && (n <=? 13)) || ((28 <=? n) && (n <=? 32))
   || (n =? 133) || (n =? 160))%nat.

Definition str_is_empty (s : string) : bool :=
  match s with EmptyString => true | _ => false end.

(** [str.split()]: split on runs of whitespace, no empty tokens. *)
Fixpoint split_ws_from (cur : string) (s : string) : list string :=
  match s with
  | EmptyString => if str_is_empty cur then [] else [cur]
  | String c s' =>
      if isspace c
      then (if str_is_empty cur then split_ws_from "" s'
            else cur :: split_ws_from "" s')
      else split_ws_from (cur ++ String c "")%string s'
  end.

Definition str_split (s : string) : list string := split_ws_from "" s.

(** [str.split(sep)] for a one-character separator. *)
Fixpoint split_on_from (sep : ascii) (cur : string) (s : string) : list string :=
  match s with
  | EmptyString => [cur]
  | String c s' =>
      if Ascii.eqb c sep
      then cur :: split_on_from sep "" s'
      else split_on_from sep (cur ++ String c "")%string s'
  end.

Definition str_split_on (sep : ascii) (s : string) : list string :=
  split_on_from sep "" s.

(** [s.split('->')] *)
Fixpoint split_arrow_from (cur : string) (s : string) : list string :=
  match s with
  | EmptyString => [cur]
  | String "-" (String ">" rest) => cur :: split_arrow_from "" rest
  | String c rest => split_arrow_from (cur ++ String c "")%string rest
  end.

Definition str_split_arrow (s : string) : list string := split_arrow_from "" s.

(** [tuple(s)]: the characters of a string, each as a string. *)
Fixpoint str_chars (s : string) : list string :=
  match s with
  | EmptyString => []
  | String c rest => String c "" :: str_chars rest
  end.

Fixpoint lstrip (s : string) : string :=
  match s with
  | EmptyString => EmptyString
  | String c s' => if isspace c then lstrip s' else s
  end.

Fixpoint rstrip (s : string) : string :=
  match s with
  | EmptyString => EmptyString
  | String c s' =>
      match rstrip s' with
      | EmptyString => if isspace c then EmptyString else String c EmptyString
      | r => String c r
      end
  end.

(** [str.strip()] *)
Definition str_strip (s : string) : string := rstrip (lstrip s).

(** [sep.join(l)] *)
Fixpoint str_join (sep : string) (l : list string) : string :=
  match l with
  | [] => ""
  | [x] => x
  | x :: rest => (x ++ sep ++ str_join sep rest)%string
  end.

(** ['{}'.format(n)] for a non-negative integer. *)
Definition str_of_nat (n : nat) : string :=
  NilEmpty.string_of_uint (Nat.to_uint n).

(** ** Element types *)

(** numpy dtypes: the twelve listed in [_typenames], and any other dtype
    numpy knows, identified by its canonical name and item size. *)
Inductive Dtype : Type :=
| float64 | float32 | float16
| int64 | int32 | int16 | int8
| uint64 | uint32 | uint16 | uint8
| bool_
| other_dtype (name : string) (itemsize : Z).

Definition Dtype_eq_dec (a b : Dtype) : {a = b} + {a <> b}.
Proof. decide equality; [apply Z.eq_dec | apply string_dec]. Defined.

Definition Dtype_eqb (a b : Dtype) : bool :=
  if Dtype_eq_dec a b then true else false.

(** [dtype.name] *)
Definition dtype_name (d : Dtype) : string :=
  match d with
  | float64 => "float64" | float32 => "float32" | float16 => "float16"
  | int64 => "int64" | int32 => "int32" | int16 => "int16" | int8 => "int8"
  | uint64 => "uint64" | uint32 => "uint32" | uint16 => "uint16"
  | uint8 => "uint8"
  | bool_ => "bool"
  | other_dtype n _ => n
  end.

(** [dtype.itemsize] *)
Definition dtype_itemsize (d : Dtype) : Z :=
  match d with
  | float64 | int64 | uint64 => 8
  | float32 | int32 | uint32 => 4
  | float16 | int16 | uint16 => 2
  | int8 | uint8 | bool_ => 1
  | other_dtype _ sz => sz
  end%Z.

(** The module-level dictionary [_typenames]. *)
Definition _typenames (d : Dtype) : option string :=
  match d with
  | float64 => Some "double"
  | float32 => Some "float"
  | float16 => Some "float16"
  | int64 => Some "long long"
  | int32 => Some "int"
  | int16 => Some "short"
  | int8 => Some "signed char"
  | uint64 => Some "unsigned long long"
  | uint32 => Some "unsigned int"
  | uint16 => Some "unsigned short"
  | uint8 => Some "unsigned char"
  | bool_ => Some "bool"
  | other_dtype _ _ => None
  end.

Definition _get_typename (dtype : option Dtype) : Result string :=
  match dtype with
  | None => Raise (ValueError "dtype is None")
  | Some d =>
      match _typenames d with
      | Some n => Ok n
      | None => Raise (KeyError (dtype_name d))
      end
  end.

(** ** Parameter descriptors *)

(** A [ParameterInfo] object.  The class defines neither [__eq__] nor
    [__hash__], so two descriptors are equal only when they are the same
    object: [p_oid] is that identity. *)
Record ParameterInfo : Type := mkParameterInfo {
  p_oid : nat;
  p_name : string;
  p_dtype : option Dtype;
  p_ctype : option string;
  p_raw : bool;
  p_is_const : bool
}.

Definition ParameterInfo_eq_dec (a b : ParameterInfo) : {a = b} + {a <> b}.
Proof.
  decide equality; try apply Bool.bool_dec; try apply Nat.eq_dec;
    try apply string_dec; decide equality;
    try apply string_dec; apply Dtype_eq_dec.
Defined.

(** [s[-2:]] and [s[:-2]] *)
Definition last_two {A} (s : list A) : list A := skipn (List.length s - 2) s.
Definition but_last_two {A} (s : list A) : list A := firstn (List.length s - 2) s.

(** [tuple(i for i in str.split() if len(i) != 0)] *)
Definition param_tokens (str : string) : list string :=
  filter (fun i => negb (String.length i =? 0)%nat) (str_split str).

(** The loop over the modifier tokens [s[:-2]]. *)
Fixpoint parse_modifiers (mods : list string) (raw : bool) : Result bool :=
  match mods with
  | [] => Ok raw
  | i :: rest =>
      if String.eqb i "raw" then parse_modifiers rest true
      else Raise (Exception ("Unknown keyward " ++ dquote ++ i ++ dquote)%string)
  end.

(** ** Arrays, scalars and kernel arguments *)

(** A [cupy.ndarray]: the device buffer it aliases, the owning device, the
    element type, the shape and the strides.  A view is another record over
    the same buffer. *)
Record ndarray : Type := mkndarray {
  a_data : nat;
  a_device : Z;
  a_dtype : Dtype;
  a_shape : list Z;
  a_strides : list Z
}.

(** [carray.Indexer] *)
Record Indexer : Type := mkIndexer { ix_shape : list Z }.

Definition prod (shape : list Z) : Z := fold_right Z.mul 1%Z shape.
Definition Indexer_ndim (ix : Indexer) : nat := List.length (ix_shape ix).
Definition Indexer_size (ix : Indexer) : Z := prod (ix_shape ix).

(** The Python types the code tells apart. *)
Inductive pytype : Type :=
| T_ndarray                      (* cupy.ndarray *)
| T_Indexer                      (* carray.Indexer *)
| T_int | T_float | T_bool       (* Python scalars *)
| T_numpy_scalar (d : Dtype)     (* d.type, a numpy scalar class *)
| T_numpy_ndarray                (* numpy.ndarray, a host array *)
| T_NoneType
| T_object (cls : string).       (* anything else *)

(** A Python value reaching the kernel machinery.  The numeric payload of a
    scalar is carried along as an integer token; no function here looks
    at it. *)
Inductive pyval : Type :=
| V_ndarray (a : ndarray)
| V_Indexer (ix : Indexer)
| V_scalar (ty : pytype) (payload : Z)
| V_numpy_ndarray (dt : Dtype) (shape : list Z)
| V_None
| V_object (cls : string).

Definition type_of (v : pyval) : pytype :=
  match v with
  | V_ndarray _ => T_ndarray
  | V_Indexer _ => T_Indexer
  | V_scalar ty _ => ty
  | V_numpy_ndarray _ _ => T_numpy_ndarray
  | V_None => T_NoneType
  | V_object c => T_object c
  end.

(** [isinstance(a, cupy.ndarray)] *)
Definition is_ndarray (v : pyval) : bool :=
  match v with V_ndarray _ => true | _ => false end.

(** [isinstance(arg, _scalar_type)], with
    [_scalar_type = (int, float, bool) + tuple(t.type for t in _typenames.keys())]. *)
Definition is_scalar_type (v : pyval) : bool :=
  match v with
  | V_scalar T_int _ | V_scalar T_float _ | V_scalar T_bool _ => true
  | V_scalar (T_numpy_scalar d) _ =>
      match _typenames d with Some _ => true | None => false end
  | _ => false
  end.

(** [(type(a), getattr(a, 'dtype', None), a.ndim)] *)
Definition arg_info : Type := (pytype * option Dtype * nat)%type.

(** Keyword arguments an [ElementwiseKernel] forwards to
    [_get_simple_elementwise_kernel]; an absent keyword is [None]. *)
Record kernel_kwargs : Type := mkkwargs {
  kw_loop_prep : option string;
  kw_after_loop : option string;
  kw_options : option (list string)
}.

Definition no_kwargs : kernel_kwargs := mkkwargs None None None.

(** A loaded kernel function object, by identity. *)
Definition handle : Type := nat.

(** ** Memo keys: the positional arguments of each memoized function *)

Definition param_key : Type := (string * option bool)%type.

Record decide_key : Type := mkdecide_key {
  dk_in_params : list ParameterInfo;
  dk_out_params : list ParameterInfo;
  dk_in_args_dtype : list (option Dtype);
  dk_out_args_dtype : list (option Dtype)
}.

Definition decide_result : Type :=
  (list Dtype * list Dtype * list (option string * Dtype))%type.

Record simple_key : Type := mksimple_key {
  sk_params : string;
  sk_operation : string;
  sk_name : string;
  sk_preamble : string;
  sk_kwargs : kernel_kwargs
}.

Record elementwise_key : Type := mkelementwise_key {
  ek_args_info : list arg_info;
  ek_types : list (option string * Dtype);
  ek_params : list ParameterInfo;
  ek_operation : string;
  ek_name : string;
  ek_preamble : string;
  ek_kwargs : kernel_kwargs
}.

Record ufunc_key : Type := mkufunc_key {
  uk_in_types : list Dtype;
  uk_out_types : list Dtype;
  uk_routine : string;
  uk_args_info : list arg_info;
  uk_out_raw_types : list Dtype;
  uk_params : list ParameterInfo;
  uk_name : string;
  uk_preamble : string
}.

Ltac solve_eq_dec :=
  repeat (decide equality;
          auto using Z.eq_dec, Nat.eq_dec, string_dec, Bool.bool_dec,
            Dtype_eq_dec, ParameterInfo_eq_dec).

Definition pytype_eq_dec (a b : pytype) : {a = b} + {a <> b}.
Proof. solve_eq_dec. Defined.

Definition param_key_eq_dec (a b : param_key) : {a = b} + {a <> b}.
Proof. solve_eq_dec. Defined.

Definition decide_key_eq_dec (a b : decide_key) : {a = b} + {a <> b}.
Proof. solve_eq_dec. Defined.

Definition kernel_kwargs_eq_dec (a b : kernel_kwargs) : {a = b} + {a <> b}.
Proof. solve_eq_dec. Defined.

Definition simple_key_eq_dec (a b : simple_key) : {a = b} + {a <> b}.
Proof. decide equality; auto using string_dec, kernel_kwargs_eq_dec. Defined.

Definition arg_info_eq_dec (a b : arg_info) : {a = b} + {a <> b}.
Proof. solve_eq_dec. Defined.

Definition elementwise_key_eq_dec (a b : elementwise_key) : {a = b} + {a <> b}.
Proof.
  decide equality;
    auto using string_dec, kernel_kwargs_eq_dec;
    apply list_eq_dec;
    auto using arg_info_eq_dec, ParameterInfo_eq_dec; solve_eq_dec.
Defined.

Definition ufunc_key_eq_dec (a b : ufunc_key) : {a = b} + {a <> b}.
Proof.
  decide equality;
    auto using string_dec;
    apply list_eq_dec;
    auto using arg_info_eq_dec, ParameterInfo_eq_dec, Dtype_eq_dec.
Defined.

(** ** Universal-function routine tables *)

(** An entry of [ufunc._ops]: declared input types, declared output types
    and the routine body. *)
Definition ufunc_op : Type := (list Dtype * list Dtype * string)%type.

(** A key of [ufunc._routine_table]: the tuple of input dtypes, or the
    requested dtype. *)
Inductive routine_key : Type :=
| RK_in_types (tys : list Dtype)
| RK_dtype (dt : Dtype).

Definition routine_key_eq_dec (a b : routine_key) : {a = b} + {a <> b}.
Proof. solve_eq_dec. Defined.

(** ** The interpreter state *)

(** One native compilation: the device that was current, the module source,
    the entry point, the compiler options and the function object made. *)
Record compile_event : Type := mkcompile {
  ce_device : Z;
  ce_source : string;
  ce_name : string;
  ce_options : list string;
  ce_handle : handle
}.

(** One [linear_launch]. *)
Record launch_event : Type := mklaunch {
  le_kernel : handle;
  le_size : Z;
  le_args : list pyval
}.

(** A Python [dict], in insertion order. *)
Definition dict (K V : Type) : Type := list (K * V).

(** [collections.defaultdict(dict)] indexed by device id: every device has
    a dictionary, empty until written. *)
Definition dev_memo (K V : Type) : Type := Z -> dict K V.

Record World : Type := mkWorld {
  w_device : Z;                                   (* runtime.getDevice() *)
  w_next : nat;                                   (* next object identity *)
  w_param_memo : dict param_key (list ParameterInfo);
  w_decide_memo : dev_memo decide_key decide_result;
  w_simple_memo : dev_memo simple_key handle;
  w_elementwise_memo : dev_memo elementwise_key handle;
  w_ufunc_memo : dev_memo ufunc_key handle;
  w_routine_table : nat -> dict routine_key (option ufunc_op);
  w_synthesized : nat;                            (* kernel sources assembled *)
  w_compiled : list compile_event;                (* native compilations *)
  w_launched : list launch_event                  (* kernel launches *)
}.

Definition empty_memo {K V} : dev_memo K V := fun _ => [].

(** A fresh interpreter with device [d] current. *)
Definition initial_world (d : Z) : World :=
  mkWorld d 0 [] empty_memo empty_memo empty_memo empty_memo (fun _ => [])
    0 [] [].

Definition set_device (d : Z) (w : World) : World :=
  mkWorld d (w_next w) (w_param_memo w) (w_decide_memo w) (w_simple_memo w)
    (w_elementwise_memo w) (w_ufunc_memo w) (w_routine_table w)
    (w_synthesized w) (w_compiled w) (w_launched w).

Definition set_next (n : nat) (w : World) : World :=
  mkWorld (w_device w) n (w_param_memo w) (w_decide_memo w) (w_simple_memo w)
    (w_elementwise_memo w) (w_ufunc_memo w) (w_routine_table w)
    (w_synthesized w) (w_compiled w) (w_launched w).

Definition store_param (m : dict param_key (list ParameterInfo)) (w : World) :=
  mkWorld (w_device w) (w_next w) m (w_decide_memo w) (w_simple_memo w)
    (w_elementwise_memo w) (w_ufunc_memo w) (w_routine_table w)
    (w_synthesized w) (w_compiled w) (w_launched w).

Definition store_decide (m : dev_memo decide_key decide_result) (w : World) :=
  mkWorld (w_device w) (w_next w) (w_param_memo w) m (w_simple_memo w)
    (w_elementwise_memo w) (w_ufunc_memo w) (w_routine_table w)
    (w_synthesized w) (w_compiled w) (w_launched w).

Definition store_simple (m : dev_memo simple_key handle) (w : World) :=
  mkWorld (w_device w) (w_next w) (w_param_memo w) (w_decide_memo w) m
    (w_elementwise_memo w) (w_ufunc_memo w) (w_routine_table w)
    (w_synthesized w) (w_compiled w) (w_launched w).

Definition store_elementwise (m : dev_memo elementwise_key handle) (w : World) :=
  mkWorld (w_device w) (w_next w) (w_param_memo w) (w_decide_memo w)
    (w_simple_memo w) m (w_ufunc_memo w) (w_routine_table w)
    (w_synthesized w) (w_compiled w) (w_launched w).

Definition store_ufunc (m : dev_memo ufunc_key handle) (w : World) :=
  mkWorld (w_device w) (w_next w) (w_param_memo w) (w_decide_memo w)
    (w_simple_memo w) (w_elementwise_memo w) m (w_routine_table w)
    (w_synthesized w) (w_compiled w) (w_launched w).

Definition store_routine_table
    (t : nat -> dict routine_key (option ufunc_op)) (w : World) :=
  mkWorld (w_device w) (w_next w) (w_param_memo w) (w_decide_memo w)
    (w_simple_memo w) (w_elementwise_memo w) (w_ufunc_memo w) t
    (w_synthesized w) (w_compiled w) (w_launched w).

Definition set_synthesized (n : nat) (w : World) : World :=
  mkWorld (w_device w) (w_next w) (w_param_memo w) (w_decide_memo w)
    (w_simple_memo w) (w_elementwise_memo w) (w_ufunc_memo w)
    (w_routine_table w) n (w_compiled w) (w_launched w).

Definition set_compiled (l : list compile_event) (w : World) : World :=
  mkWorld (w_device w) (w_next w) (w_param_memo w) (w_decide_memo w)
    (w_simple_memo w) (w_elementwise_memo w) (w_ufunc_memo w)
    (w_routine_table w) (w_synthesized w) l (w_launched w).

Definition set_launched (l : list launch_event) (w : World) : World :=
  mkWorld (w_device w) (w_next w) (w_param_memo w) (w_decide_memo w)
    (w_simple_memo w) (w_elementwise_memo w) (w_ufunc_memo w)
    (w_routine_table w) (w_synthesized w) (w_compiled w) l.

(** ** Stateful computations that may raise *)

Definition M (A : Type) : Type := World -> Result A * World.

Definition ret {A} (a : A) : M A := fun w => (Ok a, w).
Definition raise {A} (e : exn) : M A := fun w => (Raise e, w).
Definition lift {A} (r : Result A) : M A := fun w => (r, w).

Definition bind {A B} (c : M A) (k : A -> M B) : M B :=
  fun w =>
    match c w with
    | (inl e, w') => (inl e, w')
    | (inr a, w') => k a w'
    end.

Declare Scope m_scope.
Delimit Scope m_scope with M.
Notation "x <- c ;; k" := (bind c (fun x => k))
  (at level 61, c at next level, right associativity) : m_scope.
Notation "' pat <- c ;; k" := (bind c (fun x => match x with pat => k end))
  (at level 61, pat pattern, c at next level, right associativity) : m_scope.

(** Allocation of a new Python object (or device buffer). *)
Definition fresh : M nat :=
  fun w => (Ok (w_next w), set_next (S (w_next w)) w).

(** [cuda.Device().id] *)
Definition current_device : M Z := fun w => (Ok (w_device w), w).

(** [tuple(f(i) for i in l)] *)
Fixpoint mapM {A B} (f : A -> M B) (l : list A) : M (list B) :=
  match l with
  | [] => ret []
  | x :: rest =>
      (y <- f x ;; ys <- mapM f rest ;; ret (y :: ys))%M
  end.

(** ** Memoization *)

Section Dict.
Variables K V : Type.
Variable eq_dec : forall a b : K, {a = b} + {a <> b}.

(** [memo.get(k, None)] *)
Fixpoint dict_get (m : dict K V) (k : K) : option V :=
  match m with
  | [] => None
  | (k', v) :: rest => if eq_dec k k' then Some v else dict_get rest k
  end.

(** [memo[k] = v] *)
Fixpoint dict_set (m : dict K V) (k : K) (v : V) : dict K V :=
  match m with
  | [] => [(k, v)]
  | (k', v') :: rest =>
      if eq_dec k k' then (k', v) :: rest else (k', v') :: dict_set rest k v
  end.

(** [f._cupy_dev_memo[d][k] = v] *)
Definition dev_memo_set (m : dev_memo K V) (d : Z) (k : K) (v : V)
  : dev_memo K V :=
  fun d' => if Z.eq_dec d' d then dict_set (m d) k v else m d'.

(** [memoize(f)] of [cuda/device.py].  [load] and [store] give access to
    the attribute [f._cupy_dev_memo].  The functions decorated here
    return tuples and function objects, never [None], so
    [memo.get(arg_key, None) is None] holds exactly when the key is
    absent. *)
Definition memoize (load : World -> dev_memo K V)
    (store : dev_memo K V -> World -> World)
    (f : K -> M V) (arg_key : K) : M V :=
  fun w =>
    let d := w_device w in
    match dict_get (load w d) arg_key with
    | Some result => (Ok result, w)
    | None =>
        match f arg_key w with
        | (inl e, w') => (inl e, w')
        | (inr result, w') =>
            (Ok result, store (dev_memo_set (load w') d arg_key result) w')
        end
    end.

End Dict.

(** Modelled from the spec: [cupy.util.memoize] is not among the sources.
    With [for_each_device=True] it is taken to be [memoize] of
    [cuda/device.py] (spec 4.7: memoized per currently-selected device and
    per full argument signature); without it, the same dictionary protocol
    on one shared memo. *)
Definition memoize_shared (f : param_key -> M (list ParameterInfo))
    (arg_key : param_key) : M (list ParameterInfo) :=
  fun w =>
    match dict_get param_key_eq_dec (w_param_memo w) arg_key with
    | Some result => (Ok result, w)
    | None =>
        match f arg_key w with
        | (inl e, w') => (inl e, w')
        | (inr result, w') =>
            (Ok result,
             store_param (dict_set param_key_eq_dec (w_param_memo w')
                            arg_key result) w')
        end
    end.

(** ** Collaborators outside the sources *)

Definition nl : string := String (ascii_of_nat 10) "".

(** ['%d' % z] *)
Definition str_of_Z (z : Z) : string := NilZero.string_of_int (Z.to_int z).

(** ['%s' % type(v)] *)
Definition type_repr (t : pytype) : string :=
  match t with
  | T_ndarray => "<class 'cupy.ndarray'>"
  | T_Indexer => "<class 'cupy.carray.Indexer'>"
  | T_int => "<class 'int'>"
  | T_float => "<class 'float'>"
  | T_bool => "<class 'bool'>"
  | T_numpy_scalar d => ("<class 'numpy." ++ dtype_name d ++ "'>")%string
  | T_numpy_ndarray => "<class 'numpy.ndarray'>"
  | T_NoneType => "<class 'NoneType'>"
  | T_object c => ("<class '" ++ c ++ "'>")%string
  end.

(** ['{}'.format(k)] for a type tag, which is [None] on an indexer slot. *)
Definition format_tag (k : option string) : string :=
  match k with Some t => t | None => "None" end.

(** [cupy.broadcast]: the common shape, its element count, and the operands
    as views of that shape. *)
Record broadcast : Type := mkbroadcast {
  b_shape : list Z;
  b_size : Z;
  b_values : list pyval
}.

(** Modelled from the spec: [cupy.broadcast] is not among the sources.
    Spec 4.4: shapes are right-aligned; on each aligned axis the extents
    are equal or one of them is 1; missing leading axes count as extent 1;
    anything else is a shape error.  Both shapes are given reversed. *)
Fixpoint broadcast_shapes_rev (r1 r2 : list Z) : Result (list Z) :=
  match r1, r2 with
  | [], r => Ok r
  | r, [] => Ok r
  | a :: r1', b :: r2' =>
      (do rest <- broadcast_shapes_rev r1' r2';
       if (a =? b)%Z then Ok (a :: rest)
       else if (a =? 1)%Z then Ok (b :: rest)
       else if (b =? 1)%Z then Ok (a :: rest)
       else Raise (ValueError "Broadcasting failed"))%res
  end.

(** Modelled from the spec: the common shape of the array operands of a
    [cupy.broadcast] call (operands that are not arrays contribute no
    shape).  The result is reversed. *)
Fixpoint broadcast_common_rev (args : list pyval) (acc : list Z)
  : Result (list Z) :=
  match args with
  | [] => Ok acc
  | V_ndarray a :: rest =>
      (do acc' <- broadcast_shapes_rev acc (rev (a_shape a));
       broadcast_common_rev rest acc')%res
  | _ :: rest => broadcast_common_rev rest acc
  end.

(** Modelled from the spec: strides of the non-copying view of an array on
    the common shape; a replicated or missing axis has stride 0.  All
    lists are reversed. *)
Fixpoint broadcast_strides_rev (rshape_a rstrides_a rshape : list Z)
  : list Z :=
  match rshape with
  | [] => []
  | e :: rest =>
      match rshape_a, rstrides_a with
      | ea :: ra, sa :: rs =>
          (if (ea =? e)%Z then sa else 0%Z) :: broadcast_strides_rev ra rs rest
      | _, _ => 0%Z :: broadcast_strides_rev [] [] rest
      end
  end.

(** Modelled from the spec: the operand as seen through the broadcast; a
    value that is not an array is passed through unchanged. *)
Definition broadcast_value (shape : list Z) (v : pyval) : pyval :=
  match v with
  | V_ndarray a =>
      V_ndarray
        (mkndarray (a_data a) (a_device a) (a_dtype a) shape
           (rev (broadcast_strides_rev (rev (a_shape a)) (rev (a_strides a))
                   (rev shape))))
  | _ => v
  end.

(** Modelled from the spec: [cupy.broadcast] applied to the operands. *)
Definition cupy_broadcast (args : list pyval) : Result broadcast :=
  (do r <- broadcast_common_rev args [];
   let shape := rev r in
   Ok (mkbroadcast shape (prod shape) (map (broadcast_value shape) args)))%res.

(** Strides of a C-contiguous array. *)
Fixpoint contiguous_strides (shape : list Z) (itemsize : Z) : list Z :=
  match shape with
  | [] => []
  | _ :: rest => (itemsize * prod rest)%Z :: contiguous_strides rest itemsize
  end.

(** Modelled from the spec: [cupy.empty(shape=shape, dtype=t)] is not among
    the sources.  Spec 6: an empty array of shape S and type T, here a new
    C-contiguous buffer on the current device. *)
Definition cupy_empty (shape : list Z) (t : Dtype) : M pyval :=
  (ptr <- fresh ;;
   dev <- current_device ;;
   ret (V_ndarray (mkndarray ptr dev t shape
                     (contiguous_strides shape (dtype_itemsize t)))))%M.

(** [t.type(x)]: the numpy scalar of dtype [t] made from [x]. *)
Definition dtype_type_call (t : Dtype) (x : pyval) : pyval :=
  match x with
  | V_scalar _ payload => V_scalar (T_numpy_scalar t) payload
  | _ => x
  end.

(** [kern.linear_launch(size, args)]: the launch is recorded. *)
Definition linear_launch (kern : handle) (size : Z) (args : list pyval)
  : M unit :=
  fun w => (Ok tt, set_launched (w_launched w ++ [mklaunch kern size args]) w).

(** Ghost step: one more kernel source has been assembled. *)
Definition tick_synthesized : M unit :=
  fun w => (Ok tt, set_synthesized (S (w_synthesized w)) w).

Section Model.


(** [numpy.dtype(t)] on a string: the dtype it denotes, or [None] when
    numpy raises [TypeError] (data type not understood).  numpy is not
    part of the repository; the parser is studied for every such
    function. *)
Variable numpy_dtype : string -> option Dtype.

(** [ParameterInfo.__init__(self, str, is_const)]; [oid] is the identity
    of the object under construction. *)
Definition ParameterInfo_init (oid : nat) (str : string) (is_const : bool)
  : Result ParameterInfo :=
  let s := param_tokens str in
  if (List.length s <? 2)%nat then Raise (Exception ("Syntax error: " ++ str)%string)
  else
    match last_two s with
    | [t; name] =>
        (do dc <-
           (if String.eqb t "CIndexer" then Ok (None, None)
            else if (String.length t =? 1)%nat then Ok (None, Some t)
            else
              match numpy_dtype t with
              | None => Raise (TypeError "data type not understood")
              | Some d =>
                  if negb (String.eqb (dtype_name d) t)
                  then Raise (ValueError ("Wrong type " ++ t)%string)
                  else
                    do c <- _get_typename (Some d);
                    Ok (Some d, Some c)
              end);
         do raw <- parse_modifiers (but_last_two s) false;
         Ok (mkParameterInfo oid name (fst dc) (snd dc) raw is_const))%res
    | _ => Raise (Exception ("Syntax error: " ++ str)%string)
    end.


(** [ParameterInfo(str, is_const)]: allocate the object, run [__init__]. *)
Definition new_ParameterInfo (is_const : bool) (str : string)
  : M ParameterInfo :=
  (oid <- fresh ;; lift (ParameterInfo_init oid str is_const))%M.

(** The body of [_get_param_info(s, is_const=False)]. *)
Definition _get_param_info_body (key : param_key) : M (list ParameterInfo) :=
  let '(s, is_const) := key in
  let is_const := match is_const with Some b => b | None => false end in
  if (String.length s =? 0)%nat then ret []
  else mapM (new_ParameterInfo is_const) (str_split_on "," (str_strip s)).

(** [@util.memoize() def _get_param_info] *)
Definition _get_param_info (s : string) (is_const : option bool)
  : M (list ParameterInfo) :=
  memoize_shared _get_param_info_body (s, is_const).

(** ** The [ElementwiseKernel] operation object *)

Record ElementwiseKernel : Type := mkElementwiseKernel {
  in_params : list ParameterInfo;
  out_params : list ParameterInfo;
  nin : nat;
  nout : nat;
  params : list ParameterInfo;
  operation : string;
  name : string;
  reduce_dims : bool;
  preamble : string;
  kwargs : kernel_kwargs
}.

(** [ElementwiseKernel.__init__] *)
Definition ElementwiseKernel_init (in_params out_params operation : string)
    (name : string) (reduce_dims : bool) (preamble : string)
    (kwargs : kernel_kwargs) : M ElementwiseKernel :=
  (self_in_params <- _get_param_info in_params (Some true) ;;
   self_out_params <- _get_param_info out_params None ;;
   param_rest <- _get_param_info "CIndexer _ind" None ;;
   let names := map p_name (self_in_params ++ self_out_params) in
   if existsb (String.eqb "i") names
   then raise (ValueError "Can not use 'i' as a parameter name")
   else ret (mkElementwiseKernel self_in_params self_out_params
               (List.length self_in_params) (List.length self_out_params)
               (self_in_params ++ self_out_params ++ param_rest)
               operation name reduce_dims preamble kwargs))%M.



(** [numpy.can_cast(t0, t1)], the safe-casting relation of numpy. *)
Variable can_cast : Dtype -> Dtype -> bool.

(** Whether the native compiler accepts a module source with the given
    options (it raises a compile error otherwise). *)
Variable nvcc_accepts : string -> list string -> bool.

(** ** Small list helpers *)

(** [l[i]] for [i >= 0] *)
Definition index {A} (l : list A) (i : nat) : Result A :=
  match nth_error l i with
  | Some x => Ok x
  | None => Raise (IndexError "index out of range")
  end.

(** [l[i] = v] followed by reading the list back *)
Fixpoint list_set {A} (l : list A) (i : nat) (v : A) : list A :=
  match l, i with
  | [], _ => []
  | _ :: rest, O => v :: rest
  | x :: rest, S j => x :: list_set rest j v
  end.

(** A comprehension whose body may raise. *)
Fixpoint mapR {A B} (f : A -> Result B) (l : list A) : Result (list B) :=
  match l with
  | [] => Ok []
  | x :: rest =>
      (do y <- f x; do ys <- mapR f rest; Ok (y :: ys))%res
  end.

Definition shape_eqb (s1 s2 : list Z) : bool :=
  if list_eq_dec Z.eq_dec s1 s2 then true else false.

Definition is_None (v : pyval) : bool :=
  match v with V_None => true | _ => false end.

Definition pytype_eqb (a b : pytype) : bool :=
  if pytype_eq_dec a b then true else false.

(** ** Argument checks *)

(** [_get_ndarray_dtype] *)
Definition _get_ndarray_dtype (args : list pyval) : list (option Dtype) :=
  map (fun a => match a with
                | V_ndarray x => Some (a_dtype x)
                | _ => None
                end) args.

(** The loop of [_check_args], [dev] being [cuda.Device()]. *)
Fixpoint check_args_loop (dev : Z) (args : list pyval) : Result unit :=
  match args with
  | [] => Ok tt
  | arg :: rest =>
      match arg with
      | V_ndarray a =>
          if (a_device a =? dev)%Z then check_args_loop dev rest
          else Raise (ValueError
                 ("Array device must be same as the current device: "
                  ++ "array device = " ++ str_of_Z (a_device a)
                  ++ " while current = " ++ str_of_Z dev)%string)
      | _ =>
          if is_scalar_type arg then check_args_loop dev rest
          else Raise (TypeError
                 ("Unsupported type " ++ type_repr (type_of arg))%string)
      end
  end.

(** [_check_args] *)
Definition _check_args (args : list pyval) : M unit :=
  (dev <- current_device ;; lift (check_args_loop dev args))%M.

(** [_get_args_info] *)
Definition _get_args_info (args : list pyval) : Result (list arg_info) :=
  mapR (fun a =>
          match a with
          | V_ndarray x =>
              Ok (T_ndarray, Some (a_dtype x), List.length (a_shape x))
          | V_Indexer ix => Ok (T_Indexer, None, Indexer_ndim ix)
          | V_scalar (T_numpy_scalar d) _ =>
              Ok (T_numpy_scalar d, Some d, 0)
          | V_numpy_ndarray dt shape =>
              Ok (T_numpy_ndarray, Some dt, List.length shape)
          | _ => Raise (AttributeError "object has no attribute 'ndim'")
          end) args.

(** ** Kernel parameter text *)

(** One iteration of the loop of [_get_kernel_params]. *)
Definition kernel_param (p : ParameterInfo) (a : arg_info) : Result string :=
  let '(type, dtype, ndim) := a in
  let is_array := pytype_eqb type T_ndarray in
  (do t <-
     (if pytype_eqb type T_Indexer
      then Ok ("CIndexer<" ++ str_of_nat ndim ++ ">")%string
      else
        do t <- _get_typename dtype;
        if is_array
        then Ok ("CArray<" ++ t ++ ", " ++ str_of_nat ndim ++ ">")%string
        else Ok t);
   Ok ((if p_is_const p then "const " else "") ++ t ++ " "
       ++ (if is_array && negb (p_raw p) then "_raw_" else "")
       ++ p_name p)%string)%res.

(** [_get_kernel_params] *)
Definition _get_kernel_params (params : list ParameterInfo)
    (args_info : list arg_info) : Result string :=
  (do ret <- mapR (fun pa => kernel_param (fst pa) (snd pa))
               (combine params args_info);
   Ok (str_join ", " ret))%res.

(** ** Dimension reduction *)

(** The inner [for arg in array_args] loop of [_reduce_dims] at axis [i]:
    [false] when some operand breaks out of it, [true] when the loop runs
    to its [else] branch. *)
Fixpoint all_contiguous (i : nat) (shape : list Z) (array_args : list ndarray)
  : Result bool :=
  match array_args with
  | [] => Ok true
  | arg :: rest =>
      let strides := a_strides arg in
      (do si <- index strides i;
       do di <- index shape i;
       do sp <- index strides (i - 1);
       if negb (si * di =? sp)%Z then Ok false
       else all_contiguous i shape rest)%res
  end.

(** The outer [for i in range(1, len(shape))] loop of [_reduce_dims]. *)
Fixpoint merge_axes (array_args : list ndarray) (axes : list nat)
    (shape : list Z) : Result (list Z) :=
  match axes with
  | [] => Ok shape
  | i :: rest =>
      (do ok <- all_contiguous i shape array_args;
       if ok then
         do di <- index shape i;
         do dp <- index shape (i - 1);
         merge_axes array_args rest
           (list_set (list_set shape i (di * dp)%Z) (i - 1) 1%Z)
       else merge_axes array_args rest shape)%res
  end.

(** [tuple(s for i, s in enumerate(arg.strides) if shape[i] != 1)] *)
Fixpoint filter_strides (shape : list Z) (i : nat) (strides : list Z)
  : Result (list Z) :=
  match strides with
  | [] => Ok []
  | s :: rest =>
      (do d <- index shape i;
       do r <- filter_strides shape (S i) rest;
       Ok (if negb (d =? 1)%Z then s :: r else r))%res
  end.

(** The loop [for i in range(len(args))] of [_reduce_dims] that replaces
    each flagged array by a view of the reduced shape. *)
Fixpoint reshape_args (new_shape shape : list Z) (is_array_flags : list bool)
    (i : nat) (args : list pyval) : Result (list pyval) :=
  match args with
  | [] => Ok []
  | a :: rest =>
      (do f <- index is_array_flags i;
       do a' <-
         (match f, a with
          | true, V_ndarray arg =>
              do new_strides <- filter_strides shape 0 (a_strides arg);
              Ok (V_ndarray (mkndarray (a_data arg) (a_device arg)
                               (a_dtype arg) new_shape new_strides))
          | _, _ => Ok a
          end);
       do r <- reshape_args new_shape shape is_array_flags (S i) rest;
       Ok (a' :: r))%res
  end.

(** [[not p.raw and isinstance(a, cupy.ndarray) for a, p in zip(args, params)]] *)
Definition is_array_flags_of (args : list pyval) (params : list ParameterInfo)
  : list bool :=
  map (fun ap => negb (p_raw (snd ap)) && is_ndarray (fst ap))
    (combine args params).

(** [[a for a, f in zip(args, is_array_flags) if f]] *)
Fixpoint array_args_of (args : list pyval) (flags : list bool) : list ndarray :=
  match args, flags with
  | V_ndarray a :: args', true :: flags' => a :: array_args_of args' flags'
  | _ :: args', _ :: flags' => array_args_of args' flags'
  | _, _ => []
  end.

(** The merged shape computed by [_reduce_dims] before extent-1 axes are
    dropped. *)
Definition merged_shape (args : list pyval) (params : list ParameterInfo)
    (shape : list Z) : Result (list Z) :=
  merge_axes (array_args_of args (is_array_flags_of args params))
    (seq 1 (List.length shape - 1)) shape.

(** [_reduce_dims]; the indexer returned is the one passed in, mutated. *)
Definition _reduce_dims (args : list pyval) (params : list ParameterInfo)
    (indexer : Indexer) : Result (list pyval * Indexer) :=
  if (Indexer_ndim indexer <=? 1)%nat then Ok (args, indexer)
  else
    let is_array_flags := is_array_flags_of args params in
    (do shape <- merged_shape args params (ix_shape indexer);
     let new_shape := filter (fun dim => negb (dim =? 1)%Z) shape in
     if shape_eqb new_shape (ix_shape indexer) then Ok (args, indexer)
     else
       do new_args <- reshape_args new_shape shape is_array_flags 0 args;
       Ok (new_args, mkIndexer new_shape))%res.

(** [_get_inout_args].  Both callers pass the tuple [in_args + out_args];
    without [reduce_dims] it is that tuple which is asked to [append].
    The second component is the caller's indexer after the call. *)
Definition _get_inout_args (args : list pyval) (indexer : Indexer)
    (params : list ParameterInfo) (reduce_dims : bool)
  : Result (list pyval * Indexer) :=
  if reduce_dims then
    (do ai <- _reduce_dims args params indexer;
     Ok (fst ai ++ [V_Indexer (snd ai)], snd ai))%res
  else Raise (AttributeError "'tuple' object has no attribute 'append'").

(** ** Type resolution *)

(** The local dictionary [type_dict]: type tag to bound dtype. *)
Definition type_dict : Type := dict (option string) Dtype.

Definition tag_eq_dec (a b : option string) : {a = b} + {a <> b}.
Proof. decide equality. apply string_dec. Defined.

(** The checks both loops of [_decide_params_type] make on an array
    operand of dtype [a]; [tag_conflict] is what the second mismatch
    branch raises. *)
Definition check_or_bind (tag_conflict : exn) (p : ParameterInfo) (a : Dtype)
    (td : type_dict) : Result type_dict :=
  match p_dtype p with
  | Some d =>
      if negb (Dtype_eqb a d) then Raise (TypeError "Type is mismatched %s")
      else Ok td
  | None =>
      match dict_get tag_eq_dec td (p_ctype p) with
      | Some t =>
          if negb (Dtype_eqb t a) then Raise tag_conflict else Ok td
      | None => Ok (dict_set tag_eq_dec td (p_ctype p) a)
      end
  end.

(** The loop over [zip(out_params, out_args_dtype)]. *)
Fixpoint decide_out_loop (pas : list (ParameterInfo * option Dtype))
    (td : type_dict) : Result type_dict :=
  match pas with
  | [] => Ok td
  | (p, a) :: rest =>
      match a with
      | None => Raise (TypeError "Output arguments must be cupy.ndarray")
      | Some a =>
          (do td' <- check_or_bind (TypeError "Type is mismatched %s") p a td;
           decide_out_loop rest td')%res
      end
  end.

(** The loop over [zip(in_params, in_args_dtype)].  Its tag-conflict branch
    builds the message with ['...%s' % (four values)], which itself raises
    [TypeError]. *)
Fixpoint decide_in_loop (pas : list (ParameterInfo * option Dtype))
    (td : type_dict) (unknown_ctype : list (option string))
  : Result (type_dict * list (option string)) :=
  match pas with
  | [] => Ok (td, unknown_ctype)
  | (p, a) :: rest =>
      match a with
      | None =>
          match p_dtype p with
          | None => decide_in_loop rest td (unknown_ctype ++ [p_ctype p])
          | Some _ => decide_in_loop rest td unknown_ctype
          end
      | Some a =>
          (do td' <-
             check_or_bind
               (TypeError
                  "not all arguments converted during string formatting")
               p a td;
           decide_in_loop rest td' unknown_ctype)%res
      end
  end.

(** [p.dtype if p.dtype is not None else type_dict[p.ctype]] *)
Definition resolve_type (td : type_dict) (p : ParameterInfo) : Result Dtype :=
  match p_dtype p with
  | Some d => Ok d
  | None =>
      match dict_get tag_eq_dec td (p_ctype p) with
      | Some t => Ok t
      | None => Raise (KeyError (format_tag (p_ctype p)))
      end
  end.

(** The body of [_decide_params_type]. *)
Definition _decide_params_type_body (k : decide_key) : Result decide_result :=
  let in_params := dk_in_params k in
  let out_params := dk_out_params k in
  let in_args_dtype := dk_in_args_dtype k in
  let out_args_dtype := dk_out_args_dtype k in
  (do td <-
     (match out_args_dtype with
      | [] => Ok []
      | _ =>
          if negb (List.length out_params =? List.length out_args_dtype)%nat
          then Raise AssertionError
          else decide_out_loop (combine out_params out_args_dtype) []
      end);
   if negb (List.length in_params =? List.length in_args_dtype)%nat
   then Raise AssertionError
   else
     do tu <- decide_in_loop (combine in_params in_args_dtype) td [];
     let type_dict := fst tu in
     do in_types <- mapR (resolve_type type_dict) in_params;
     do out_types <- mapR (resolve_type type_dict) out_params;
     Ok (in_types, out_types, type_dict))%res.

(** [@util.memoize(for_each_device=True) def _decide_params_type] *)
Definition _decide_params_type (in_params out_params : list ParameterInfo)
    (in_args_dtype out_args_dtype : list (option Dtype)) : M decide_result :=
  memoize decide_key_eq_dec w_decide_memo store_decide
    (fun k => lift (_decide_params_type_body k))
    (mkdecide_key in_params out_params in_args_dtype out_args_dtype).

(** ** Broadcasting and output allocation *)

(** [_broadcast] *)
Definition _broadcast (args : list pyval) (params : list ParameterInfo)
    (size_error : bool) : Result (broadcast * list pyval) :=
  (do brod <-
     cupy_broadcast
       (map (fun pa => if negb (p_raw (fst pa)) && is_ndarray (snd pa)
                       then snd pa else V_None)
          (combine params args));
   if size_error && forallb is_None (b_values brod)
   then Raise (ValueError "Loop size is Undecided")
   else Ok (brod,
            map (fun ab => if is_None (fst ab) then snd ab else fst ab)
              (combine (b_values brod) args)))%res.

(** The loop of [_get_out_args] over supplied outputs. *)
Fixpoint check_out_args (out_shape : list Z)
    (out_params : option (list ParameterInfo)) (i : nat)
    (out_args : list pyval) : Result unit :=
  match out_args with
  | [] => Ok tt
  | a :: rest =>
      match a with
      | V_ndarray arr =>
          if negb (shape_eqb (a_shape arr) out_shape) then
            match out_params with
            | None => Raise (ValueError "Out shape is mismatched")
            | Some ps =>
                (do p <- index ps i;
                 if negb (p_raw p)
                 then Raise (ValueError "Out shape is mismatched")
                 else check_out_args out_shape out_params (S i) rest)%res
            end
          else check_out_args out_shape out_params (S i) rest
      | _ => Raise (TypeError "Output arguments type must be cupy.ndarray")
      end
  end.

(** [_get_out_args] *)
Definition _get_out_args (in_args out_args : list pyval)
    (out_types : list Dtype) (out_shape : list Z)
    (out_params : option (list ParameterInfo)) : M (list pyval) :=
  if (List.length out_args =? 0)%nat then
    if match out_params with
       | Some ps => existsb p_raw ps
       | None => false
       end
    then raise (ValueError "Output array size is Undecided")
    else mapM (cupy_empty out_shape) out_types
  else
    (_ <- lift (check_out_args out_shape out_params 0 out_args) ;;
     ret out_args)%M.

(** ** Kernel synthesis and the compilation cache *)

(** [carray.compile_with_cache(module_code, options)] followed by
    [module.get_function(name)]: the native compiler and loader.  Each
    successful compilation yields a new function object. *)
Definition compile_and_get_function (module_code : string)
    (options : list string) (name : string) : M handle :=
  fun w =>
    if nvcc_accepts module_code options then
      let h := w_next w in
      (Ok h,
       set_compiled
         (w_compiled w ++ [mkcompile (w_device w) module_code name options h])
         (set_next (S h) w))
    else (Raise (CompileError name), w).

(** The [string.Template] of [_get_simple_elementwise_kernel], substituted. *)
Definition module_template (params operation name preamble loop_prep
    after_loop : string) : string :=
  (nl ++ "    " ++ preamble ++ nl
   ++ "    extern " ++ dquote ++ "C" ++ dquote ++ " __global__ void "
   ++ name ++ "(" ++ params ++ ") {" ++ nl
   ++ "      " ++ loop_prep ++ ";" ++ nl
   ++ "      CUPY_FOR(i, _ind.size()) {" ++ nl
   ++ "        _ind.set(i);" ++ nl
   ++ "        " ++ operation ++ ";" ++ nl
   ++ "      }" ++ nl
   ++ "      " ++ after_loop ++ ";" ++ nl
   ++ "    }" ++ nl
   ++ "    ")%string.

Definition default {A} (o : option A) (d : A) : A :=
  match o with Some x => x | None => d end.

(** The body of [_get_simple_elementwise_kernel]. *)
Definition _get_simple_elementwise_kernel_body (k : simple_key) : M handle :=
  let loop_prep := default (kw_loop_prep (sk_kwargs k)) "" in
  let after_loop := default (kw_after_loop (sk_kwargs k)) "" in
  let options := default (kw_options (sk_kwargs k)) [] in
  let module_code :=
    module_template (sk_params k) (sk_operation k) (sk_name k)
      (sk_preamble k) loop_prep after_loop in
  compile_and_get_function module_code options (sk_name k).

(** [@util.memoize(for_each_device=True) def _get_simple_elementwise_kernel] *)
Definition _get_simple_elementwise_kernel (params operation name
    preamble : string) (kwargs : kernel_kwargs) : M handle :=
  memoize simple_key_eq_dec w_simple_memo store_simple
    _get_simple_elementwise_kernel_body
    (mksimple_key params operation name preamble kwargs).

(** The element-access lines [_get_elementwise_kernel] puts before the
    operation. *)
Fixpoint elementwise_prologue (pas : list (ParameterInfo * arg_info))
  : list string :=
  match pas with
  | [] => []
  | (p, a) :: rest =>
      if p_raw p || negb (pytype_eqb (fst (fst a)) T_ndarray)
      then elementwise_prologue rest
      else
        (if p_is_const p
         then ("const " ++ format_tag (p_ctype p) ++ " " ++ p_name p
               ++ " = _raw_" ++ p_name p ++ "[_ind.get()];")%string
         else (format_tag (p_ctype p) ++ " &" ++ p_name p
               ++ " = _raw_" ++ p_name p ++ "[_ind.get()];")%string)
        :: elementwise_prologue rest
  end.

(** The text [_get_elementwise_kernel] assembles from its arguments: the
    arguments it passes on to [_get_simple_elementwise_kernel]. *)
Definition elementwise_source (k : elementwise_key) : Result simple_key :=
  (do kernel_params <- _get_kernel_params (ek_params k) (ek_args_info k);
   do typedefs <-
     mapR (fun kv =>
             do t <- _get_typename (Some (snd kv));
             Ok ("typedef " ++ t ++ " " ++ format_tag (fst kv) ++ ";")%string)
       (ek_types k);
   let types_preamble := str_join nl typedefs in
   let preamble := (types_preamble ++ nl ++ ek_preamble k)%string in
   let op :=
     elementwise_prologue (combine (ek_params k) (ek_args_info k))
     ++ [ek_operation k] in
   let operation := str_join nl op in
   Ok (mksimple_key kernel_params operation (ek_name k) preamble
         (ek_kwargs k)))%res.

(** The body of [_get_elementwise_kernel]. *)
Definition _get_elementwise_kernel_body (k : elementwise_key) : M handle :=
  (_ <- tick_synthesized ;;
   src <- lift (elementwise_source k) ;;
   _get_simple_elementwise_kernel (sk_params src) (sk_operation src)
     (sk_name src) (sk_preamble src) (sk_kwargs src))%M.

(** [@util.memoize(for_each_device=True) def _get_elementwise_kernel] *)
Definition _get_elementwise_kernel (args_info : list arg_info)
    (types : list (option string * Dtype)) (params : list ParameterInfo)
    (operation name preamble : string) (kwargs : kernel_kwargs) : M handle :=
  memoize elementwise_key_eq_dec w_elementwise_memo store_elementwise
    _get_elementwise_kernel_body
    (mkelementwise_key args_info types params operation name preamble kwargs).

(** ** [ElementwiseKernel.__call__] *)

(** What a call returns: one array, or a tuple of arrays. *)
Inductive retval : Type :=
| Ret_one (v : pyval)
| Ret_tuple (vs : list pyval).

(** [ret = out_args; if len(ret) == 1: ret = ret[0]] *)
Definition make_ret (out_args : list pyval) : retval :=
  match out_args with
  | [v] => Ret_one v
  | _ => Ret_tuple out_args
  end.

(** The loop rejecting host arrays. *)
Fixpoint reject_numpy_ndarray (args : list pyval) : Result unit :=
  match args with
  | [] => Ok tt
  | V_numpy_ndarray _ _ :: _ =>
      Raise (TypeError ("Unsupported type " ++ type_repr T_numpy_ndarray)%string)
  | _ :: rest => reject_numpy_ndarray rest
  end.

(** Everything a call has in hand when it reaches the test on the size of
    the broadcast. *)
Record prepared : Type := mkprepared {
  pr_brod : broadcast;
  pr_in_args : list pyval;
  pr_out_args : list pyval;
  pr_in_types : list Dtype;
  pr_out_types : list Dtype;
  pr_types : list (option string * Dtype);
  pr_routine : string;
  pr_ret : retval;
  pr_indexer : Indexer
}.

(** [ElementwiseKernel.__call__] up to and including the construction of
    the indexer. *)
Definition ElementwiseKernel_prepare (self : ElementwiseKernel)
    (args : list pyval) (size : option Z) : M prepared :=
  let n := size in
  if negb ((List.length args =? nin self)%nat
           || (List.length args =? nin self + nout self)%nat)
  then raise (TypeError ("Wrong number of arguments for " ++ name self)%string)
  else
    (_ <- lift (reject_numpy_ndarray args) ;;
     _ <- _check_args args ;;
     bv <- lift (_broadcast args (params self)
                   (match n with None => true | Some _ => false end)) ;;
     let brod := fst bv in
     let value := snd bv in
     let in_args := firstn (nin self) value in
     let out_args := skipn (nin self) value in
     tys <- _decide_params_type (in_params self) (out_params self)
              (_get_ndarray_dtype in_args) (_get_ndarray_dtype out_args) ;;
     let in_types := fst (fst tys) in
     let out_types := snd (fst tys) in
     let types := snd tys in
     let in_args :=
       map (fun xt => if is_ndarray (fst xt) then fst xt
                      else dtype_type_call (snd xt) (fst xt))
         (combine in_args in_types) in
     out_args <- _get_out_args in_args out_args out_types (b_shape brod)
                   (Some (out_params self)) ;;
     let ret_ := make_ret out_args in
     let indexer :=
       match n with
       | None => mkIndexer (b_shape brod)
       | Some n => mkIndexer [n]
       end in
     ret (mkprepared brod in_args out_args in_types out_types types ""
            ret_ indexer))%M.

(** [ElementwiseKernel.__call__] from [_get_inout_args] on: synthesis,
    compilation cache and launch. *)
Definition ElementwiseKernel_dispatch (self : ElementwiseKernel)
    (pr : prepared) : M retval :=
  (ia <- lift (_get_inout_args (pr_in_args pr ++ pr_out_args pr)
                 (pr_indexer pr) (params self) (reduce_dims self)) ;;
   let inout_args := fst ia in
   let indexer := snd ia in
   args_info <- lift (_get_args_info inout_args) ;;
   kern <- _get_elementwise_kernel args_info (pr_types pr) (params self)
             (operation self) (name self) (preamble self) (kwargs self) ;;
   _ <- linear_launch kern (Indexer_size indexer) inout_args ;;
   ret (pr_ret pr))%M.

(** [ElementwiseKernel.__call__(self, *args, size=None)] *)
Definition ElementwiseKernel_call (self : ElementwiseKernel)
    (args : list pyval) (size : option Z) : M retval :=
  (pr <- ElementwiseKernel_prepare self args size ;;
   if (b_size (pr_brod pr) =? 0)%Z then ret (pr_ret pr)
   else ElementwiseKernel_dispatch self pr)%M.

(** ** Universal functions *)

Record ufunc : Type := mkufunc {
  u_oid : nat;
  u_name : string;
  u_nin : nat;
  u_nout : nat;
  u_nargs : nat;
  _ops : list ufunc_op;
  _preamble : string;
  _params : list ParameterInfo
}.

(** [ufunc.__init__]; the routine table of the new object starts empty. *)
Definition ufunc_init (name : string) (nin nout : nat) (ops : list ufunc_op)
    (preamble : string) : M ufunc :=
  (oid <- fresh ;;
   _in_params <-
     mapM (fun i => new_ParameterInfo true ("T in" ++ str_of_nat i)%string)
       (seq 0 nin) ;;
   _out_params <-
     mapM (fun i => new_ParameterInfo false ("T out" ++ str_of_nat i)%string)
       (seq 0 nout) ;;
   ind <- new_ParameterInfo false "CIndexer _ind" ;;
   fun w =>
     (Ok (mkufunc oid name nin nout (nin + nout) ops preamble
            (_in_params ++ _out_params ++ [ind])),
      store_routine_table
        (fun o => if Nat.eq_dec o oid then [] else w_routine_table w o) w))%M.

(** The loop of [create_ufunc]: each entry of [ops] is a type string, or a
    pair of a type string and its own routine. *)
Fixpoint create_ufunc_ops (ops : list (string * option string))
    (routine : string) : Result (list ufunc_op) :=
  match ops with
  | [] => Ok []
  | (typ, own) :: rest =>
      let rt := match own with Some r => r | None => routine end in
      let types := str_split_arrow typ in
      (do io <-
         (match types with
          | [t] => Ok ([t], [t])
          | [i; o] => Ok (str_chars i, str_chars o)
          | _ => Raise (ValueError "too many values to unpack")
          end);
       let to_dtype t :=
         match numpy_dtype t with
         | Some d => Ok d
         | None => Raise (TypeError "data type not understood")
         end in
       do in_types <- mapR to_dtype (fst io);
       do out_types <- mapR to_dtype (snd io);
       do _ops <- create_ufunc_ops rest routine;
       Ok ((in_types, out_types, rt) :: _ops))%res
  end.

(** [create_ufunc(name, ops, routine, preamble)] *)
Definition create_ufunc (name : string) (ops : list (string * option string))
    (routine : string) (preamble : string) : M ufunc :=
  (_ops <- lift (create_ufunc_ops ops routine) ;;
   match _ops with
   | [] => raise (IndexError "list index out of range")
   | op0 :: _ =>
       ufunc_init name (List.length (fst (fst op0)))
         (List.length (snd (fst op0))) _ops preamble
   end)%M.

(** [ufunc._guess_routine_from_in_types] *)
Fixpoint _guess_routine_from_in_types (ops : list ufunc_op)
    (in_types : list Dtype) : option ufunc_op :=
  match ops with
  | [] => None
  | op :: rest =>
      if forallb (fun t => can_cast (fst t) (snd t))
           (combine in_types (fst (fst op)))
      then Some op
      else _guess_routine_from_in_types rest in_types
  end.

(** [ufunc._guess_routine_from_dtype] *)
Fixpoint _guess_routine_from_dtype (ops : list ufunc_op) (dtype : Dtype)
  : option ufunc_op :=
  match ops with
  | [] => None
  | op :: rest =>
      if forallb (fun t => Dtype_eqb t dtype) (snd (fst op))
      then Some op
      else _guess_routine_from_dtype rest dtype
  end.

(** [i.dtype] of a checked input argument. *)
Definition dtype_of (v : pyval) : Result Dtype :=
  match v with
  | V_ndarray a => Ok (a_dtype a)
  | V_scalar (T_numpy_scalar d) _ => Ok d
  | V_numpy_ndarray dt _ => Ok dt
  | _ => Raise (AttributeError "object has no attribute 'dtype'")
  end.

(** [self._routine_table[key] = op] *)
Definition routine_table_set (self : ufunc) (key : routine_key)
    (op : option ufunc_op) : M unit :=
  fun w =>
    (Ok tt,
     store_routine_table
       (fun o => if Nat.eq_dec o (u_oid self)
                 then dict_set routine_key_eq_dec
                        (w_routine_table w (u_oid self)) key op
                 else w_routine_table w o) w).

(** The table lookup of [_guess_routine] with its fallback:
    [op = self._routine_table.get(key, ())], and when the key is absent a
    scan of [_ops] whose result, a routine or [None], is stored. *)
Definition lookup_or_scan (self : ufunc) (key : routine_key)
  : M (option ufunc_op) :=
  fun w =>
    match dict_get routine_key_eq_dec (w_routine_table w (u_oid self)) key with
    | Some op => (Ok op, w)
    | None =>
        let op :=
          match key with
          | RK_in_types tys => _guess_routine_from_in_types (_ops self) tys
          | RK_dtype d => _guess_routine_from_dtype (_ops self) d
          end in
        match routine_table_set self key op w with
        | (_, w') => (Ok op, w')
        end
    end.

(** [ufunc._guess_routine] *)
Definition _guess_routine (self : ufunc) (in_args : list pyval)
    (dtype : option Dtype) : M ufunc_op :=
  (key <- lift (match dtype with
                | None => do tys <- mapR dtype_of in_args; Ok (RK_in_types tys)
                | Some d => Ok (RK_dtype d)
                end)%res ;;
   op <- lookup_or_scan self key ;;
   match op with
   | Some op => ret op
   | None =>
       raise (TypeError ("Wrong type of arguments for " ++ u_name self)%string)
   end)%M.

(** The lines and typedefs [_get_ufunc_kernel] makes for the inputs. *)
Fixpoint ufunc_in_lines (i : nat) (in_types : list Dtype)
    (args_info : list arg_info) : Result (list string * list string) :=
  match in_types with
  | [] => Ok ([], [])
  | x :: rest =>
      (do t <- _get_typename (Some x);
       let typedef :=
         ("typedef " ++ t ++ " in" ++ str_of_nat i ++ "_type;")%string in
       do a <- index args_info i;
       do r <- ufunc_in_lines (S i) rest args_info;
       if negb (pytype_eqb (fst (fst a)) T_ndarray)
       then Ok (typedef :: fst r, snd r)
       else Ok (typedef :: fst r,
                ("const in" ++ str_of_nat i ++ "_type in" ++ str_of_nat i
                 ++ " = _raw_in" ++ str_of_nat i ++ "[_ind.get()];")%string
                :: snd r))%res
  end.

(** The lines and typedefs [_get_ufunc_kernel] makes for the outputs. *)
Fixpoint ufunc_out_lines (i : nat) (out_types out_raw_types : list Dtype)
  : Result (list string * list string) :=
  match out_types with
  | [] => Ok ([], [])
  | x :: rest =>
      (do t <- _get_typename (Some x);
       let typedef :=
         ("typedef " ++ t ++ " out" ++ str_of_nat i ++ "_type;")%string in
       do raw <- index out_raw_types i;
       do rt <- _get_typename (Some raw);
       do r <- ufunc_out_lines (S i) rest out_raw_types;
       Ok (typedef :: fst r,
           (rt ++ " &out" ++ str_of_nat i ++ " = _raw_out" ++ str_of_nat i
            ++ "[_ind.get()];")%string :: snd r))%res
  end.

(** The body of [_get_ufunc_kernel]. *)
Definition _get_ufunc_kernel_body (k : ufunc_key) : M handle :=
  (_ <- tick_synthesized ;;
   kernel_params <- lift (_get_kernel_params (uk_params k) (uk_args_info k)) ;;
   ins <- lift (ufunc_in_lines 0 (uk_in_types k) (uk_args_info k)) ;;
   outs <- lift (ufunc_out_lines 0 (uk_out_types k) (uk_out_raw_types k)) ;;
   let op := snd ins ++ snd outs ++ [uk_routine k] in
   let operation := str_join nl op in
   let types := fst ins ++ fst outs ++ [uk_preamble k] in
   let preamble := str_join nl types in
   _get_simple_elementwise_kernel kernel_params operation (uk_name k)
     preamble no_kwargs)%M.

(** [@util.memoize(for_each_device=True) def _get_ufunc_kernel] *)
Definition _get_ufunc_kernel (in_types out_types : list Dtype)
    (routine : string) (args_info : list arg_info)
    (out_raw_types : list Dtype) (params : list ParameterInfo)
    (name preamble : string) : M handle :=
  memoize ufunc_key_eq_dec w_ufunc_memo store_ufunc _get_ufunc_kernel_body
    (mkufunc_key in_types out_types routine args_info out_raw_types params
       name preamble).

(** [numpy.dtype(type(i)).type(i) if isinstance(i, (int, float, bool)) else i] *)
Definition promote_python_scalar (i : pyval) : pyval :=
  match i with
  | V_scalar T_int v => V_scalar (T_numpy_scalar int64) v
  | V_scalar T_float v => V_scalar (T_numpy_scalar float64) v
  | V_scalar T_bool v => V_scalar (T_numpy_scalar bool_) v
  | _ => i
  end.

(** [ufunc.__call__] up to the construction of [ret]. *)
Definition ufunc_prepare (self : ufunc) (args : list pyval)
    (out : option pyval) (dtype : option Dtype) : M prepared :=
  if negb ((List.length args =? u_nin self)%nat
           || (List.length args =? u_nargs self)%nat)
  then raise (TypeError ("Wrong number of arguments for " ++ u_name self)%string)
  else
    (brod <- lift (cupy_broadcast args) ;;
     let in_args :=
       map promote_python_scalar (firstn (u_nin self) (b_values brod)) in
     let out_args := skipn (u_nin self) args in
     out_args <-
       match out with
       | None => ret out_args
       | Some o =>
           if negb (List.length out_args =? 0)%nat
           then raise (ValueError
                  "cannot specify 'out' as both a positional and keyword argument")
           else ret [o]
       end ;;
     _ <- _check_args (in_args ++ out_args) ;;
     op <- _guess_routine self in_args dtype ;;
     let in_types := fst (fst op) in
     let out_types := snd (fst op) in
     let routine := snd op in
     let in_args :=
       map (fun xt => if is_ndarray (fst xt) then fst xt
                      else dtype_type_call (snd xt) (fst xt))
         (combine in_args in_types) in
     out_args <- _get_out_args in_args out_args out_types (b_shape brod) None ;;
     ret (mkprepared brod in_args out_args in_types out_types [] routine
            (make_ret out_args) (mkIndexer (b_shape brod))))%M.

(** [ufunc.__call__] from the construction of the indexer on. *)
Definition ufunc_dispatch (self : ufunc) (pr : prepared) : M retval :=
  (let indexer := mkIndexer (b_shape (pr_brod pr)) in
   ia <- lift (_get_inout_args (pr_in_args pr ++ pr_out_args pr) indexer
                 (_params self) true) ;;
   let inout_args := fst ia in
   let indexer := snd ia in
   args_info <- lift (_get_args_info inout_args) ;;
   out_raw_types <- lift (mapR dtype_of (pr_out_args pr)) ;;
   kern <- _get_ufunc_kernel (pr_in_types pr) (pr_out_types pr)
             (pr_routine pr) args_info out_raw_types (_params self)
             (u_name self) (_preamble self) ;;
   _ <- linear_launch kern (Indexer_size indexer) inout_args ;;
   ret (pr_ret pr))%M.

(** [0 in brod.shape] *)
Definition zero_in (shape : list Z) : bool := existsb (Z.eqb 0) shape.

(** [ufunc.__call__(self, *args, out=None, dtype=None)] *)
Definition ufunc_call (self : ufunc) (args : list pyval) (out : option pyval)
    (dtype : option Dtype) : M retval :=
  (pr <- ufunc_prepare self args out dtype ;;
   if zero_in (b_shape (pr_brod pr)) then ret (pr_ret pr)
   else ufunc_dispatch self pr)%M.

End Model.

(** ** Concrete collaborators used to run the model *)

(** An excerpt of [numpy.dtype] on strings: the canonical names of the
    element types of [_typenames], a few aliases and the one-character
    codes numpy also accepts (as on 64-bit Linux), and nothing else. *)
Definition numpy_dtype_excerpt (s : string) : option Dtype :=
  let table :=
    [("float64", float64); ("float32", float32); ("float16", float16);
     ("int64", int64); ("int32", int32); ("int16", int16); ("int8", int8);
     ("uint64", uint64); ("uint32", uint32); ("uint16", uint16);
     ("uint8", uint8); ("bool", bool_);
     ("float", float64); ("int", int64); ("double", float64);
     ("f8", float64); ("f4", float32); ("f2", float16);
     ("i8", int64); ("i4", int32); ("i2", int16); ("i1", int8);
     ("u8", uint64); ("u4", uint32); ("u2", uint16); ("u1", uint8);
     ("?", bool_); ("b", int8); ("B", uint8); ("h", int16); ("H", uint16);
     ("i", int32); ("I", uint32); ("l", int64); ("L", uint64);
     ("q", int64); ("Q", uint64); ("e", float16); ("f", float32);
     ("d", float64);
     ("complex64", other_dtype "complex64" 8);
     ("complex128", other_dtype "complex128" 16)] in
  dict_get string_dec table s.

(** Bit width of a signed integer type, of an unsigned one, and mantissa
    width of a float, for the safe-casting table. *)
Definition signed_bits (d : Dtype) : option Z :=
  match d with
  | int8 => Some 8 | int16 => Some 16 | int32 => Some 32 | int64 => Some 64
  | _ => None
  end%Z.

Definition unsigned_bits (d : Dtype) : option Z :=
  match d with
  | uint8 => Some 8 | uint16 => Some 16 | uint32 => Some 32
  | uint64 => Some 64
  | _ => None
  end%Z.

Definition float_mantissa (d : Dtype) : option Z :=
  match d with
  | float16 => Some 11 | float32 => Some 24 | float64 => Some 53
  | _ => None
  end%Z.

(** numpy's safe casting between the element types of [_typenames]; any
    other dtype is only cast to itself here. *)
Definition numpy_can_cast (src tgt : Dtype) : bool :=
  if Dtype_eqb src tgt then true
  else
    match src, tgt with
    | other_dtype _ _, _ | _, other_dtype _ _ => false
    | bool_, _ => true
    | _, bool_ => false
    | _, _ =>
        match signed_bits src, unsigned_bits src, float_mantissa src with
        | Some b, _, _ =>
            match signed_bits tgt, float_mantissa tgt with
            | Some b', _ => (b <=? b')%Z
            | _, Some m => (b <=? m)%Z || Dtype_eqb tgt float64
            | _, _ => false
            end
        | _, Some b, _ =>
            match signed_bits tgt, unsigned_bits tgt, float_mantissa tgt with
            | Some b', _, _ => (b <? b')%Z
            | _, Some b', _ => (b <=? b')%Z
            | _, _, Some m => (b <=? m)%Z || Dtype_eqb tgt float64
            | _, _, _ => false
            end
        | _, _, Some m =>
            match float_mantissa tgt with
            | Some m' => (m <=? m')%Z
            | None => false
            end
        | _, _, _ => false
        end
    end.

(** A native compiler that accepts every module. *)
Definition nvcc_accepts_all (module_code : string) (options : list string)
  : bool := true.

(** ** Vocabulary for the statements *)

(** The value is a host array, [isinstance(v, numpy.ndarray)]. *)
Definition is_numpy_ndarray (v : pyval) : bool :=
  match v with V_numpy_ndarray _ _ => true | _ => false end.

(** The part of the interpreter state that kernel work changes: sources
    assembled, native compilations, launches, and the three kernel memos.
    [kernel_untouched w w'] says none of it differs between [w] and [w']. *)
Definition kernel_untouched (w w' : World) : Prop :=
  w_synthesized w' = w_synthesized w
  /\ w_compiled w' = w_compiled w
  /\ w_launched w' = w_launched w
  /\ w_simple_memo w' = w_simple_memo w
  /\ w_elementwise_memo w' = w_elementwise_memo w
  /\ w_ufunc_memo w' = w_ufunc_memo w.

(** A computation all of whose final states are [R]-related to the state
    it starts from, whether it returns or raises. *)
Definition preserves {A} (R : World -> World -> Prop) (c : M A) : Prop :=
  forall w, R w (snd (c w)).

(** The order in which [_decide_params_type] looks at the operands: the
    explicitly supplied outputs first (none when [out_args_dtype] is
    empty), then the inputs; each parameter with the dtype of its array
    operand, or [None] for a scalar. *)
Definition scan_order (k : decide_key) : list (ParameterInfo * option Dtype) :=
  match dk_out_args_dtype k with
  | [] => []
  | _ => combine (dk_out_params k) (dk_out_args_dtype k)
  end
  ++ combine (dk_in_params k) (dk_in_args_dtype k).

(** Every entry of the memo of [_decide_params_type] is a result of its
    body; it holds initially and each call keeps it. *)
Definition decide_memo_sound (w : World) : Prop :=
  forall d k r,
    dict_get decide_key_eq_dec (w_decide_memo w d) k = Some r ->
    _decide_params_type_body k = Ok r.



(** Every declared input type of [op] is reachable by [can_cast] from the
    supplied type in the same position. *)
Definition castable_from (can_cast : Dtype -> Dtype -> bool)
    (in_types : list Dtype) (op : ufunc_op) : Prop :=
  forall j t0 t1,
    nth_error in_types j = Some t0 ->
    nth_error (fst (fst op)) j = Some t1 ->
    can_cast t0 t1 = true.

(** Every declared output type of [op] is [dtype]. *)
Definition outputs_are (dtype : Dtype) (op : ufunc_op) : Prop :=
  forall t, In t (snd (fst op)) -> t = dtype.

(** [op] is the first entry of [ops], in declaration order, with [P]. *)
Definition first_match (P : ufunc_op -> Prop) (ops : list ufunc_op)
    (op : ufunc_op) : Prop :=
  exists pre post,
    ops = pre ++ op :: post /\ P op /\ (forall o, In o pre -> ~ P o).

(** What a scan of the table of [self] gives for a key. *)
Definition routine_scan (can_cast : Dtype -> Dtype -> bool) (self : ufunc)
    (key : routine_key) : option ufunc_op :=
  match key with
  | RK_in_types tys => _guess_routine_from_in_types can_cast (_ops self) tys
  | RK_dtype d => _guess_routine_from_dtype (_ops self) d
  end.

(** Every entry of [self._routine_table] is what a scan gives for its key;
    it holds for the empty table and every call keeps it. *)
Definition routine_table_sound (can_cast : Dtype -> Dtype -> bool)
    (self : ufunc) (w : World) : Prop :=
  forall key op,
    dict_get routine_key_eq_dec (w_routine_table w (u_oid self)) key = Some op ->
    op = routine_scan can_cast self key.

(** The array operands dimension reduction looks at: arrays bound to a
    parameter that is not raw. *)
Definition non_raw_arrays (args : list pyval) (params : list ParameterInfo)
  : list ndarray :=
  array_args_of args (is_array_flags_of args params).

(** [stride[i] * extent[i] == stride[i-1]] for one operand. *)
Definition operand_contiguous (extent : list Z) (i : nat) (arr : ndarray)
  : bool :=
  match nth_error (a_strides arr) i, nth_error extent i,
        nth_error (a_strides arr) (i - 1) with
  | Some si, Some di, Some sp => (si * di =? sp)%Z
  | _, _, _ => false
  end.

(** The equation holds at axis [i] for every non-raw array operand. *)
Definition axes_contiguous (args : list pyval) (params : list ParameterInfo)
    (extent : list Z) (i : nat) : bool :=
  forallb (operand_contiguous extent i) (non_raw_arrays args params).

(** The combined extent carried by axis [i] once the axes before it have
    been merged into it wherever [c] allows. *)
Fixpoint run_extent (c : nat -> bool) (extent : list Z) (i : nat) : Z :=
  match i with
  | O => nth 0 extent 1%Z
  | S j =>
      if c (S j) then (nth (S j) extent 1 * run_extent c extent j)%Z
      else nth (S j) extent 1%Z
  end.

(** ** Runs of the interpreter *)

(** [Device.__init__] of [cuda/device.py] on an integer: the id of the new
    object, the current device for a negative argument. *)
Definition Device_init (device : Z) (w : World) : Z :=
  if (device <? 0)%Z then w_device w else device.

(** [Device.use]: [runtime.setDevice(self.id)] *)
Definition Device_use (id : Z) (w : World) : World := set_device id w.

(** What a program does to the interpreter, as far as this module goes. *)
Inductive action : Type :=
| A_use (device : Z)                          (* Device(device).use() *)
| A_get_simple (k : simple_key)
| A_get_elementwise (k : elementwise_key)
| A_get_ufunc (k : ufunc_key)
| A_new_kernel (in_params out_params operation name : string)
    (reduce_dims : bool) (preamble : string) (kwargs : kernel_kwargs)
| A_call (self : ElementwiseKernel) (args : list pyval) (size : option Z)
| A_new_ufunc (name : string) (nin nout : nat) (ops : list ufunc_op)
    (preamble : string)
| A_ufunc_call (self : ufunc) (args : list pyval) (out : option pyval)
    (dtype : option Dtype).

Section Runs.
Variable numpy_dtype : string -> option Dtype.
Variable can_cast : Dtype -> Dtype -> bool.
Variable nvcc_accepts : string -> list string -> bool.

(** [_get_elementwise_kernel] called with the components of a key. *)
Definition get_elementwise (k : elementwise_key) : M handle :=
  _get_elementwise_kernel nvcc_accepts (ek_args_info k) (ek_types k)
    (ek_params k) (ek_operation k) (ek_name k) (ek_preamble k) (ek_kwargs k).

(** [_get_ufunc_kernel] called with the components of a key. *)
Definition get_ufunc (k : ufunc_key) : M handle :=
  _get_ufunc_kernel nvcc_accepts (uk_in_types k) (uk_out_types k)
    (uk_routine k) (uk_args_info k) (uk_out_raw_types k) (uk_params k)
    (uk_name k) (uk_preamble k).

(** The state after one action, whether it returned or raised. *)
Definition run_action (a : action) (w : World) : World :=
  match a with
  | A_use device => Device_use (Device_init device w) w
  | A_get_simple k =>
      snd (_get_simple_elementwise_kernel nvcc_accepts (sk_params k)
             (sk_operation k) (sk_name k) (sk_preamble k) (sk_kwargs k) w)
  | A_get_elementwise k => snd (get_elementwise k w)
  | A_get_ufunc k => snd (get_ufunc k w)
  | A_new_kernel i o op n rd pre kw =>
      snd (ElementwiseKernel_init numpy_dtype i o op n rd pre kw w)
  | A_call self args size =>
      snd (ElementwiseKernel_call nvcc_accepts self args size w)
  | A_new_ufunc n nin nout ops pre =>
      snd (ufunc_init numpy_dtype n nin nout ops pre w)
  | A_ufunc_call self args out dtype =>
      snd (ufunc_call can_cast nvcc_accepts self args out dtype w)
  end.

(** The state after a sequence of actions. *)
Definition run (acts : list action) (w : World) : World :=
  fold_left (fun w a => run_action a w) acts w.

End Runs.

(** A function object [h] is on record as compiled while device [d] was
    current. *)
Definition logged (w : World) (d : Z) (h : handle) : Prop :=
  exists ev, In ev (w_compiled w) /\ ce_handle ev = h /\ ce_device ev = d.

(** What every run keeps true of the kernel caches: a handle stored under
    a device was compiled while that device was current, and the
    compilations on record made pairwise distinct, already allocated
    function objects. *)
Definition kernel_inv (w : World) : Prop :=
  (forall d k h,
      dict_get simple_key_eq_dec (w_simple_memo w d) k = Some h ->
      logged w d h)
  /\ (forall d k h,
        dict_get elementwise_key_eq_dec (w_elementwise_memo w d) k = Some h ->
        logged w d h)
  /\ (forall d k h,
        dict_get ufunc_key_eq_dec (w_ufunc_memo w d) k = Some h ->
        logged w d h)
  /\ (forall ev, In ev (w_compiled w) -> ce_handle ev < w_next w)
  /\ NoDup (map ce_handle (w_compiled w)).

(** From [w] to [w']: the cache invariant survives and no entry of the
    memo of [_get_elementwise_kernel] is lost or changed. *)
Definition cache_grows (w w' : World) : Prop :=
  (kernel_inv w -> kernel_inv w')
  /\ (forall d k h,
        dict_get elementwise_key_eq_dec (w_elementwise_memo w d) k = Some h ->
        dict_get elementwise_key_eq_dec (w_elementwise_memo w' d) k = Some h).

(** From [w] to [w']: the kernel memos and the record of compilations are
    the same and no object identity has been given back. *)
Definition benign (w w' : World) : Prop :=
  w_simple_memo w' = w_simple_memo w
  /\ w_elementwise_memo w' = w_elementwise_memo w
  /\ w_ufunc_memo w' = w_ufunc_memo w
  /\ w_compiled w' = w_compiled w
  /\ w_next w <= w_next w'.

(** ** Concrete operations and operands *)

(** The parameters of [ElementwiseKernel('T x', 'T y', 'y = x', 'copy')]
    built in a fresh interpreter. *)
Definition param_x : ParameterInfo := mkParameterInfo 0 "x" None (Some "T") false true.
Definition param_y : ParameterInfo := mkParameterInfo 1 "y" None (Some "T") false false.
Definition param_ind : ParameterInfo := mkParameterInfo 2 "_ind" None None false false.

Definition copy_kernel : ElementwiseKernel :=
  mkElementwiseKernel [param_x] [param_y] 1 1 [param_x; param_y; param_ind]
    "y = x" "copy" true "" no_kwargs.

(** The interpreter right after that kernel was made, device 0 current. *)
Definition world_after_copy_kernel : World :=
  snd (ElementwiseKernel_init numpy_dtype_excerpt "T x" "T y" "y = x" "copy"
         true "" no_kwargs (initial_world 0)).

(** [ElementwiseKernel('raw T x', 'T y', 'y = x[i]', 'gather')]. *)
Definition param_raw_x : ParameterInfo :=
  mkParameterInfo 0 "x" None (Some "T") true true.

Definition gather_kernel : ElementwiseKernel :=
  mkElementwiseKernel [param_raw_x] [param_y] 1 1
    [param_raw_x; param_y; param_ind] "y = x[i]" "gather" true "" no_kwargs.

(** A C-contiguous [float32] array on a device. *)
Definition float32_array (ptr : nat) (dev : Z) (shape : list Z) : pyval :=
  V_ndarray (mkndarray ptr dev float32 shape (contiguous_strides shape 4)).

Definition int32_array (ptr : nat) (dev : Z) (shape : list Z) : pyval :=
  V_ndarray (mkndarray ptr dev int32 shape (contiguous_strides shape 4)).

(** The signature [copy_kernel] has on two contiguous [float32] vectors. *)
Definition copy_signature : elementwise_key :=
  mkelementwise_key
    [(T_ndarray, Some float32, 1); (T_ndarray, Some float32, 1);
     (T_Indexer, None, 1)]
    [(Some "T", float32)] [param_x; param_y; param_ind]
    "y = x" "copy" "" no_kwargs.

(** The universal function with one input and two outputs that
    [create_ufunc('pair', ['i->ii'], 'out0 = in0; out1 = in0')] makes in a
    fresh interpreter, and the interpreter after that. *)
Definition pair_ufunc : ufunc :=
  mkufunc 0 "pair" 1 2 3 [([int32], [int32; int32], "out0 = in0; out1 = in0")]
    ""
    [mkParameterInfo 1 "in0" None (Some "T") false true;
     mkParameterInfo 2 "out0" None (Some "T") false false;
     mkParameterInfo 3 "out1" None (Some "T") false false;
     mkParameterInfo 4 "_ind" None None false false].

Definition world_after_pair_ufunc : World :=
  snd (create_ufunc numpy_dtype_excerpt "pair" [("i->ii", None)]
         "out0 = in0; out1 = in0" "" (initial_world 0)).

(** A universal function registered for [(int32, int32) -> int32] and
    [(float64, float64) -> float64]. *)
Definition add_int_op : ufunc_op := ([int32; int32], [int32], "out0 = in0 + in1").
Definition add_float_op : ufunc_op :=
  ([float64; float64], [float64], "out0 = in0 + in1").

Definition add_ufunc : ufunc :=
  mkufunc 0 "add" 2 1 3 [add_int_op; add_float_op] ""
    [mkParameterInfo 1 "in0" None (Some "T") false true;
     mkParameterInfo 2 "in1" None (Some "T") false true;
     mkParameterInfo 3 "out0" None (Some "T") false false;
     mkParameterInfo 4 "_ind" None None false false].

(** From [w] to [w'] the memo of [_decide_params_type] stays sound. *)
Definition keeps_decide_memo (w w' : World) : Prop :=
  decide_memo_sound w -> decide_memo_sound w'.

(** The counts and the parameter list of an operation object agree with
    its input and output parameters, as [__init__] sets them. *)
Definition well_formed_kernel (self : ElementwiseKernel) : Prop :=
  nin self = List.length (in_params self)
  /\ nout self = List.length (out_params self)
  /\ nin self + nout self <= List.length (params self).

(** The counts of a universal function agree with its table: [nargs] is
    [nin + nout] and every routine entry has [nout] output types. *)
Definition well_formed_ufunc (self : ufunc) : Prop :=
  u_nargs self = u_nin self + u_nout self
  /\ forall op, In op (_ops self) ->
       List.length (snd (fst op)) = u_nout self.

(** ** Vocabulary for the further properties *)

(** What [_check_args] lets through when [dev] is the current device: an
    array that lives on [dev], or a value of one of the scalar types. *)
Definition acceptable_arg (dev : Z) (v : pyval) : Prop :=
  match v with
  | V_ndarray a => a_device a = dev
  | _ => is_scalar_type v = true
  end.

(** The exception [_check_args] raises at an operand it refuses. *)
Definition refusal (dev : Z) (v : pyval) : exn :=
  match v with
  | V_ndarray a =>
      ValueError
        ("Array device must be same as the current device: "
         ++ "array device = " ++ str_of_Z (a_device a)
         ++ " while current = " ++ str_of_Z dev)
  | _ => TypeError ("Unsupported type " ++ type_repr (type_of v))
  end.

(** An argument description for which [_get_kernel_params] can write a C
    type: an indexer, or an argument whose dtype is one of [_typenames]. *)
Definition info_has_ctype (a : arg_info) : Prop :=
  fst (fst a) = T_Indexer
  \/ exists d n, snd (fst a) = Some d /\ _typenames d = Some n.

(** From [w] to [w'] nothing was launched. *)
Definition same_launched (w w' : World) : Prop :=
  w_launched w' = w_launched w.

(** [copy_kernel] made with [reduce_dims=False]. *)
Definition copy_kernel_keeping_dims : ElementwiseKernel :=
  mkElementwiseKernel [param_x] [param_y] 1 1 [param_x; param_y; param_ind]
    "y = x" "copy" false "" no_kwargs.

(** The exceptions [_decide_params_type] can end with. *)
Definition is_resolution_error (e : exn) : Prop :=
  match e with
  | TypeError _ | KeyError _ | AssertionError => True
  | _ => False
  end.

(** Some array operand scanned by [_decide_params_type] belongs to a
    parameter without concrete type whose tag is [c]; [a] is the dtype of
    that operand. *)
Definition tag_carried (k : decide_key) (c : option string) (a : Dtype)
  : Prop :=
  exists q, In (q, Some a) (scan_order k)
            /\ p_dtype q = None /\ p_ctype q = c.

(** A supplied output that [_get_out_args] accepts at position [i]: an
    array whose shape is the broadcast shape, or any array when the output
    parameter at [i] is raw. *)
Definition output_fits (out_shape : list Z)
    (out_params : option (list ParameterInfo)) (i : nat) (a : pyval) : Prop :=
  exists arr,
    a = V_ndarray arr
    /\ (a_shape arr = out_shape
        \/ exists ps p, out_params = Some ps /\ nth_error ps i = Some p
                        /\ p_raw p = true).

(** The descriptors [ps] are what the entries of the parameter string [s]
    parse to, in order, with [is_const] as given (absent means [False]):
    none for the empty string, else one descriptor per comma-separated
    entry of the stripped string. *)
Definition params_describe (numpy_dtype : string -> option Dtype)
    (s : string) (is_const : option bool) (ps : list ParameterInfo) : Prop :=
  if (String.length s =? 0)%nat then ps = []
  else
    Forall2
      (fun entry p =>
         ParameterInfo_init numpy_dtype (p_oid p) entry
           (match is_const with Some b => b | None => false end) = Ok p)
      (str_split_on "," (str_strip s)) ps.

(** Every entry of the memo of [_get_param_info] is a result of its body. *)
Definition param_memo_sound (numpy_dtype : string -> option Dtype)
    (w : World) : Prop :=
  forall s c ps,
    dict_get param_key_eq_dec (w_param_memo w) (s, c) = Some ps ->
    params_describe numpy_dtype s c ps.

(** [str.isspace] on a whole string that is not empty. *)
Fixpoint all_space (s : string) : bool :=
  match s with
  | EmptyString => true
  | String c rest => isspace c && all_space rest
  end.

(** The module source and the compiler options
    [_get_simple_elementwise_kernel] hands to the native compiler for the
    arguments [k]. *)
Definition module_code_of (k : simple_key) : string :=
  module_template (sk_params k) (sk_operation k) (sk_name k) (sk_preamble k)
    (default (kw_loop_prep (sk_kwargs k)) "")
    (default (kw_after_loop (sk_kwargs k)) "").

Definition options_of (k : simple_key) : list string :=
  default (kw_options (sk_kwargs k)) [].


(** The signature of [copy_signature] for a kernel whose descriptors are
    other objects with the same contents. *)
Definition copy_signature_again : elementwise_key :=
  mkelementwise_key
    [(T_ndarray, Some float32, 1); (T_ndarray, Some float32, 1);
     (T_Indexer, None, 1)]
    [(Some "T", float32)]
    [mkParameterInfo 10 "x" None (Some "T") false true;
     mkParameterInfo 11 "y" None (Some "T") false false;
     mkParameterInfo 12 "_ind" None None false false]
    "y = x" "copy" "" no_kwargs.

(** No character of the string is whitespace. *)
Fixpoint no_space (s : string) : bool :=
  match s with
  | EmptyString => true
  | String c rest => negb (isspace c) && no_space rest
  end.

(** The descriptor [ufunc.__init__] makes for ['T <name>']. *)
Definition generic_param (oid : nat) (name : string) (is_const : bool)
  : ParameterInfo :=
  mkParameterInfo oid name None (Some "T") false is_const.

(** How a type string of [create_ufunc] reads as input and output dtypes:
    without ['->'] the whole string names the one input and output type;
    with one ['->'] every character on either side names a type. *)
Definition signature_reads (numpy_dtype : string -> option Dtype)
    (typ : string) (ins outs : list Dtype) : Prop :=
  match str_split_arrow typ with
  | [t] => exists d, numpy_dtype t = Some d /\ ins = [d] /\ outs = [d]
  | [i; o] =>
      Forall2 (fun c d => numpy_dtype c = Some d) (str_chars i) ins
      /\ Forall2 (fun c d => numpy_dtype c = Some d) (str_chars o) outs
  | _ => False
  end.

(** The action respects the identity of the universal function [u]: a call
    on an object that has the identity of [u] is a call on [u]. *)
Definition calls_the_object (u : ufunc) (a : action) : Prop :=
  match a with
  | A_ufunc_call self _ _ _ => u_oid self = u_oid u -> self = u
  | _ => True
  end.

(** From [w] to [w'] no object identity is given back and, [u] being an
    object already made, its routine table stays sound. *)
Definition table_kept_sound (can_cast : Dtype -> Dtype -> bool) (u : ufunc)
    (w w' : World) : Prop :=
  w_next w <= w_next w'
  /\ (u_oid u < w_next w ->
      routine_table_sound can_cast u w -> routine_table_sound can_cast u w').

(** [ElementwiseKernel('T x, T a', 'T y', 'y = a * x', 'scale')] *)
Definition scale_kernel : ElementwiseKernel :=
  mkElementwiseKernel
    [mkParameterInfo 0 "x" None (Some "T") false true;
     mkParameterInfo 1 "a" None (Some "T") false true]
    [mkParameterInfo 2 "y" None (Some "T") false false] 2 1
    [mkParameterInfo 0 "x" None (Some "T") false true;
     mkParameterInfo 1 "a" None (Some "T") false true;
     mkParameterInfo 2 "y" None (Some "T") false false;
     mkParameterInfo 3 "_ind" None None false false]
    "y = a * x" "scale" true "" no_kwargs.

(** ** [cuda/device.py]: device objects *)

(** A [Device] object: its [id] and its [_device_stack], the devices that
    were current when the object was entered and not yet left. *)
#[warnings="-register-all"]
Inductive Device : Type :=
| mkDevice (id : Z) (_device_stack : list Device).

Definition Device_id (self : Device) : Z :=
  match self with mkDevice id _ => id end.

Definition Device_stack (self : Device) : list Device :=
  match self with mkDevice _ s => s end.

(** The argument of [Device(device=-1)]: a [Device] object or an integer. *)
Inductive device_arg : Type :=
| Arg_Device (d : Device)
| Arg_int (n : Z).

(** [Device.__init__(self, device=-1)] *)
Definition Device_new (device : device_arg) (w : World) : Device :=
  match device with
  | Arg_Device d => mkDevice (Device_id d) []
  | Arg_int n => mkDevice (Device_init n w) []
  end.

(** [Device.__enter__]: push [Device()], then [self.use()].  The object is
    mutated; the new object state is returned with the new interpreter
    state. *)
Definition Device_enter (self : Device) (w : World) : Device * World :=
  (mkDevice (Device_id self)
     (Device_stack self ++ [Device_new (Arg_int (-1)) w]),
   Device_use (Device_id self) w).

(** [Device.__exit__]: pop the last entry and make it current; popping
    from an empty stack raises. *)
Definition Device_exit (self : Device) (w : World)
  : Result (Device * World) :=
  match rev (Device_stack self) with
  | [] => Raise (IndexError "pop from empty list")
  | device :: rest =>
      Ok (mkDevice (Device_id self) (rev rest),
          Device_use (Device_id device) w)
  end.

(** [with self: body].  The body may use the object (enter it again) and
    the interpreter; [__exit__] runs whether the body returns or raises,
    and its own exception, if any, is the one that propagates. *)
Definition Device_with {A} (self : Device)
    (body : Device -> World -> Result A * (Device * World)) (w : World)
  : Result A * (Device * World) :=
  let '(self1, w1) := Device_enter self w in
  let '(r, (self2, w2)) := body self1 w1 in
  match Device_exit self2 w2 with
  | inl e => (inl e, (self2, w2))
  | inr (self3, w3) => (r, (self3, w3))
  end.

(** What a [Device] may be compared with. *)
Inductive compared : Type :=
| C_Device (d : Device)
| C_other (v : pyval).

(** [Device.__eq__] and [Device.__ne__] *)
Definition Device_eq (self : Device) (other : compared) : bool :=
  match other with
  | C_Device d => (Device_id self =? Device_id d)%Z
  | C_other _ => false
  end.

Definition Device_ne (self : Device) (other : compared) : bool :=
  negb (Device_eq self other).

(** ** [cuda/device.py]: the memoizing decorator with its registry *)

Section DeviceMemoize.

(** Keys [(args, frozenset(kwargs.items()))], results other than [None],
    and whatever state the decorated functions work on. *)
Variables K R S : Type.
Variable key_eq_dec : forall a b : K, {a = b} + {a <> b}.

(** A Python result: [None], or another value. *)
Definition pyresult : Type := option R.

(** The module-level list [_memoized_funcs] and, for every function
    object (by identity), its attribute [_cupy_dev_memo] when it has
    one: a [defaultdict(dict)] indexed by device id. *)
Record registry : Type := mkregistry {
  _memoized_funcs : list nat;
  _cupy_dev_memo : nat -> option (Z -> dict K pyresult)
}.

Definition empty_registry : registry := mkregistry [] (fun _ => None).

(** [hasattr(f, '_cupy_dev_memo')] *)
Definition hasattr_memo (reg : registry) (f : nat) : bool :=
  match _cupy_dev_memo reg f with Some _ => true | None => false end.

(** [_memoized_funcs.append(f); f._cupy_dev_memo = defaultdict(dict)] *)
Definition register (reg : registry) (f : nat) : registry :=
  mkregistry (_memoized_funcs reg ++ [f])
    (fun g => if Nat.eq_dec g f then Some (fun _ => [])
              else _cupy_dev_memo reg g).

(** The registry once [func] has made sure that [f] has its memo. *)
Definition ensured (reg : registry) (f : nat) : registry :=
  if hasattr_memo reg f then reg else register reg f.

(** [f._cupy_dev_memo[dev]] *)
Definition memo_of (reg : registry) (f : nat) (dev : Z) : dict K pyresult :=
  match _cupy_dev_memo reg f with
  | Some m => m dev
  | None => []
  end.

(** [memo[arg_key] = result], [memo] being [f._cupy_dev_memo[dev]] *)
Definition memo_store (reg : registry) (f : nat) (dev : Z) (arg_key : K)
    (result : pyresult) : registry :=
  mkregistry (_memoized_funcs reg)
    (fun g =>
       if Nat.eq_dec g f
       then match _cupy_dev_memo reg f with
            | Some m =>
                Some (fun d => if Z.eq_dec d dev
                               then dict_set key_eq_dec (m dev) arg_key result
                               else m d)
            | None => None
            end
       else _cupy_dev_memo reg g).

(** The function [func] that [memoize(f)] returns, called while device
    [dev] is current ([Device().id]).  [fid] is the identity of [f] and
    [body] what [f] does; [f] is taken not to call memoized functions
    itself, so it works on the state [S] only. *)
Definition memoize_func (fid : nat) (body : K -> S -> Result pyresult * S)
    (dev : Z) (arg_key : K) (st : registry * S)
  : Result pyresult * (registry * S) :=
  let '(reg, s) := st in
  let reg := ensured reg fid in
  let memo := memo_of reg fid dev in
  match dict_get key_eq_dec memo arg_key with
  | Some (Some result) => (Ok (Some result), (reg, s))
  | _ =>
      match body arg_key s with
      | (inl e, s') => (inl e, (reg, s'))
      | (inr result, s') =>
          (Ok result, (memo_store reg fid dev arg_key result, s'))
      end
  end.

(** The loop [for func in _memoized_funcs: del func._cupy_dev_memo];
    deleting an attribute that is not there raises and ends the loop. *)
Fixpoint clear_loop (funcs : list nat)
    (memo : nat -> option (Z -> dict K pyresult))
  : Result unit * (nat -> option (Z -> dict K pyresult)) :=
  match funcs with
  | [] => (Ok tt, memo)
  | f :: rest =>
      match memo f with
      | None => (Raise (AttributeError "_cupy_dev_memo"), memo)
      | Some _ =>
          clear_loop rest (fun g => if Nat.eq_dec g f then None else memo g)
      end
  end.

(** [clear_device_dependent_memo]: delete the attribute of every listed
    function, then empty the list. *)
Definition clear_device_dependent_memo (reg : registry)
  : Result unit * registry :=
  match clear_loop (_memoized_funcs reg) (_cupy_dev_memo reg) with
  | (inl e, memo) => (inl e, mkregistry (_memoized_funcs reg) memo)
  | (inr _, memo) => (Ok tt, mkregistry [] memo)
  end.

(** What a program does with memoized functions: call one, or clear. *)
Inductive memo_action : Type :=
| MA_call (fid : nat) (dev : Z) (arg_key : K)
| MA_clear.

(** The state after one action, whether it returned or raised; [bodies]
    gives what each decorated function does. *)
Definition memo_step (bodies : nat -> K -> S -> Result pyresult * S)
    (a : memo_action) (st : registry * S) : registry * S :=
  match a with
  | MA_call fid dev arg_key =>
      snd (memoize_func fid (bodies fid) dev arg_key st)
  | MA_clear => (snd (clear_device_dependent_memo (fst st)), snd st)
  end.

Definition memo_run (bodies : nat -> K -> S -> Result pyresult * S)
    (acts : list memo_action) (st : registry * S) : registry * S :=
  fold_left (fun st a => memo_step bodies a st) acts st.

(** The listed functions are exactly those with the attribute, each
    listed once. *)
Definition registry_inv (reg : registry) : Prop :=
  NoDup (_memoized_funcs reg)
  /\ forall g, In g (_memoized_funcs reg) <-> hasattr_memo reg g = true.

End DeviceMemoize.

(** A function to memoize that counts its runs in the state and returns
    [None] for the key 0 and the key itself otherwise. *)
Definition counting_body (k : nat) (runs : nat) : Result (option nat) * nat :=
  (Ok (if (k =? 0)%nat then None else Some k), S runs).

(** ** Addresses of elements *)

(** The distance, in the unit of [strides], from the first element of a
    view to its [k]-th element, the elements of a space of extents [shape]
    being counted in row-major order (last axis fastest): on each axis the
    element has the index [(k / product of the later extents) mod extent],
    and the distance is the sum over the axes of index times stride. *)
Fixpoint element_offset (shape strides : list Z) (k : Z) : Z :=
  match shape, strides with
  | d :: shape', s :: strides' =>
      ((k / prod shape') mod d) * s + element_offset shape' strides' k
  | _, _ => 0
  end%Z.

(** The operand at position [j] is one [_reduce_dims] reshapes: an array
    whose parameter is not raw. *)
Definition reshaped_operand (args : list pyval) (params : list ParameterInfo)
    (j : nat) : Prop :=
  nth_error (is_array_flags_of args params) j = Some true.

(** ** The universal functions the module defines *)

(** [_id] *)
Definition _id : string := "out0 = in0".

(** [copy = create_ufunc('cupy_copy', [...], _id)] *)
Definition copy (numpy_dtype : string -> option Dtype) : M ufunc :=
  create_ufunc numpy_dtype "cupy_copy"
    (map (fun t => (t, None))
       ["?->?"; "b->b"; "B->B"; "h->h"; "H->H"; "i->i"; "I->I"; "l->l";
        "L->L"; "q->q"; "Q->Q"; "e->e"; "f->f"; "d->d"])
    _id "".

(** [copy_where = create_ufunc('cupy_copy_where', [...], 'if (in1) out0 = in0')] *)
Definition copy_where (numpy_dtype : string -> option Dtype) : M ufunc :=
  create_ufunc numpy_dtype "cupy_copy_where"
    (map (fun t => (t, None))
       ["??->?"; "b?->b"; "B?->B"; "h?->h"; "H?->H"; "i?->i"; "I?->I";
        "l?->l"; "L?->L"; "q?->q"; "Q?->Q"; "e?->e"; "f?->f"; "d?->d"])
    "if (in1) out0 = in0" "".

(** The one-character type codes the two tables use, and the dtypes numpy
    reads them as where C [long] has 64 bits. *)
Definition type_codes : list (string * Dtype) :=
  [("?", bool_); ("b", int8); ("B", uint8); ("h", int16); ("H", uint16);
   ("i", int32); ("I", uint32); ("l", int64); ("L", uint64); ("q", int64);
   ("Q", uint64); ("e", float16); ("f", float32); ("d", float64)].

(** [numpy_dtype] reads the type codes as [type_codes] says. *)
Definition reads_type_codes (numpy_dtype : string -> option Dtype) : Prop :=
  forall c d, In (c, d) type_codes -> numpy_dtype c = Some d.

(** The dtypes of [_typenames]. *)
Definition supported_dtypes : list Dtype :=
  [float64; float32; float16; int64; int32; int16; int8;
   uint64; uint32; uint16; uint8; bool_].

(** ** Vocabulary for calls that return *)







(** * Properties *)

Unset Implicit Arguments.

(** ** Results and lists *)

Lemma last_two_app : forall A (mods : list A) (t n : A),
  last_two (mods ++ [t; n]) = [t; n].
Proof.
  intros. unfold last_two. rewrite length_app. simpl.
  replace (List.length mods + 2 - 2) with (List.length mods + 0) by lia.
  rewrite skipn_app, Nat.add_0_r, skipn_all.
  replace (List.length mods - List.length mods) with 0 by lia.
  reflexivity.
Qed.

Lemma but_last_two_app : forall A (mods : list A) (t n : A),
  but_last_two (mods ++ [t; n]) = mods.
Proof.
  intros. unfold but_last_two. rewrite length_app. simpl.
  replace (List.length mods + 2 - 2) with (List.length mods) by lia.
  rewrite firstn_app, firstn_all.
  replace (List.length mods - List.length mods) with 0 by lia.
  simpl. apply app_nil_r.
Qed.

Lemma short_list_cases : forall A (s : list A),
  List.length s < 2 -> s = [] \/ exists x, s = [x].
Proof.
  intros A [|x [|y s]] H; simpl in H; try lia; eauto.
Qed.

(** ** The parameter-spec parser *)

Lemma parse_modifiers_raw : forall mods raw,
  Forall (eq "raw") mods ->
  parse_modifiers mods raw = Ok (raw || negb (Nat.eqb (List.length mods) 0)).
Proof.
  induction mods as [|m mods IH]; intros raw H; simpl.
  - now rewrite orb_false_r.
  - inversion H as [|? ? Hm Hrest]; subst. simpl.
    rewrite IH by assumption. simpl. now rewrite orb_true_r.
Qed.

Lemma parse_modifiers_unknown : forall mods raw,
  ~ Forall (eq "raw") mods -> is_raise (parse_modifiers mods raw).
Proof.
  induction mods as [|m mods IH]; intros raw H; simpl.
  - exfalso. apply H. constructor.
  - destruct (String.eqb_spec m "raw") as [->|Hne].
    + apply IH. intro HF. apply H. constructor; auto.
    + exact I.
Qed.

Lemma tokens_not_short : forall (mods : list string) t n,
  (List.length (mods ++ [t; n]) <? 2)%nat = false.
Proof.
  intros. apply Nat.ltb_ge. rewrite length_app. simpl. lia.
Qed.

(** The parser on an entry whose tokens end in a type token [t] and a
    name [n]. *)
Lemma ParameterInfo_init_tokens : forall np oid str c mods t n,
  param_tokens str = mods ++ [t; n] ->
  ParameterInfo_init np oid str c =
  (do dc <-
     (if String.eqb t "CIndexer" then Ok (None, None)
      else if (String.length t =? 1)%nat then Ok (None, Some t)
      else
        match np t with
        | None => Raise (TypeError "data type not understood")
        | Some d =>
            if negb (String.eqb (dtype_name d) t)
            then Raise (ValueError ("Wrong type " ++ t)%string)
            else
              do c <- _get_typename (Some d);
              Ok (Some d, Some c)
        end);
   do raw <- parse_modifiers mods false;
   Ok (mkParameterInfo oid n (fst dc) (snd dc) raw c))%res.
Proof.
  intros np oid str c mods t n H. unfold ParameterInfo_init.
  rewrite H, tokens_not_short, last_two_app, but_last_two_app.
  reflexivity.
Qed.

(** C7 (as amended).  An entry with fewer than two tokens raises
    [Exception('Syntax error: ...')].  Otherwise, with [t] the type token:
    a one-character [t] is kept as a generic tag and no dtype is looked up;
    the keyword [CIndexer] is accepted as the indexer slot, with neither
    dtype nor tag; any other [t] that is not the canonical name of the
    dtype numpy reads it as raises ([TypeError] from numpy or
    [ValueError('Wrong type ...')]); and a modifier other than [raw] makes
    the entry raise. *)
Theorem ParameterInfo_parse_cases :
  forall (np : string -> option Dtype) oid str c,
    (List.length (param_tokens str) < 2 ->
     ParameterInfo_init np oid str c
     = Raise (Exception ("Syntax error: " ++ str)%string))
    /\
    (forall mods t n,
        param_tokens str = mods ++ [t; n] ->
        (String.length t = 1 -> Forall (eq "raw") mods ->
         ParameterInfo_init np oid str c
         = Ok (mkParameterInfo oid n None (Some t)
                 (negb (Nat.eqb (List.length mods) 0)) c))
        /\
        (t = "CIndexer" -> Forall (eq "raw") mods ->
         ParameterInfo_init np oid str c
         = Ok (mkParameterInfo oid n None None
                 (negb (Nat.eqb (List.length mods) 0)) c))
        /\
        (t <> "CIndexer" -> String.length t <> 1 ->
         (forall d, np t = Some d -> dtype_name d <> t) ->
         ParameterInfo_init np oid str c
         = Raise (TypeError "data type not understood")
         \/ ParameterInfo_init np oid str c
            = Raise (ValueError ("Wrong type " ++ t)%string))
        /\
        (~ Forall (eq "raw") mods ->
         is_raise (ParameterInfo_init np oid str c))).
Proof.
  intros np oid str c. split.
  - intro Hlen. unfold ParameterInfo_init.
    destruct (short_list_cases _ _ Hlen) as [-> | [x ->]]; reflexivity.
  - intros mods t n Htok.
    rewrite (ParameterInfo_init_tokens np oid str c mods t n Htok).
    repeat split.
    + intros Hlen Hraw.
      destruct (String.eqb_spec t "CIndexer") as [->|_]; [discriminate|].
      rewrite Hlen. simpl. rewrite (parse_modifiers_raw mods false Hraw).
      reflexivity.
    + intros -> Hraw. simpl. rewrite (parse_modifiers_raw mods false Hraw).
      reflexivity.
    + intros Hnc Hlen Hcanon.
      destruct (String.eqb_spec t "CIndexer") as [->|_]; [congruence|].
      destruct (Nat.eqb_spec (String.length t) 1) as [E|_]; [congruence|].
      destruct (np t) as [d|] eqn:Hd; [|now left].
      right. specialize (Hcanon d eq_refl).
      destruct (String.eqb_spec (dtype_name d) t); [congruence|reflexivity].
    + intro Hbad.
      pose proof (parse_modifiers_unknown mods false Hbad) as Hr.
      destruct (parse_modifiers mods false); [|contradiction].
      match goal with |- is_raise (rbind ?x _) => destruct x; exact I end.
Qed.

(** ** Construction of an [ElementwiseKernel] *)

Lemma bind_Ok : forall A B (c : M A) (k : A -> M B) w a w',
  c w = (Ok a, w') -> bind c k w = k a w'.
Proof. intros A B c k w a w' H. unfold bind. now rewrite H. Qed.

Lemma bind_Raise : forall A B (c : M A) (k : A -> M B) w e w',
  c w = (Raise e, w') -> bind c k w = (Raise e, w').
Proof. intros A B c k w e w' H. unfold bind. now rewrite H. Qed.

Lemma indexer_slot_entry : forall np oid,
  ParameterInfo_init np oid "CIndexer _ind" false
  = Ok (mkParameterInfo oid "_ind" None None false false).
Proof. intros. vm_compute. reflexivity. Qed.

Lemma indexer_slot_parses : forall np w,
  exists r w', _get_param_info np "CIndexer _ind" None w = (Ok r, w').
Proof.
  intros np w. unfold _get_param_info, memoize_shared.
  destruct (dict_get param_key_eq_dec (w_param_memo w) _) as [r|].
  - eauto.
  - unfold _get_param_info_body.
    replace (str_split_on "," (str_strip "CIndexer _ind"))
      with ["CIndexer _ind"] by (vm_compute; reflexivity).
    cbn -[ParameterInfo_init]. rewrite indexer_slot_entry. cbn. eauto.
Qed.

Lemma existsb_name_i : forall names,
  In "i" names -> existsb (String.eqb "i") names = true.
Proof.
  intros names H. apply existsb_exists. exists "i". split; auto.
Qed.

(** C8.  The parser never looks at the parameter name: an entry named [i]
    parses exactly as the same entry under any other name does.  An
    [ElementwiseKernel] whose parsed input or output parameters include
    one named [i] is refused by [__init__] with [ValueError]. *)
Theorem reserved_name_rejected_at_construction :
  forall (np : string -> option Dtype),
    (forall oid c str str' mods t n p,
        param_tokens str = mods ++ [t; "i"] ->
        param_tokens str' = mods ++ [t; n] ->
        ParameterInfo_init np oid str' c = Ok p ->
        ParameterInfo_init np oid str c
        = Ok (mkParameterInfo oid "i" (p_dtype p) (p_ctype p) (p_raw p) c))
    /\
    (forall in_s out_s op nm rd pre kw w ins w1 outs w2,
        _get_param_info np in_s (Some true) w = (Ok ins, w1) ->
        _get_param_info np out_s None w1 = (Ok outs, w2) ->
        In "i" (map p_name (ins ++ outs)) ->
        exists w',
          ElementwiseKernel_init np in_s out_s op nm rd pre kw w
          = (Raise (ValueError "Can not use 'i' as a parameter name"), w')).
Proof.
  intro np. split.
  - intros oid c str str' mods t n p Hi Hn Hp.
    rewrite (ParameterInfo_init_tokens np oid str' c mods t n Hn) in Hp.
    rewrite (ParameterInfo_init_tokens np oid str c mods t "i" Hi).
    match type of Hp with rbind ?x _ = _ => destruct x as [e|dc] end;
      [discriminate|].
    simpl in *.
    destruct (parse_modifiers mods false) as [e|raw]; [discriminate|].
    simpl in *. inversion Hp; subst. reflexivity.
  - intros in_s out_s op nm rd pre kw w ins w1 outs w2 Hin Hout Hi.
    destruct (indexer_slot_parses np w2) as (rest & w3 & Hrest).
    exists w3. unfold ElementwiseKernel_init.
    rewrite (bind_Ok _ _ _ _ _ _ _ Hin).
    rewrite (bind_Ok _ _ _ _ _ _ _ Hout).
    rewrite (bind_Ok _ _ _ _ _ _ _ Hrest).
    rewrite (existsb_name_i _ Hi). reflexivity.
Qed.

(** ** State relations kept by computations *)

Section Preserves.
Variable R : World -> World -> Prop.
Hypothesis R_refl : forall w, R w w.
Hypothesis R_trans : forall w1 w2 w3, R w1 w2 -> R w2 w3 -> R w1 w3.

Lemma preserves_ret : forall A (a : A), preserves R (ret a).
Proof. intros A a w. apply R_refl. Qed.

Lemma preserves_raise : forall A e, preserves R (@raise A e).
Proof. intros A e w. apply R_refl. Qed.

Lemma preserves_lift : forall A (r : Result A), preserves R (lift r).
Proof. intros A r w. apply R_refl. Qed.

Lemma preserves_current_device : preserves R current_device.
Proof. intro w. apply R_refl. Qed.

Lemma preserves_bind : forall A B (c : M A) (k : A -> M B),
  preserves R c -> (forall a, preserves R (k a)) -> preserves R (bind c k).
Proof.
  intros A B c k Hc Hk w. unfold bind.
  specialize (Hc w). destruct (c w) as [[e|a] w1]; simpl in *; auto.
  eapply R_trans; [exact Hc|]. apply Hk.
Qed.

Lemma preserves_mapM : forall A B (f : A -> M B) l,
  (forall a, preserves R (f a)) -> preserves R (mapM f l).
Proof.
  intros A B f l Hf. induction l as [|x l IH]; simpl.
  - apply preserves_ret.
  - apply preserves_bind; [apply Hf|]. intro y.
    apply preserves_bind; [exact IH|]. intro ys. apply preserves_ret.
Qed.

Lemma preserves_if : forall A (b : bool) (c1 c2 : M A),
  preserves R c1 -> preserves R c2 -> preserves R (if b then c1 else c2).
Proof. intros A [] c1 c2 H1 H2; assumption. Qed.

Lemma preserves_memoize : forall K V eq_dec load store (f : K -> M V) k,
  (forall k, preserves R (f k)) ->
  (forall m w, R w (store m w)) ->
  preserves R (memoize eq_dec load store f k).
Proof.
  intros K V eq_dec load store f k Hf Hs w. unfold memoize.
  destruct (dict_get eq_dec (load w (w_device w)) k); simpl; auto.
  specialize (Hf k w). destruct (f k w) as [[e|r] w1]; simpl in *; auto.
  eapply R_trans; [exact Hf|]. apply Hs.
Qed.

End Preserves.

Lemma kernel_untouched_refl : forall w, kernel_untouched w w.
Proof. intro w. repeat split. Qed.

Lemma kernel_untouched_trans : forall w1 w2 w3,
  kernel_untouched w1 w2 -> kernel_untouched w2 w3 -> kernel_untouched w1 w3.
Proof.
  unfold kernel_untouched. intros w1 w2 w3 H1 H2.
  destruct H1 as (?&?&?&?&?&?), H2 as (?&?&?&?&?&?).
  repeat split; congruence.
Qed.

Lemma fresh_untouched : preserves kernel_untouched fresh.
Proof. intro w. repeat split. Qed.

Create HintDb untouched.

Ltac untouched :=
  repeat first
    [ solve [auto 1 with untouched nocore]
    | apply (preserves_ret kernel_untouched kernel_untouched_refl)
    | apply (preserves_raise kernel_untouched kernel_untouched_refl)
    | apply (preserves_lift kernel_untouched kernel_untouched_refl)
    | apply (preserves_current_device kernel_untouched kernel_untouched_refl)
    | apply fresh_untouched
    | apply (preserves_mapM kernel_untouched kernel_untouched_refl
               kernel_untouched_trans); intro
    | apply (preserves_bind kernel_untouched kernel_untouched_trans);
      [ | intro ]
    | apply preserves_if
    | match goal with
      | |- preserves _ (match ?x with _ => _ end) => destruct x
      end ].

Lemma cupy_empty_untouched : forall shape t,
  preserves kernel_untouched (cupy_empty shape t).
Proof. intros. unfold cupy_empty. untouched. Qed.

#[local] Hint Resolve fresh_untouched cupy_empty_untouched : untouched.

Lemma _check_args_untouched : forall args,
  preserves kernel_untouched (_check_args args).
Proof. intro args. unfold _check_args. untouched. Qed.

#[local] Hint Resolve _check_args_untouched : untouched.

Lemma _decide_params_type_untouched : forall ip op idt odt,
  preserves kernel_untouched (_decide_params_type ip op idt odt).
Proof.
  intros. unfold _decide_params_type.
  apply (preserves_memoize kernel_untouched kernel_untouched_refl
           kernel_untouched_trans).
  - intro k. untouched.
  - intros m w. repeat split.
Qed.

#[local] Hint Resolve _decide_params_type_untouched : untouched.

Lemma _get_out_args_untouched : forall ia oa ot sh op,
  preserves kernel_untouched (_get_out_args ia oa ot sh op).
Proof. intros. unfold _get_out_args. untouched. Qed.

#[local] Hint Resolve _get_out_args_untouched : untouched.

Lemma ElementwiseKernel_prepare_untouched : forall self args size,
  preserves kernel_untouched (ElementwiseKernel_prepare self args size).
Proof.
  intros. unfold ElementwiseKernel_prepare. untouched.
Qed.

Lemma _guess_routine_untouched : forall cc self in_args dtype,
  preserves kernel_untouched (_guess_routine cc self in_args dtype).
Proof.
  intros. unfold _guess_routine. untouched.
  intro w. unfold lookup_or_scan.
  destruct (dict_get _ _ _); simpl; repeat split.
Qed.

#[local] Hint Resolve _guess_routine_untouched : untouched.

Lemma ufunc_prepare_untouched : forall cc self args out dtype,
  preserves kernel_untouched (ufunc_prepare cc self args out dtype).
Proof.
  intros. unfold ufunc_prepare. untouched.
Qed.

(** ** Inversion of monadic steps *)

Lemma bind_inv_Ok : forall A B (c : M A) (k : A -> M B) w b w',
  bind c k w = (Ok b, w') ->
  exists a w1, c w = (Ok a, w1) /\ k a w1 = (Ok b, w').
Proof.
  intros A B c k w b w' H. unfold bind in H.
  destruct (c w) as [[e|a] w1]; [discriminate|]. eauto.
Qed.

Lemma lift_inv_Ok : forall A (r : Result A) w a w',
  lift r w = (Ok a, w') -> r = Ok a /\ w' = w.
Proof. intros A r w a w' H. unfold lift in H. now inversion H. Qed.

Lemma ret_inv : forall A (a b : A) w w',
  ret a w = (Ok b, w') -> b = a /\ w' = w.
Proof. intros A a b w w' H. unfold ret in H. now inversion H. Qed.

Lemma rbind_inv_Ok : forall A B (r : Result A) (k : A -> Result B) b,
  rbind r k = Ok b -> exists a, r = Ok a /\ k a = Ok b.
Proof. intros A B [e|a] k b H; [discriminate|]. eauto. Qed.

(** ** Element counts *)

Lemma prod_zero_iff : forall shape, prod shape = 0%Z <-> zero_in shape = true.
Proof.
  unfold zero_in, prod.
  induction shape as [|d shape IH]; cbn [existsb fold_right].
  - split; [lia|discriminate].
  - rewrite orb_true_iff, <- IH.
    destruct (Z.eqb_spec 0 d) as [E|E].
    + subst. split; intro H; [now left|lia].
    + split; intro H.
      * right. nia.
      * destruct H as [H|H]; [discriminate|]. rewrite H. lia.
Qed.

Lemma cupy_broadcast_size : forall args b,
  cupy_broadcast args = Ok b -> b_size b = prod (b_shape b).
Proof.
  intros args b H. unfold cupy_broadcast in H.
  apply rbind_inv_Ok in H. destruct H as (r & _ & H).
  inversion H; subst. reflexivity.
Qed.

(** ** Calls *)

Lemma ElementwiseKernel_prepare_ret : forall self args size w pr w',
  ElementwiseKernel_prepare self args size w = (Ok pr, w') ->
  pr_ret pr = make_ret (pr_out_args pr)
  /\ exists value,
       _broadcast args (params self)
         (match size with None => true | Some _ => false end)
       = Ok (pr_brod pr, value).
Proof.
  intros self args size w pr w' H. unfold ElementwiseKernel_prepare in H.
  destruct (negb _); [discriminate|].
  apply bind_inv_Ok in H. destruct H as (? & w1 & _ & H).
  apply bind_inv_Ok in H. destruct H as (? & w2 & _ & H).
  apply bind_inv_Ok in H. destruct H as ([brod value] & w3 & Hb & H).
  apply lift_inv_Ok in Hb. destruct Hb as [Hb _].
  apply bind_inv_Ok in H. destruct H as (tys & w4 & _ & H).
  apply bind_inv_Ok in H. destruct H as (out_args & w5 & _ & H).
  apply ret_inv in H. destruct H as [-> _]. simpl. split; [reflexivity|].
  eauto.
Qed.

Lemma ufunc_prepare_ret : forall cc self args out dtype w pr w',
  ufunc_prepare cc self args out dtype w = (Ok pr, w') ->
  pr_ret pr = make_ret (pr_out_args pr)
  /\ cupy_broadcast args = Ok (pr_brod pr).
Proof.
  intros cc self args out dtype w pr w' H. unfold ufunc_prepare in H.
  destruct (negb _); [discriminate|].
  apply bind_inv_Ok in H. destruct H as (brod & w1 & Hb & H).
  apply lift_inv_Ok in Hb. destruct Hb as [Hb _].
  apply bind_inv_Ok in H. destruct H as (? & w2 & _ & H).
  apply bind_inv_Ok in H. destruct H as (? & w3 & _ & H).
  apply bind_inv_Ok in H. destruct H as (op & w4 & _ & H).
  apply bind_inv_Ok in H. destruct H as (out_args & w5 & _ & H).
  apply ret_inv in H. destruct H as [-> _]. simpl. split; [reflexivity|].
  exact Hb.
Qed.


Lemma reject_numpy_ndarray_raises : forall args,
  existsb is_numpy_ndarray args = true ->
  reject_numpy_ndarray args
  = Raise (TypeError ("Unsupported type " ++ type_repr T_numpy_ndarray)%string).
Proof.
  induction args as [|a args IH]; simpl; [discriminate|].
  intro H. destruct a; simpl in *; auto.
Qed.

(** C9.  A call of an [ElementwiseKernel] with a host (numpy) array among
    its positional arguments raises [TypeError], from the argument-count
    test or from the test on host arrays, and the interpreter state is the
    one the call started in: nothing was broadcast, resolved, allocated,
    compiled or launched, so no array was written. *)
Theorem host_array_rejected :
  forall (nvcc : string -> list string -> bool) self args size w,
    existsb is_numpy_ndarray args = true ->
    exists msg,
      ElementwiseKernel_call nvcc self args size w = (Raise (TypeError msg), w)
      /\ (msg = ("Wrong number of arguments for " ++ name self)%string
          \/ msg = ("Unsupported type " ++ type_repr T_numpy_ndarray)%string).
Proof.
  intros nvcc self args size w H.
  unfold ElementwiseKernel_call, ElementwiseKernel_prepare.
  destruct (negb _).
  - eexists. split; [reflexivity|]. now left.
  - eexists. split; [|now right].
    unfold bind at 1. unfold bind at 1. unfold lift.
    rewrite (reject_numpy_ndarray_raises _ H). reflexivity.
Qed.

(** ** Undecided loop size *)

Lemma broadcast_of_None : forall l,
  Forall (eq V_None) l ->
  cupy_broadcast l = Ok (mkbroadcast [] 1%Z l).
Proof.
  intros l H. unfold cupy_broadcast.
  assert (Hc : forall acc, broadcast_common_rev l acc = Ok acc).
  { induction H as [|v l Hv Hl IH]; intro acc; simpl; auto.
    subst v. apply IH. }
  rewrite Hc. simpl. f_equal. f_equal.
  induction H as [|v l Hv Hl IH]; simpl; auto.
  subst v. simpl. now rewrite IH.
Qed.

Lemma mask_without_arrays : forall params args,
  (forall p a, In (p, a) (combine params args) ->
               is_ndarray a = true -> p_raw p = true) ->
  Forall (eq V_None)
    (map (fun pa => if negb (p_raw (fst pa)) && is_ndarray (snd pa)
                    then snd pa else V_None)
       (combine params args)).
Proof.
  intros params args H. apply Forall_forall. intros v Hv.
  apply in_map_iff in Hv. destruct Hv as ([p a] & Hv & Hin). simpl in Hv.
  destruct (is_ndarray a) eqn:Ha.
  - rewrite (H p a Hin Ha) in Hv. simpl in Hv. auto.
  - rewrite andb_false_r in Hv. auto.
Qed.

Lemma forallb_is_None : forall l, Forall (eq V_None) l -> forallb is_None l = true.
Proof.
  intros l H. apply forallb_forall. intros v Hv.
  rewrite Forall_forall in H. now rewrite <- (H v Hv).
Qed.

Lemma _broadcast_undecided : forall args params,
  (forall p a, In (p, a) (combine params args) ->
               is_ndarray a = true -> p_raw p = true) ->
  _broadcast args params true = Raise (ValueError "Loop size is Undecided").
Proof.
  intros args params H. unfold _broadcast.
  pose proof (mask_without_arrays params args H) as Hm.
  rewrite (broadcast_of_None _ Hm). simpl.
  now rewrite (forallb_is_None _ Hm).
Qed.

Lemma checked_args_have_no_host_array : forall dev args,
  check_args_loop dev args = Ok tt -> reject_numpy_ndarray args = Ok tt.
Proof.
  induction args as [|a args IH]; simpl; auto.
  destruct a; simpl; auto; try discriminate.
  - destruct (a_device a =? dev)%Z; [auto|discriminate].
  - destruct ty; auto; try discriminate.
    destruct (_typenames d); [auto|discriminate].
Qed.

Lemma _check_args_run : forall args w,
  _check_args args w = (check_args_loop (w_device w) args, w).
Proof. reflexivity. Qed.

(** C6 (as amended).  [_broadcast] with [size_error] set raises
    [ValueError('Loop size is Undecided')] whenever no operand paired with
    a parameter is a non-raw array.  A call of an [ElementwiseKernel]
    without [size] in which no operand is a non-raw array always raises
    and leaves the interpreter state as it was, so no kernel is launched;
    the exception is that [ValueError] as soon as the argument count is
    right and the operands pass [_check_args] (each is a scalar or an
    array on the current device). *)
Theorem undecided_loop_size :
  forall (nvcc : string -> list string -> bool),
    (forall args params,
        (forall p a, In (p, a) (combine params args) ->
                     is_ndarray a = true -> p_raw p = true) ->
        _broadcast args params true
        = Raise (ValueError "Loop size is Undecided"))
    /\
    (forall self args w,
        (forall p a, In (p, a) (combine (params self) args) ->
                     is_ndarray a = true -> p_raw p = true) ->
        exists e,
          ElementwiseKernel_call nvcc self args None w = (Raise e, w)
          /\ (List.length args = nin self
               \/ List.length args = nin self + nout self ->
               check_args_loop (w_device w) args = Ok tt ->
               e = ValueError "Loop size is Undecided")).
Proof.
  intro nvcc. split; [exact _broadcast_undecided|].
  intros self args w Hraw.
  unfold ElementwiseKernel_call, ElementwiseKernel_prepare.
  destruct (negb ((List.length args =? nin self)%nat
                  || (List.length args =? nin self + nout self)%nat))
    eqn:Hn.
  - eexists. split; [reflexivity|]. intros Hlen _. exfalso.
    apply negb_true_iff, orb_false_iff in Hn. destruct Hn as [H1 H2].
    apply Nat.eqb_neq in H1, H2. destruct Hlen; contradiction.
  - destruct (reject_numpy_ndarray args) as [e|[]] eqn:Hrej.
    + exists e. split.
      * apply bind_Raise. apply bind_Raise. reflexivity.
      * intros _ Hchk.
        rewrite (checked_args_have_no_host_array _ _ Hchk) in Hrej.
        discriminate.
    + destruct (check_args_loop (w_device w) args) as [e|[]] eqn:Hchk.
      * exists e. split; [|discriminate].
        apply bind_Raise.
        erewrite bind_Ok by reflexivity.
        apply bind_Raise. now rewrite _check_args_run, Hchk.
      * exists (ValueError "Loop size is Undecided"). split; [|reflexivity].
        apply bind_Raise.
        erewrite bind_Ok by reflexivity.
        erewrite bind_Ok by (rewrite _check_args_run, Hchk; reflexivity).
        apply bind_Raise. unfold lift.
        now rewrite (_broadcast_undecided _ _ Hraw).
Qed.

(** ** Dictionaries *)

Section DictFacts.
Variables K V : Type.
Variable eq_dec : forall a b : K, {a = b} + {a <> b}.

Lemma dict_get_set : forall (m : dict K V) k v k',
  dict_get eq_dec (dict_set eq_dec m k v) k'
  = if eq_dec k' k then Some v else dict_get eq_dec m k'.
Proof.
  induction m as [|[k0 v0] m IH]; intros k v k'; simpl.
  - reflexivity.
  - destruct (eq_dec k k0) as [->|Hk]; simpl.
    + destruct (eq_dec k' k0); reflexivity.
    + rewrite IH. destruct (eq_dec k' k0) as [->|Hk'].
      * destruct (eq_dec k0 k); [congruence|reflexivity].
      * reflexivity.
Qed.

Lemma dict_get_set_same : forall (m : dict K V) k v,
  dict_get eq_dec (dict_set eq_dec m k v) k = Some v.
Proof.
  intros. rewrite dict_get_set. destruct (eq_dec k k); congruence.
Qed.

Lemma dev_memo_get_set : forall (m : dev_memo K V) d k v d' k',
  dict_get eq_dec (dev_memo_set eq_dec m d k v d') k'
  = if Z.eq_dec d' d
    then (if eq_dec k' k then Some v else dict_get eq_dec (m d) k')
    else dict_get eq_dec (m d') k'.
Proof.
  intros. unfold dev_memo_set. destruct (Z.eq_dec d' d); auto.
  apply dict_get_set.
Qed.

End DictFacts.

(** ** Type resolution *)




Lemma Dtype_eqb_eq : forall a b, Dtype_eqb a b = true <-> a = b.
Proof.
  intros a b. unfold Dtype_eqb. destruct (Dtype_eq_dec a b); split;
    congruence.
Qed.


Lemma check_or_bind_raises : forall msg p a td e,
  check_or_bind (TypeError msg) p a td = Raise e -> exists m, e = TypeError m.
Proof.
  unfold check_or_bind. intros msg p a td e H.
  destruct (p_dtype p) as [d|].
  - destruct (Dtype_eqb a d); simpl in H; inversion H; eauto.
  - destruct (dict_get tag_eq_dec td (p_ctype p)) as [t|].
    + destruct (Dtype_eqb t a); simpl in H; inversion H; eauto.
    + discriminate.
Qed.


Lemma decide_out_loop_raises : forall pas td e,
  decide_out_loop pas td = Raise e -> exists m, e = TypeError m.
Proof.
  induction pas as [|[p oa] pas IH]; intros td e H; simpl in H.
  - discriminate.
  - destruct oa as [a|]; [|inversion H; eauto].
    destruct (check_or_bind _ p a td) as [e1|td1] eqn:Hc; simpl in H.
    + inversion H; subst. eapply check_or_bind_raises; eauto.
    + eauto.
Qed.


Lemma decide_in_loop_raises : forall pas td u e,
  decide_in_loop pas td u = Raise e -> exists m, e = TypeError m.
Proof.
  induction pas as [|[p oa] pas IH]; intros td u e H; simpl in H.
  - discriminate.
  - destruct oa as [a|].
    + destruct (check_or_bind _ p a td) as [e1|td1] eqn:Hc; simpl in H.
      * inversion H; subst. eapply check_or_bind_raises; eauto.
      * eauto.
    + destruct (p_dtype p); eauto.
Qed.

Lemma mapR_nth : forall A B (f : A -> Result B) l r,
  mapR f l = Ok r ->
  forall i x, nth_error l i = Some x ->
              exists y, f x = Ok y /\ nth_error r i = Some y.
Proof.
  induction l as [|x0 l IH]; intros r H i x Hi; simpl in H.
  - destruct i; discriminate.
  - apply rbind_inv_Ok in H. destruct H as (y0 & Hy0 & H).
    apply rbind_inv_Ok in H. destruct H as (ys & Hys & H).
    inversion H; subst. destruct i as [|i]; simpl in *.
    + inversion Hi; subst. eauto.
    + eauto.
Qed.


Lemma initial_decide_memo_sound : forall d, decide_memo_sound (initial_world d).
Proof. intros d d' k r H. discriminate. Qed.

(** The memo in front of [_decide_params_type] is transparent. *)
Lemma _decide_params_type_memo : forall ip op idt odt w,
  decide_memo_sound w ->
  fst (_decide_params_type ip op idt odt w)
  = _decide_params_type_body (mkdecide_key ip op idt odt)
  /\ decide_memo_sound (snd (_decide_params_type ip op idt odt w)).
Proof.
  intros ip op idt odt w Hs. unfold _decide_params_type, memoize.
  set (k := mkdecide_key ip op idt odt).
  destruct (dict_get _ (w_decide_memo w (w_device w)) k) as [r|] eqn:Hg;
    simpl.
  - split; auto. symmetry. eapply Hs; eauto.
  - unfold lift. destruct (_decide_params_type_body k) as [e|r] eqn:Hb;
      simpl; split; auto.
    intros d k' r' H. simpl in H. rewrite dev_memo_get_set in H.
    destruct (Z.eq_dec d (w_device w)); [|eapply Hs; eauto].
    destruct (decide_key_eq_dec k' k) as [E|].
    + rewrite E. inversion H; subst r'. exact Hb.
    + subst d. eapply Hs; eauto.
Qed.


(** ** Routine selection of a universal function *)

Lemma forallb_combine_castable : forall (cc : Dtype -> Dtype -> bool) tys decl,
  forallb (fun t => cc (fst t) (snd t)) (combine tys decl) = true
  <-> (forall j t0 t1, nth_error tys j = Some t0 ->
                       nth_error decl j = Some t1 -> cc t0 t1 = true).
Proof.
  intros cc. induction tys as [|t tys IH]; intros decl; simpl.
  - split; auto. intros _ [|j] t0 t1 H; discriminate.
  - destruct decl as [|d decl]; simpl.
    + split; auto. intros _ [|j] t0 t1 _ H; discriminate.
    + rewrite andb_true_iff, IH. split.
      * intros [H0 H] [|j] t0 t1 Ht Hd; simpl in *.
        -- inversion Ht; inversion Hd; subst. exact H0.
        -- eauto.
      * intro H. split.
        -- apply (H 0); reflexivity.
        -- intros j t0 t1 Ht Hd. apply (H (S j)); assumption.
Qed.

Lemma forallb_outputs_are : forall d outs,
  forallb (fun t => Dtype_eqb t d) outs = true
  <-> (forall t, In t outs -> t = d).
Proof.
  intros d outs. rewrite forallb_forall. split; intros H t Ht.
  - now apply Dtype_eqb_eq, H.
  - now apply Dtype_eqb_eq, H.
Qed.

Lemma from_in_types_first : forall cc tys ops op,
  first_match (castable_from cc tys) ops op ->
  _guess_routine_from_in_types cc ops tys = Some op.
Proof.
  intros cc tys ops op (pre & post & -> & HP & Hpre).
  unfold castable_from in *.
  induction pre as [|o pre IH]; simpl.
  - apply forallb_combine_castable in HP. now rewrite HP.
  - destruct (forallb _ (combine tys (fst (fst o)))) eqn:E.
    + exfalso. apply (Hpre o); [now left|].
      now apply forallb_combine_castable.
    + apply IH. intros o' Ho'. apply Hpre. now right.
Qed.

Lemma from_in_types_none : forall cc tys ops,
  (forall o, In o ops -> ~ castable_from cc tys o) ->
  _guess_routine_from_in_types cc ops tys = None.
Proof.
  intros cc tys. unfold castable_from.
  induction ops as [|o ops IH]; intro H; simpl; auto.
  destruct (forallb _ (combine tys (fst (fst o)))) eqn:E.
  - exfalso. apply (H o); [now left|]. now apply forallb_combine_castable.
  - apply IH. intros o' Ho'. apply H. now right.
Qed.

Lemma from_dtype_first : forall d ops op,
  first_match (outputs_are d) ops op ->
  _guess_routine_from_dtype ops d = Some op.
Proof.
  intros d ops op (pre & post & -> & HP & Hpre).
  unfold outputs_are in *.
  induction pre as [|o pre IH]; simpl.
  - apply forallb_outputs_are in HP. now rewrite HP.
  - destruct (forallb _ (snd (fst o))) eqn:E.
    + exfalso. apply (Hpre o); [now left|]. now apply forallb_outputs_are.
    + apply IH. intros o' Ho'. apply Hpre. now right.
Qed.

Lemma from_dtype_none : forall d ops,
  (forall o, In o ops -> ~ outputs_are d o) ->
  _guess_routine_from_dtype ops d = None.
Proof.
  intros d. unfold outputs_are.
  induction ops as [|o ops IH]; intro H; simpl; auto.
  destruct (forallb _ (snd (fst o))) eqn:E.
  - exfalso. apply (H o); [now left|]. now apply forallb_outputs_are.
  - apply IH. intros o' Ho'. apply H. now right.
Qed.

Lemma lookup_or_scan_run : forall cc self key w,
  routine_table_sound cc self w ->
  exists w',
    lookup_or_scan cc self key w = (Ok (routine_scan cc self key), w')
    /\ routine_table_sound cc self w'.
Proof.
  intros cc self key w Hs. unfold lookup_or_scan.
  destruct (dict_get routine_key_eq_dec (w_routine_table w (u_oid self)) key)
    as [op|] eqn:Hg.
  - exists w. rewrite (Hs key op Hg). auto.
  - eexists. split; [reflexivity|].
    intros k' op' H. simpl in H.
    destruct (Nat.eq_dec (u_oid self) (u_oid self)); [|congruence].
    rewrite dict_get_set in H.
    destruct (routine_key_eq_dec k' key) as [->|]; [now inversion H|].
    now apply Hs.
Qed.

(** With a sound table, [_guess_routine] answers as a scan would. *)
Lemma _guess_routine_run : forall cc self in_args dtype key w,
  routine_table_sound cc self w ->
  match dtype with
  | None => (do tys <- mapR dtype_of in_args; Ok (RK_in_types tys))%res
  | Some d => Ok (RK_dtype d)
  end = Ok key ->
  fst (_guess_routine cc self in_args dtype w)
  = match routine_scan cc self key with
    | Some op => Ok op
    | None =>
        Raise (TypeError ("Wrong type of arguments for " ++ u_name self)%string)
    end
  /\ routine_table_sound cc self (snd (_guess_routine cc self in_args dtype w)).
Proof.
  intros cc self in_args dtype key w Hs Hkey. unfold _guess_routine.
  erewrite bind_Ok by (unfold lift; rewrite Hkey; reflexivity).
  destruct (lookup_or_scan_run cc self key w Hs) as (w' & Hl & Hs').
  rewrite (bind_Ok _ _ _ _ _ _ _ Hl).
  destruct (routine_scan cc self key); simpl; auto.
Qed.

(** C2.  With the routine table sound:
    - without [dtype], [_guess_routine] returns the first entry of [_ops],
      in declaration order, each of whose declared input types is
      reachable by [numpy.can_cast] from the supplied input type in the
      same position;
    - with a [dtype], it returns the first entry all of whose declared
      output types are that dtype;
    - when no entry qualifies it raises [TypeError] with the name of the
      universal function in the message. *)
Theorem routine_selection_first_match :
  forall (cc : Dtype -> Dtype -> bool) self in_args w,
    routine_table_sound cc self w ->
    (forall tys,
        mapR dtype_of in_args = Ok tys ->
        (forall op,
            first_match (castable_from cc tys) (_ops self) op ->
            fst (_guess_routine cc self in_args None w) = Ok op)
        /\
        ((forall o, In o (_ops self) -> ~ castable_from cc tys o) ->
         fst (_guess_routine cc self in_args None w)
         = Raise (TypeError
                    ("Wrong type of arguments for " ++ u_name self)%string)))
    /\
    (forall d,
        (forall op,
            first_match (outputs_are d) (_ops self) op ->
            fst (_guess_routine cc self in_args (Some d) w) = Ok op)
        /\
        ((forall o, In o (_ops self) -> ~ outputs_are d o) ->
         fst (_guess_routine cc self in_args (Some d) w)
         = Raise (TypeError
                    ("Wrong type of arguments for " ++ u_name self)%string))).
Proof.
  intros cc self in_args w Hs. split.
  - intros tys Htys.
    destruct (_guess_routine_run cc self in_args None (RK_in_types tys) w Hs)
      as [Hrun _].
    { now rewrite Htys. }
    rewrite Hrun. simpl. split.
    + intros op Hop. now rewrite (from_in_types_first _ _ _ _ Hop).
    + intro Hnone. now rewrite (from_in_types_none _ _ _ Hnone).
  - intro d.
    destruct (_guess_routine_run cc self in_args (Some d) (RK_dtype d) w Hs)
      as [Hrun _]; [reflexivity|].
    rewrite Hrun. simpl. split.
    + intros op Hop. now rewrite (from_dtype_first _ _ _ Hop).
    + intro Hnone. now rewrite (from_dtype_none _ _ Hnone).
Qed.

(** ** Dimension reduction *)

Lemma list_set_length : forall A (l : list A) i v,
  List.length (list_set l i v) = List.length l.
Proof.
  induction l as [|x l IH]; intros [|i] v; simpl; auto.
Qed.

Lemma nth_error_list_set : forall A (l : list A) i v j,
  nth_error (list_set l i v) j
  = if Nat.eqb j i
    then (if Nat.ltb i (List.length l) then Some v else None)
    else nth_error l j.
Proof.
  induction l as [|x l IH]; intros i v j.
  - simpl. destruct (Nat.eqb j i); destruct j; reflexivity.
  - destruct i as [|i], j as [|j]; simpl; auto.
Qed.

Lemma index_Ok : forall A (l : list A) i x,
  index l i = Ok x <-> nth_error l i = Some x.
Proof.
  intros A l i x. unfold index.
  destruct (nth_error l i); split; intro H; inversion H; auto.
Qed.

Lemma prod_merge : forall k l di dp,
  nth_error l k = Some dp ->
  nth_error l (S k) = Some di ->
  prod (list_set (list_set l (S k) (di * dp)%Z) k 1%Z) = prod l.
Proof.
  unfold prod. induction k as [|k IH]; intros l di dp Hp Hi.
  - destruct l as [|x [|y l]]; cbn [list_set fold_right nth_error] in *;
      try discriminate.
    inversion Hp; inversion Hi; subst. ring.
  - destruct l as [|x l]; cbn [list_set fold_right nth_error] in *;
      try discriminate.
    f_equal. now apply IH.
Qed.

Lemma prod_filter_ones : forall l,
  prod (filter (fun dim => negb (dim =? 1)%Z) l) = prod l.
Proof.
  unfold prod. induction l as [|d l IH]; cbn [filter fold_right]; auto.
  destruct (Z.eqb_spec d 1) as [->|_]; cbn [negb fold_right]; rewrite IH; lia.
Qed.

Lemma merge_axes_prod : forall arrays axes shape m,
  Forall (fun i => 1 <= i) axes ->
  merge_axes arrays axes shape = Ok m ->
  prod m = prod shape.
Proof.
  intros arrays. induction axes as [|i axes IH]; intros shape m Hpos H;
    simpl in H.
  - now inversion H.
  - inversion Hpos as [|? ? Hi Hrest]; subst.
    apply rbind_inv_Ok in H. destruct H as (ok & _ & H).
    destruct ok.
    + apply rbind_inv_Ok in H. destruct H as (di & Hdi & H).
      apply rbind_inv_Ok in H. destruct H as (dp & Hdp & H).
      apply index_Ok in Hdi, Hdp. apply IH in H; auto.
      rewrite H. destruct i as [|k]; [lia|].
      replace (S k - 1) with k in * by lia. now apply prod_merge.
    + now apply IH in H.
Qed.

Lemma seq_from_one : forall len, Forall (fun i => 1 <= i) (seq 1 len).
Proof.
  intro len. apply Forall_forall. intros i Hi. apply in_seq in Hi. lia.
Qed.

Lemma shape_eqb_eq : forall s1 s2, shape_eqb s1 s2 = true -> s1 = s2.
Proof.
  intros s1 s2. unfold shape_eqb.
  destruct (list_eq_dec Z.eq_dec s1 s2); [auto|discriminate].
Qed.

(** Whatever [_reduce_dims] returns indexes as many elements as before. *)
Lemma _reduce_dims_prod : forall args params ix r,
  _reduce_dims args params ix = Ok r ->
  prod (ix_shape (snd r)) = prod (ix_shape ix).
Proof.
  intros args params ix r H. unfold _reduce_dims in H.
  destruct (Indexer_ndim ix <=? 1)%nat; [now inversion H|].
  apply rbind_inv_Ok in H. destruct H as (m & Hm & H).
  unfold merged_shape in Hm.
  apply merge_axes_prod in Hm; [|apply seq_from_one].
  destruct (shape_eqb _ (ix_shape ix)) eqn:E.
  - now inversion H.
  - apply rbind_inv_Ok in H. destruct H as (na & _ & H).
    inversion H; subst. simpl. now rewrite prod_filter_ones.
Qed.

Lemma all_contiguous_spec : forall e i shape arrays di,
  (forall arr, In arr arrays -> List.length e <= List.length (a_strides arr)) ->
  1 <= i ->
  nth_error shape i = Some di ->
  nth_error e i = Some di ->
  all_contiguous i shape arrays
  = Ok (forallb (operand_contiguous e i) arrays).
Proof.
  intros e i shape arrays di Hlen Hi Hs He.
  assert (Hin : i < List.length e) by (apply nth_error_Some; congruence).
  induction arrays as [|arr arrays IH]; simpl; auto.
  assert (Hl : List.length e <= List.length (a_strides arr))
    by (apply Hlen; now left).
  destruct (nth_error (a_strides arr) i) as [si|] eqn:Hsi;
    [|apply nth_error_None in Hsi; lia].
  destruct (nth_error (a_strides arr) (i - 1)) as [sp|] eqn:Hsp;
    [|apply nth_error_None in Hsp; lia].
  assert (Hoc : operand_contiguous e i arr = (si * di =? sp)%Z)
    by (unfold operand_contiguous; now rewrite Hsi, Hsp, He).
  rewrite Hoc. unfold index. rewrite Hsi, Hs, Hsp. cbn [rbind Ok].
  destruct (si * di =? sp)%Z; cbn [negb andb]; auto.
  apply IH. intros a Ha. apply Hlen. now right.
Qed.

Section MergeLoop.
Variable arrays : list ndarray.
Variable e : list Z.
Variable c : nat -> bool.
Hypothesis c_spec : forall i, c i = forallb (operand_contiguous e i) arrays.
Hypothesis strides_long :
  forall arr, In arr arrays -> List.length e <= List.length (a_strides arr).

Local Abbreviation final j := (if c (S j) then 1%Z else run_extent c e j).

Lemma merge_axes_run : forall len k shape,
  S k + len = List.length e ->
  List.length shape = List.length e ->
  (forall j, S k <= j -> nth_error shape j = nth_error e j) ->
  (forall j, j < k -> nth_error shape j = Some (final j)) ->
  nth_error shape k = Some (run_extent c e k) ->
  exists m,
    merge_axes arrays (seq (S k) len) shape = Ok m
    /\ List.length m = List.length e
    /\ (forall j, S j < List.length e -> nth_error m j = Some (final j))
    /\ nth_error m (List.length e - 1)
       = Some (run_extent c e (List.length e - 1)).
Proof.
  induction len as [|len IH]; intros k shape Hk Hlen Hhi Hlo Hcur.
  - exists shape. simpl. repeat split; auto.
    + intros j Hj. apply Hlo. lia.
    + replace (List.length e - 1) with k by lia. exact Hcur.
  - cbn [seq merge_axes].
    assert (Hin : S k < List.length e) by lia.
    destruct (nth_error e (S k)) as [di|] eqn:Hdi;
      [|apply nth_error_None in Hdi; lia].
    assert (Hsi : nth_error shape (S k) = Some di)
      by (rewrite Hhi by lia; exact Hdi).
    rewrite (all_contiguous_spec e (S k) shape arrays di) by (auto; lia).
    rewrite <- c_spec. cbn [rbind Ok].
    assert (Hrun : run_extent c e (S k)
                   = if c (S k) then (di * run_extent c e k)%Z else di).
    { cbn [run_extent]. rewrite (nth_error_nth _ _ _ Hdi). reflexivity. }
    destruct (c (S k)) eqn:Hc.
    + unfold index. rewrite Hsi. replace (S k - 1) with k by lia.
      rewrite Hcur. cbn [rbind Ok].
      apply IH.
      * lia.
      * now rewrite !list_set_length.
      * intros j Hj. rewrite !nth_error_list_set.
        destruct (Nat.eqb_spec j k); [lia|].
        destruct (Nat.eqb_spec j (S k)); [lia|]. apply Hhi. lia.
      * intros j Hj. rewrite !nth_error_list_set, list_set_length.
        destruct (Nat.eqb_spec j k) as [->|Hne].
        -- assert (Hlt : (k <? List.length shape)%nat = true)
             by (apply Nat.ltb_lt; lia).
           rewrite Hlt. now rewrite Hc.
        -- destruct (Nat.eqb_spec j (S k)); [lia|]. apply Hlo. lia.
      * rewrite !nth_error_list_set, list_set_length.
        destruct (Nat.eqb_spec (S k) k); [lia|].
        rewrite Nat.eqb_refl.
        assert (Hlt : (S k <? List.length shape)%nat = true)
          by (apply Nat.ltb_lt; lia).
        rewrite Hlt, Hrun. reflexivity.
    + apply IH; auto.
      * lia.
      * intros j Hj. apply Hhi. lia.
      * intros j Hj. destruct (Nat.eq_dec j k) as [->|Hne].
        -- rewrite Hc. exact Hcur.
        -- apply Hlo. lia.
      * now rewrite Hsi, Hrun.
Qed.

Lemma merge_axes_shape :
  exists m,
    merge_axes arrays (seq 1 (List.length e - 1)) e = Ok m
    /\ List.length m = List.length e
    /\ (forall j, j < List.length e ->
                  nth j m 1%Z
                  = if (S j <? List.length e)%nat && c (S j) then 1%Z
                    else run_extent c e j).
Proof.
  destruct (Nat.eq_dec (List.length e) 0) as [He|He].
  - exists e. rewrite He. simpl. repeat split; auto. intros j Hj. lia.
  - destruct (merge_axes_run (List.length e - 1) 0 e) as (m & Hm & Hl & Hj & Hn).
    + lia.
    + reflexivity.
    + auto.
    + intros j Hj0. lia.
    + cbn [run_extent]. apply nth_error_nth'. lia.
    + exists m. repeat split; auto.
      intros j Hlt. destruct (Nat.ltb_spec (S j) (List.length e)) as [H|H].
      * simpl. apply nth_error_nth. rewrite (Hj j H). reflexivity.
      * simpl. apply nth_error_nth.
        replace j with (List.length e - 1) by lia. exact Hn.
Qed.

End MergeLoop.

Lemma filter_strides_total : forall shape strides i,
  i + List.length strides <= List.length shape ->
  exists r, filter_strides shape i strides = Ok r.
Proof.
  intros shape. induction strides as [|s strides IH]; intros i H; simpl.
  - eauto.
  - simpl in H. unfold index.
    destruct (nth_error shape i) as [d|] eqn:Hd;
      [|apply nth_error_None in Hd; lia].
    destruct (IH (S i)) as [r Hr]; [lia|]. rewrite Hr. simpl. eauto.
Qed.

Lemma flagged_array_in : forall args flags i arr,
  nth_error flags i = Some true ->
  nth_error args i = Some (V_ndarray arr) ->
  In arr (array_args_of args flags).
Proof.
  induction args as [|a args IH]; intros flags i arr Hf Ha.
  - destruct i; discriminate.
  - destruct flags as [|f flags]; [destruct i; discriminate|].
    destruct i as [|i]; simpl in Hf, Ha.
    + inversion Hf; inversion Ha; subst. simpl. now left.
    + specialize (IH flags i arr Hf Ha).
      simpl. destruct a; auto. destruct f; simpl; auto.
Qed.

Lemma reshape_args_total : forall ns shape flags suffix i,
  (forall j a, nth_error suffix j = Some a ->
     exists f, nth_error flags (i + j) = Some f
               /\ (f = true -> forall arr, a = V_ndarray arr ->
                   List.length (a_strides arr) <= List.length shape)) ->
  exists r, reshape_args ns shape flags i suffix = Ok r.
Proof.
  intros ns shape flags. induction suffix as [|a suffix IH]; intros i H.
  - simpl. eauto.
  - cbn [reshape_args].
    destruct (H 0 a eq_refl) as (f & Hf & Hlen).
    rewrite Nat.add_0_r in Hf. unfold index at 1. rewrite Hf.
    cbn [rbind Ok].
    destruct (IH (S i)) as [r Hr].
    { intros j b Hb. destruct (H (S j) b Hb) as (g & Hg & Hl).
      exists g. split; auto. now rewrite Nat.add_succ_comm. }
    rewrite Hr.
    destruct f; [destruct a|]; simpl; eauto.
    destruct (filter_strides_total shape (a_strides a) 0) as [st Hst].
    { simpl. now apply Hlen. }
    rewrite Hst. simpl. eauto.
Qed.

Lemma is_array_flags_length : forall args params,
  List.length (is_array_flags_of args params)
  = Nat.min (List.length args) (List.length params).
Proof.
  intros. unfold is_array_flags_of. now rewrite length_map, length_combine.
Qed.

(** C4.  For every call of [_reduce_dims]:
    - an indexer of rank at most 1 comes back with the arguments, both
      unchanged;
    - whatever the call returns, the product of the extents of the
      returned indexer is the product of the extents it was given;
    - when each non-raw array operand has one stride per axis (and no
      argument lacks a parameter), the call returns, and the shape it
      reaches before dropping extent-1 axes is, axis by axis: extent 1 on
      an axis [j] merged into its successor, which happens exactly when
      [stride[j+1] * extent[j+1] == stride[j]] holds for every non-raw
      array operand; otherwise the extent accumulated by the merges that
      end at [j].  One operand breaking the equation blocks the merge. *)
Theorem reduce_dims_merges_contiguous_axes :
  forall args params ix,
    (Indexer_ndim ix <= 1 -> _reduce_dims args params ix = Ok (args, ix))
    /\
    (forall r, _reduce_dims args params ix = Ok r ->
               prod (ix_shape (snd r)) = prod (ix_shape ix))
    /\
    ((forall arr, In arr (non_raw_arrays args params) ->
                  List.length (a_strides arr) = Indexer_ndim ix) ->
     List.length args <= List.length params ->
     2 <= Indexer_ndim ix ->
     exists m r,
       merged_shape args params (ix_shape ix) = Ok m
       /\ List.length m = Indexer_ndim ix
       /\ (forall j, j < Indexer_ndim ix ->
             nth j m 1%Z
             = if (S j <? Indexer_ndim ix)%nat
                  && axes_contiguous args params (ix_shape ix) (S j)
               then 1%Z
               else run_extent (axes_contiguous args params (ix_shape ix))
                      (ix_shape ix) j)
       /\ _reduce_dims args params ix = Ok r
       /\ ix_shape (snd r) = filter (fun dim => negb (dim =? 1)%Z) m
       /\ prod (ix_shape (snd r)) = prod (ix_shape ix)).
Proof.
  intros args params ix. split; [|split].
  - intro H. unfold _reduce_dims.
    apply Nat.leb_le in H. now rewrite H.
  - apply _reduce_dims_prod.
  - intros Hstr Hlen Hrank. unfold Indexer_ndim in *.
    destruct (merge_axes_shape (non_raw_arrays args params) (ix_shape ix)
                (axes_contiguous args params (ix_shape ix)))
      as (m & Hm & Hml & Hmj).
    + intro i. reflexivity.
    + intros arr Harr. rewrite (Hstr arr Harr). lia.
    + assert (Hr : exists r,
                _reduce_dims args params ix = Ok r
                /\ ix_shape (snd r) = filter (fun dim => negb (dim =? 1)%Z) m).
      { unfold _reduce_dims, merged_shape, Indexer_ndim.
        fold (non_raw_arrays args params).
        assert (Hnd : (List.length (ix_shape ix) <=? 1)%nat = false)
          by (apply Nat.leb_gt; lia).
        rewrite Hnd, Hm. cbn [rbind Ok].
        destruct (shape_eqb _ (ix_shape ix)) eqn:E.
        - eexists. split; [reflexivity|]. simpl.
          symmetry. now apply shape_eqb_eq.
        - destruct (reshape_args_total
                      (filter (fun dim => negb (dim =? 1)%Z) m) m
                      (is_array_flags_of args params) args 0) as [na Hna].
          { intros j a Ha. simpl.
            assert (Hj : j < List.length (is_array_flags_of args params)).
            { rewrite is_array_flags_length.
              apply Nat.min_glb_lt; [|eapply Nat.lt_le_trans; [|exact Hlen]];
                apply nth_error_Some; congruence. }
            destruct (nth_error (is_array_flags_of args params) j) as [f|]
              eqn:Hf; [|apply nth_error_None in Hf; lia].
            exists f. split; auto. intros -> arr ->.
            rewrite Hml, (Hstr arr); [lia|].
            eapply flagged_array_in; eauto. }
          rewrite Hna. cbn [rbind Ok]. eexists. split; reflexivity. }
      destruct Hr as (r & Hr & Hshape).
      exists m, r. repeat split; auto.
      eapply _reduce_dims_prod; eauto.
Qed.

(** ** The compilation cache *)

Lemma benign_refl : forall w, benign w w.
Proof. intro w. unfold benign. repeat split; auto. Qed.

Lemma benign_trans : forall w1 w2 w3,
  benign w1 w2 -> benign w2 w3 -> benign w1 w3.
Proof.
  unfold benign. intros w1 w2 w3 (?&?&?&?&?) (?&?&?&?&?).
  repeat split; try congruence. lia.
Qed.

Lemma fresh_benign : preserves benign fresh.
Proof. intro w. unfold benign. simpl. repeat split; auto. Qed.

Lemma tick_benign : preserves benign tick_synthesized.
Proof. intro w. unfold benign. simpl. repeat split; auto. Qed.

Lemma linear_launch_benign : forall kern size args,
  preserves benign (linear_launch kern size args).
Proof. intros kern size args w. unfold benign. simpl. repeat split; auto. Qed.

Create HintDb benign.

#[local] Hint Resolve fresh_benign tick_benign linear_launch_benign : benign.

Ltac benign_steps :=
  repeat first
    [ solve [auto 1 with benign nocore]
    | apply (preserves_ret benign benign_refl)
    | apply (preserves_raise benign benign_refl)
    | apply (preserves_lift benign benign_refl)
    | apply (preserves_current_device benign benign_refl)
    | apply (preserves_mapM benign benign_refl benign_trans); intro
    | apply (preserves_bind benign benign_trans); [ | intro ]
    | apply preserves_if
    | match goal with
      | |- preserves _ (match ?x with _ => _ end) => destruct x
      end ].

Lemma cupy_empty_benign : forall shape t, preserves benign (cupy_empty shape t).
Proof. intros. unfold cupy_empty. benign_steps. Qed.

Lemma _check_args_benign : forall args, preserves benign (_check_args args).
Proof. intro args. unfold _check_args. benign_steps. Qed.

Lemma _decide_params_type_benign : forall ip op idt odt,
  preserves benign (_decide_params_type ip op idt odt).
Proof.
  intros. unfold _decide_params_type.
  apply (preserves_memoize benign benign_refl benign_trans).
  - intro k. benign_steps.
  - intros m w. unfold benign. simpl. repeat split; auto.
Qed.

#[local] Hint Resolve cupy_empty_benign _check_args_benign
  _decide_params_type_benign : benign.

Lemma _get_out_args_benign : forall ia oa ot sh op,
  preserves benign (_get_out_args ia oa ot sh op).
Proof. intros. unfold _get_out_args. benign_steps. Qed.

#[local] Hint Resolve _get_out_args_benign : benign.

Lemma ElementwiseKernel_prepare_benign : forall self args size,
  preserves benign (ElementwiseKernel_prepare self args size).
Proof. intros. unfold ElementwiseKernel_prepare. benign_steps. Qed.

Lemma _guess_routine_benign : forall cc self in_args dtype,
  preserves benign (_guess_routine cc self in_args dtype).
Proof.
  intros. unfold _guess_routine. benign_steps.
  intro w. unfold lookup_or_scan, benign.
  destruct (dict_get _ _ _); simpl; repeat split; auto.
Qed.

#[local] Hint Resolve _guess_routine_benign : benign.

Lemma ufunc_prepare_benign : forall cc self args out dtype,
  preserves benign (ufunc_prepare cc self args out dtype).
Proof. intros. unfold ufunc_prepare. benign_steps. Qed.

Lemma new_ParameterInfo_benign : forall np c str,
  preserves benign (new_ParameterInfo np c str).
Proof. intros. unfold new_ParameterInfo. benign_steps. Qed.

#[local] Hint Resolve new_ParameterInfo_benign : benign.

Lemma _get_param_info_benign : forall np s c,
  preserves benign (_get_param_info np s c).
Proof.
  intros np s c w. unfold _get_param_info, memoize_shared.
  destruct (dict_get _ _ _); [apply benign_refl|].
  assert (Hb : preserves benign (_get_param_info_body np (s, c))).
  { unfold _get_param_info_body. cbv beta iota zeta. benign_steps. }
  specialize (Hb w).
  destruct (_get_param_info_body np (s, c) w) as [[e|r] w1];
    cbn [fst snd] in *; [exact Hb|].
  eapply benign_trans; [exact Hb|].
  unfold benign. simpl. repeat split; auto.
Qed.

#[local] Hint Resolve _get_param_info_benign : benign.

Lemma ElementwiseKernel_init_benign : forall np i o op n rd pre kw,
  preserves benign (ElementwiseKernel_init np i o op n rd pre kw).
Proof. intros. unfold ElementwiseKernel_init. benign_steps. Qed.

Lemma ufunc_init_benign : forall np n nin nout ops pre,
  preserves benign (ufunc_init np n nin nout ops pre).
Proof.
  intros. unfold ufunc_init. benign_steps.
Qed.

Lemma logged_mono : forall w w' d h,
  incl (w_compiled w) (w_compiled w') -> logged w d h -> logged w' d h.
Proof.
  intros w w' d h Hi (ev & Hev & Hh & Hd). exists ev. auto.
Qed.

Lemma benign_cache_grows : forall w w', benign w w' -> cache_grows w w'.
Proof.
  intros w w' (Hs & He & Hu & Hc & Hn). split.
  - intros (I1 & I2 & I3 & I4 & I5).
    assert (Hl : forall d h, logged w d h -> logged w' d h).
    { intros d h. apply logged_mono. rewrite Hc. apply incl_refl. }
    unfold kernel_inv. rewrite Hs, He, Hu, Hc.
    repeat split; eauto.
    intros ev Hev. specialize (I4 ev Hev). lia.
  - intros d k h. now rewrite He.
Qed.

Lemma cache_grows_refl : forall w, cache_grows w w.
Proof. intro w. split; auto. Qed.

Lemma cache_grows_trans : forall w1 w2 w3,
  cache_grows w1 w2 -> cache_grows w2 w3 -> cache_grows w1 w3.
Proof.
  intros w1 w2 w3 [Ha Hb] [Hc Hd]. split; auto.
Qed.

Lemma preserves_benign_cache_grows : forall A (c : M A),
  preserves benign c -> preserves cache_grows c.
Proof. intros A c H w. apply benign_cache_grows, H. Qed.

Lemma kernel_inv_initial : forall d, kernel_inv (initial_world d).
Proof.
  intro d. unfold kernel_inv. simpl. repeat split; try discriminate.
  - intros ev [].
  - constructor.
Qed.

(** A compilation that succeeds hands out an unused identity and records
    it under the current device. *)
Lemma compile_and_get_function_inv : forall nvcc code opts nm w r w',
  compile_and_get_function nvcc code opts nm w = (r, w') ->
  cache_grows w w'
  /\ w_device w' = w_device w
  /\ w_simple_memo w' = w_simple_memo w
  /\ w_elementwise_memo w' = w_elementwise_memo w
  /\ w_ufunc_memo w' = w_ufunc_memo w
  /\ w_synthesized w' = w_synthesized w
  /\ incl (w_compiled w) (w_compiled w')
  /\ (forall h, r = Ok h ->
        w_compiled w' = w_compiled w ++ [mkcompile (w_device w) code nm opts h]).
Proof.
  intros nvcc code opts nm w r w' H. unfold compile_and_get_function in H.
  destruct (nvcc code opts).
  - inversion H; subst; clear H. simpl.
    split; [split|].
    + intros (I1 & I2 & I3 & I4 & I5). unfold kernel_inv. simpl.
      assert (Hl : forall d h, logged w d h ->
                logged (set_compiled
                          (w_compiled w
                           ++ [mkcompile (w_device w) code nm opts (w_next w)])
                          (set_next (S (w_next w)) w)) d h).
      { intros d h. apply logged_mono. simpl. apply incl_appl, incl_refl. }
      split; [eauto|]. split; [eauto|]. split; [eauto|]. split.
      * intros ev Hev. apply in_app_or in Hev. destruct Hev as [Hev|Hev].
        -- specialize (I4 ev Hev). lia.
        -- destruct Hev as [Hev|Hev]; [|contradiction].
           rewrite <- Hev. simpl. lia.
      * rewrite map_app. simpl. apply NoDup_app; auto.
        -- repeat constructor. intros [].
        -- intros h Hh Hh'. destruct Hh' as [Hh'|Hh']; [|contradiction].
           apply in_map_iff in Hh.
           destruct Hh as (ev & Heq & Hev). specialize (I4 ev Hev). lia.
    + simpl. auto.
    + repeat (split; [reflexivity|]). split.
      * apply incl_appl, incl_refl.
      * intros h Hh. inversion Hh; subst. reflexivity.
  - inversion H; subst; clear H.
    split; [apply cache_grows_refl|].
    repeat (split; [reflexivity|]). split; [apply incl_refl|].
    intros h Hh. discriminate.
Qed.

Lemma _get_simple_elementwise_kernel_inv : forall nvcc p o n pre kw w r w',
  _get_simple_elementwise_kernel nvcc p o n pre kw w = (r, w') ->
  cache_grows w w'
  /\ w_device w' = w_device w
  /\ w_elementwise_memo w' = w_elementwise_memo w
  /\ w_ufunc_memo w' = w_ufunc_memo w
  /\ w_synthesized w' = w_synthesized w
  /\ (forall h, r = Ok h -> kernel_inv w' -> logged w' (w_device w) h)
  /\ (forall h,
        r = Ok h ->
        dict_get simple_key_eq_dec (w_simple_memo w (w_device w))
          (mksimple_key p o n pre kw) = None ->
        exists ev, w_compiled w' = w_compiled w ++ [ev]
                   /\ ce_handle ev = h /\ ce_device ev = w_device w).
Proof.
  intros nvcc p o n pre kw w r w' H.
  unfold _get_simple_elementwise_kernel, memoize in H.
  remember (mksimple_key p o n pre kw) as k eqn:Ek.
  destruct (dict_get simple_key_eq_dec (w_simple_memo w (w_device w)) k)
    as [h0|] eqn:Hg.
  - inversion H; subst r w'; clear H.
    split; [apply cache_grows_refl|].
    repeat (split; [reflexivity|]). split.
    + intros h Hh (I1 & _). inversion Hh; subst. eapply I1; eauto.
    + intros h _ Hn. discriminate.
  - unfold _get_simple_elementwise_kernel_body in H.
    destruct (compile_and_get_function nvcc _ _ _ w) as [[e|h1] w1] eqn:Hc;
      apply compile_and_get_function_inv in Hc;
      destruct Hc as (Hgrow & Hdev & Hsm & Hem & Hum & Hsy & Hincl & Hnew);
      inversion H; subst r w'; clear H.
    + split; [exact Hgrow|]. repeat (split; [assumption|]).
      split; intros; discriminate.
    + specialize (Hnew h1 eq_refl).
      assert (Hlog : logged w1 (w_device w) h1).
      { unfold logged. rewrite Hnew. eexists. split.
        - apply in_or_app. right. now left.
        - simpl. auto. }
      split; [split|].
      * intro Hinv. destruct Hgrow as [Hgrow _]. specialize (Hgrow Hinv).
        destruct Hgrow as (I1 & I2 & I3 & I4 & I5).
        unfold kernel_inv. simpl.
        split; [|split; [exact I2|split; [exact I3|split; assumption]]].
        intros d k' h Hk'. rewrite dev_memo_get_set in Hk'.
        destruct (Z.eq_dec d (w_device w)) as [->|];
          [|exact (I1 _ _ _ Hk')].
        destruct (simple_key_eq_dec k' k) as [->|];
          [|exact (I1 _ _ _ Hk')].
        inversion Hk'; subst. exact Hlog.
      * destruct Hgrow as [_ Hgrow]. intros d k' h Hk'. simpl. auto.
      * simpl. repeat (split; [assumption|]). split.
        -- intros h Hh _. inversion Hh; subst. exact Hlog.
        -- intros h Hh _. inversion Hh; subst. eexists. split; [exact Hnew|].
           simpl. auto.
Qed.

Lemma store_elementwise_grows : forall w d k h,
  dict_get elementwise_key_eq_dec (w_elementwise_memo w d) k = None ->
  (kernel_inv w -> logged w d h) ->
  cache_grows w
    (store_elementwise
       (dev_memo_set elementwise_key_eq_dec (w_elementwise_memo w) d k h) w).
Proof.
  intros w d k h Hnone Hlog. split.
  - intros Hinv. specialize (Hlog Hinv).
    destruct Hinv as (I1 & I2 & I3 & I4 & I5).
    unfold kernel_inv. simpl.
    split; [exact I1|split; [|split; [exact I3|split; assumption]]].
    intros d' k' h' Hk'. rewrite dev_memo_get_set in Hk'.
    destruct (Z.eq_dec d' d) as [->|]; [|exact (I2 _ _ _ Hk')].
    destruct (elementwise_key_eq_dec k' k) as [->|]; [|exact (I2 _ _ _ Hk')].
    inversion Hk'; subst. exact Hlog.
  - intros d' k' h' Hk'. simpl. rewrite dev_memo_get_set.
    destruct (Z.eq_dec d' d) as [->|]; auto.
    destruct (elementwise_key_eq_dec k' k) as [->|]; auto. congruence.
Qed.

Lemma store_ufunc_grows : forall w d k h,
  (kernel_inv w -> logged w d h) ->
  cache_grows w
    (store_ufunc (dev_memo_set ufunc_key_eq_dec (w_ufunc_memo w) d k h) w).
Proof.
  intros w d k h Hlog. split.
  - intros Hinv. specialize (Hlog Hinv).
    destruct Hinv as (I1 & I2 & I3 & I4 & I5).
    unfold kernel_inv. simpl.
    split; [exact I1|split; [exact I2|split; [|split; assumption]]].
    intros d' k' h' Hk'. rewrite dev_memo_get_set in Hk'.
    destruct (Z.eq_dec d' d) as [->|]; [|exact (I3 _ _ _ Hk')].
    destruct (ufunc_key_eq_dec k' k) as [->|]; [|exact (I3 _ _ _ Hk')].
    inversion Hk'; subst. exact Hlog.
  - intros d' k' h' Hk'. exact Hk'.
Qed.

Lemma tick_run : forall w,
  tick_synthesized w = (Ok tt, set_synthesized (S (w_synthesized w)) w).
Proof. reflexivity. Qed.

Lemma elementwise_key_eta : forall k,
  mkelementwise_key (ek_args_info k) (ek_types k) (ek_params k)
    (ek_operation k) (ek_name k) (ek_preamble k) (ek_kwargs k) = k.
Proof. intros []. reflexivity. Qed.

Lemma simple_key_eta : forall k,
  mksimple_key (sk_params k) (sk_operation k) (sk_name k) (sk_preamble k)
    (sk_kwargs k) = k.
Proof. intros []. reflexivity. Qed.

(** One call of the memoized [_get_elementwise_kernel]. *)
Lemma get_elementwise_inv : forall nvcc k w r w',
  get_elementwise nvcc k w = (r, w') ->
  cache_grows w w'
  /\ w_device w' = w_device w
  /\ (forall h, r = Ok h ->
        dict_get elementwise_key_eq_dec
          (w_elementwise_memo w' (w_device w)) k = Some h)
  /\ (forall h, r = Ok h -> kernel_inv w' -> logged w' (w_device w) h)
  /\ (forall h,
        dict_get elementwise_key_eq_dec
          (w_elementwise_memo w (w_device w)) k = Some h ->
        r = Ok h /\ w' = w)
  /\ (forall h,
        r = Ok h ->
        dict_get elementwise_key_eq_dec
          (w_elementwise_memo w (w_device w)) k = None ->
        w_synthesized w' = S (w_synthesized w)
        /\ (forall src,
              elementwise_source k = Ok src ->
              dict_get simple_key_eq_dec (w_simple_memo w (w_device w)) src
              = None ->
              exists ev, w_compiled w' = w_compiled w ++ [ev]
                         /\ ce_handle ev = h
                         /\ ce_device ev = w_device w)).
Proof.
  intros nvcc k w r w' H.
  unfold get_elementwise, _get_elementwise_kernel, memoize in H.
  rewrite elementwise_key_eta in H.
  destruct (dict_get elementwise_key_eq_dec
              (w_elementwise_memo w (w_device w)) k) as [h0|] eqn:Hg.
  - inversion H; subst r w'; clear H.
    split; [apply cache_grows_refl|]. split; [reflexivity|].
    split; [intros h Hh; inversion Hh; subst; exact Hg|].
    split; [intros h Hh (_ & I2 & _); inversion Hh; subst; eauto|].
    split; [intros h Hh; inversion Hh; subst; auto|].
    intros h _ Hn. discriminate.
  - unfold _get_elementwise_kernel_body in H.
    rewrite (bind_Ok _ _ _ _ _ _ _ (tick_run w)) in H.
    set (wt := set_synthesized (S (w_synthesized w)) w) in *.
    assert (Ht : benign w wt) by (unfold benign; simpl; repeat split; auto).
    destruct (elementwise_source k) as [e|src] eqn:Hsrc.
    + unfold bind, lift in H. inversion H; subst r w'; clear H.
      split; [now apply benign_cache_grows|]. split; [reflexivity|].
      repeat split; intros; discriminate.
    + erewrite bind_Ok in H by reflexivity.
      destruct (_get_simple_elementwise_kernel nvcc (sk_params src)
                  (sk_operation src) (sk_name src) (sk_preamble src)
                  (sk_kwargs src) wt) as [r1 w1] eqn:Hs.
      apply _get_simple_elementwise_kernel_inv in Hs.
      destruct Hs as (Hgrow & Hdev & Hem & Hum & Hsy & Hlog & Hnew).
      rewrite simple_key_eta in Hnew.
      assert (Hgrow1 : cache_grows w w1).
      { eapply cache_grows_trans; [apply benign_cache_grows, Ht|exact Hgrow]. }
      destruct r1 as [e|h1]; inversion H; subst r w'; clear H.
      * split; [exact Hgrow1|]. split; [exact Hdev|].
        repeat split; intros; discriminate.
      * assert (Hg1 : dict_get elementwise_key_eq_dec
                        (w_elementwise_memo w1 (w_device w)) k = None)
          by (rewrite Hem; exact Hg).
        assert (Hstored :
          dict_get elementwise_key_eq_dec
            (w_elementwise_memo
               (store_elementwise
                  (dev_memo_set elementwise_key_eq_dec
                     (w_elementwise_memo w1) (w_device w) k h1) w1)
               (w_device w)) k = Some h1).
        { simpl. rewrite dev_memo_get_set.
          destruct (Z.eq_dec (w_device w) (w_device w)); [|congruence].
          destruct (elementwise_key_eq_dec k k); congruence. }
        split.
        { eapply cache_grows_trans; [exact Hgrow1|].
          apply store_elementwise_grows; auto. }
        split; [exact Hdev|].
        split; [intros h Hh; inversion Hh; subst; exact Hstored|].
        split; [intros h Hh (_ & I2 & _); inversion Hh; subst;
                exact (I2 _ _ _ Hstored)|].
        split; [intros h Hh; congruence|].
        intros h Hh _. inversion Hh; subst. split.
        -- simpl. rewrite Hsy. reflexivity.
        -- intros src' Hsrc' Hnone. inversion Hsrc'; subst src'.
           simpl. apply (Hnew h eq_refl). exact Hnone.
Qed.

Lemma get_elementwise_grows : forall nvcc k,
  preserves cache_grows (get_elementwise nvcc k).
Proof.
  intros nvcc k w.
  destruct (get_elementwise nvcc k w) as [r w'] eqn:H.
  apply get_elementwise_inv in H. simpl. apply H.
Qed.

Lemma _get_simple_elementwise_kernel_grows : forall nvcc p o n pre kw,
  preserves cache_grows (_get_simple_elementwise_kernel nvcc p o n pre kw).
Proof.
  intros nvcc p o n pre kw w.
  destruct (_get_simple_elementwise_kernel nvcc p o n pre kw w) as [r w']
    eqn:H.
  apply _get_simple_elementwise_kernel_inv in H. simpl. apply H.
Qed.

Lemma get_ufunc_grows : forall nvcc k, preserves cache_grows (get_ufunc nvcc k).
Proof.
  intros nvcc k w. unfold get_ufunc, _get_ufunc_kernel, memoize.
  match goal with
  | |- context [dict_get ufunc_key_eq_dec ?m ?key] =>
      remember key as k' eqn:Ek;
      destruct (dict_get ufunc_key_eq_dec m k') as [h0|] eqn:Hg
  end; [apply cache_grows_refl|].
  unfold _get_ufunc_kernel_body.
  rewrite (bind_Ok _ _ _ _ _ _ _ (tick_run w)).
  set (wt := set_synthesized (S (w_synthesized w)) w) in *.
  assert (Ht : cache_grows w wt).
  { apply benign_cache_grows. unfold benign. simpl. repeat split; auto. }
  unfold bind at 1. unfold lift at 1.
  destruct (_get_kernel_params (uk_params k') (uk_args_info k')) as [e|kp];
    [exact Ht|].
  unfold bind at 1. unfold lift at 1.
  destruct (ufunc_in_lines 0 (uk_in_types k') (uk_args_info k')) as [e|ins];
    [exact Ht|].
  unfold bind at 1. unfold lift at 1.
  destruct (ufunc_out_lines 0 (uk_out_types k') (uk_out_raw_types k'))
    as [e|outs]; [exact Ht|].
  match goal with
  | |- context [_get_simple_elementwise_kernel nvcc ?a ?b ?c ?d ?e wt] =>
      destruct (_get_simple_elementwise_kernel nvcc a b c d e wt)
        as [r1 w1] eqn:Hs
  end.
  apply _get_simple_elementwise_kernel_inv in Hs.
  destruct Hs as (Hgrow & Hdev & Hem & Hum & Hsy & Hlog & Hnew).
  assert (Hgrow1 : cache_grows w w1)
    by (eapply cache_grows_trans; [exact Ht|exact Hgrow]).
  destruct r1 as [e|h1]; [exact Hgrow1|].
  cbn [snd]. eapply cache_grows_trans; [exact Hgrow1|].
  apply store_ufunc_grows.
  intro Hinv. exact (Hlog h1 eq_refl Hinv).
Qed.

Lemma _get_ufunc_kernel_grows : forall nvcc it ot rt ai ort ps n pre,
  preserves cache_grows (_get_ufunc_kernel nvcc it ot rt ai ort ps n pre).
Proof.
  intros. exact (get_ufunc_grows nvcc (mkufunc_key it ot rt ai ort ps n pre)).
Qed.

Lemma _get_elementwise_kernel_grows : forall nvcc ai ty ps op n pre kw,
  preserves cache_grows (_get_elementwise_kernel nvcc ai ty ps op n pre kw).
Proof.
  intros.
  exact (get_elementwise_grows nvcc (mkelementwise_key ai ty ps op n pre kw)).
Qed.

Create HintDb grows.

#[local] Hint Resolve _get_ufunc_kernel_grows _get_elementwise_kernel_grows
  : grows.

Ltac grows_steps :=
  repeat first
    [ solve [auto 1 with grows nocore]
    | solve [apply preserves_benign_cache_grows; auto 1 with benign nocore]
    | apply (preserves_ret cache_grows cache_grows_refl)
    | apply (preserves_raise cache_grows cache_grows_refl)
    | apply (preserves_lift cache_grows cache_grows_refl)
    | apply (preserves_bind cache_grows cache_grows_trans); [ | intro ]
    | apply preserves_if ].

Lemma ElementwiseKernel_call_grows : forall nvcc self args size,
  preserves cache_grows (ElementwiseKernel_call nvcc self args size).
Proof.
  intros. unfold ElementwiseKernel_call.
  apply (preserves_bind cache_grows cache_grows_trans).
  - apply preserves_benign_cache_grows, ElementwiseKernel_prepare_benign.
  - intro pr. apply preserves_if; [grows_steps|].
    unfold ElementwiseKernel_dispatch. grows_steps.
Qed.

Lemma ufunc_call_grows : forall cc nvcc self args out dtype,
  preserves cache_grows (ufunc_call cc nvcc self args out dtype).
Proof.
  intros. unfold ufunc_call.
  apply (preserves_bind cache_grows cache_grows_trans).
  - apply preserves_benign_cache_grows, ufunc_prepare_benign.
  - intro pr. apply preserves_if; [grows_steps|].
    unfold ufunc_dispatch. grows_steps.
Qed.

Lemma run_action_grows : forall np cc nvcc a w,
  cache_grows w (run_action np cc nvcc a w).
Proof.
  intros np cc nvcc a w. destruct a; simpl.
  - apply benign_cache_grows. unfold benign, Device_use. simpl.
    repeat split; auto.
  - apply _get_simple_elementwise_kernel_grows.
  - apply get_elementwise_grows.
  - apply get_ufunc_grows.
  - apply preserves_benign_cache_grows, ElementwiseKernel_init_benign.
  - apply ElementwiseKernel_call_grows.
  - apply preserves_benign_cache_grows, ufunc_init_benign.
  - apply ufunc_call_grows.
Qed.

Lemma run_grows : forall np cc nvcc acts w,
  cache_grows w (run np cc nvcc acts w).
Proof.
  intros np cc nvcc. unfold run.
  induction acts as [|a acts IH]; intro w; simpl.
  - apply cache_grows_refl.
  - eapply cache_grows_trans; [apply run_action_grows|apply IH].
Qed.

Lemma run_kernel_inv : forall np cc nvcc acts d,
  kernel_inv (run np cc nvcc acts (initial_world d)).
Proof.
  intros. apply (proj1 (run_grows np cc nvcc acts (initial_world d))).
  apply kernel_inv_initial.
Qed.

Lemma logged_device_unique : forall w d1 d2 h,
  kernel_inv w -> logged w d1 h -> logged w d2 h -> d1 = d2.
Proof.
  intros w d1 d2 h (_ & _ & _ & _ & Hnd)
    (ev1 & Hin1 & Hh1 & Hd1) (ev2 & Hin2 & Hh2 & Hd2).
  assert (ev1 = ev2); [|congruence].
  revert Hnd Hin1 Hin2. generalize (w_compiled w).
  induction l as [|ev l IH]; simpl; intros Hnd Hin1 Hin2; [contradiction|].
  inversion Hnd as [|? ? Hnot Hnd']; subst.
  destruct Hin1 as [<-|Hin1], Hin2 as [<-|Hin2]; auto.
  - exfalso. apply Hnot. apply in_map_iff. exists ev2. split; congruence.
  - exfalso. apply Hnot. apply in_map_iff. exists ev1. split; congruence.
Qed.

(** C1.  Take any run of the interpreter from its start, then a call of
    the memoized [_get_elementwise_kernel] that returns a handle, then
    any further run, then a second call with an equal signature.
    - If the device current at the second call is the one of the first,
      the second call returns the same handle and leaves the interpreter
      exactly as it found it: nothing is assembled or compiled again.  If
      moreover the first call found neither its signature nor its kernel
      source cached on that device, it assembled one source and ran one
      native compilation, whose function object is the handle: once
      across both calls.
    - If another device is current at the second call, the handle it
      returns is a different object. *)
Theorem compilation_cache_per_device :
  forall (np : string -> option Dtype) (cc : Dtype -> Dtype -> bool)
         (nvcc : string -> list string -> bool)
         d0 pre mid k h1 w2,
    let w1 := run np cc nvcc pre (initial_world d0) in
    get_elementwise nvcc k w1 = (Ok h1, w2) ->
    let w3 := run np cc nvcc mid w2 in
    (w_device w3 = w_device w1 ->
     get_elementwise nvcc k w3 = (Ok h1, w3)
     /\ (dict_get elementwise_key_eq_dec
           (w_elementwise_memo w1 (w_device w1)) k = None ->
         w_synthesized w2 = S (w_synthesized w1)
         /\ (forall src,
               elementwise_source k = Ok src ->
               dict_get simple_key_eq_dec (w_simple_memo w1 (w_device w1)) src
               = None ->
               exists ev, w_compiled w2 = w_compiled w1 ++ [ev]
                          /\ ce_handle ev = h1
                          /\ ce_device ev = w_device w1)))
    /\
    (w_device w3 <> w_device w1 ->
     forall h2 w4, get_elementwise nvcc k w3 = (Ok h2, w4) -> h2 <> h1).
Proof.
  intros np cc nvcc d0 pre mid k h1 w2 w1 H1 w3.
  pose proof (get_elementwise_inv nvcc k w1 (Ok h1) w2 H1)
    as (Hg12 & Hdev12 & Hstored & _ & _ & Hmiss).
  specialize (Hstored h1 eq_refl).
  pose proof (run_grows np cc nvcc mid w2) as Hg23. fold w3 in Hg23.
  pose proof (proj2 Hg23 _ _ _ Hstored) as Hstored3.
  split.
  - intro Hsame. split.
    + destruct (get_elementwise nvcc k w3) as [r w4] eqn:H2.
      apply get_elementwise_inv in H2.
      destruct H2 as (_ & _ & _ & _ & Hhit & _).
      rewrite Hsame in Hhit. destruct (Hhit h1 Hstored3) as [-> ->].
      reflexivity.
    + intro Hnone. exact (Hmiss h1 eq_refl Hnone).
  - intros Hdiff h2 w4 H2 Heq. subst h2.
    apply get_elementwise_inv in H2.
    destruct H2 as (Hg34 & _ & Hstored4 & Hlog4 & _).
    assert (Hinv4 : kernel_inv w4).
    { apply (proj1 Hg34), (proj1 Hg23), (proj1 Hg12).
      apply run_kernel_inv. }
    pose proof (Hlog4 h1 eq_refl Hinv4) as Hl2.
    pose proof (proj2 Hg34 _ _ _ Hstored3) as Hs1.
    destruct Hinv4 as (I1 & I2 & I3 & I4 & I5).
    pose proof (I2 _ _ _ Hs1) as Hl1.
    apply Hdiff.
    eapply logged_device_unique; [|exact Hl2|exact Hl1].
    repeat split; assumption.
Qed.

(** ** Soundness of the type-resolution memo along runs *)

Lemma keeps_decide_memo_refl : forall w, keeps_decide_memo w w.
Proof. intros w H. exact H. Qed.

Lemma keeps_decide_memo_trans : forall w1 w2 w3,
  keeps_decide_memo w1 w2 -> keeps_decide_memo w2 w3 ->
  keeps_decide_memo w1 w3.
Proof. intros w1 w2 w3 H1 H2 H. auto. Qed.

Lemma same_decide_memo_keeps : forall w w',
  w_decide_memo w' = w_decide_memo w -> keeps_decide_memo w w'.
Proof. intros w w' E H d k r. rewrite E. apply H. Qed.

Lemma fresh_keeps : preserves keeps_decide_memo fresh.
Proof. intro w. now apply same_decide_memo_keeps. Qed.

Lemma tick_keeps : preserves keeps_decide_memo tick_synthesized.
Proof. intro w. now apply same_decide_memo_keeps. Qed.

Lemma linear_launch_keeps : forall kern size args,
  preserves keeps_decide_memo (linear_launch kern size args).
Proof. intros kern size args w. now apply same_decide_memo_keeps. Qed.

Lemma compile_keeps : forall nvcc code opts nm,
  preserves keeps_decide_memo (compile_and_get_function nvcc code opts nm).
Proof.
  intros nvcc code opts nm w. unfold compile_and_get_function.
  destruct (nvcc code opts); now apply same_decide_memo_keeps.
Qed.

Lemma _decide_params_type_keeps : forall ip op idt odt,
  preserves keeps_decide_memo (_decide_params_type ip op idt odt).
Proof.
  intros ip op idt odt w H. now apply _decide_params_type_memo.
Qed.

Lemma lookup_or_scan_keeps : forall cc self key,
  preserves keeps_decide_memo (lookup_or_scan cc self key).
Proof.
  intros cc self key w. unfold lookup_or_scan.
  destruct (dict_get _ _ _); now apply same_decide_memo_keeps.
Qed.

Create HintDb keeps.

#[local] Hint Resolve fresh_keeps tick_keeps linear_launch_keeps compile_keeps
  _decide_params_type_keeps lookup_or_scan_keeps : keeps.

Ltac keeps_steps :=
  repeat first
    [ solve [auto 1 with keeps nocore]
    | apply (preserves_ret keeps_decide_memo keeps_decide_memo_refl)
    | apply (preserves_raise keeps_decide_memo keeps_decide_memo_refl)
    | apply (preserves_lift keeps_decide_memo keeps_decide_memo_refl)
    | apply (preserves_current_device keeps_decide_memo
               keeps_decide_memo_refl)
    | apply (preserves_mapM keeps_decide_memo keeps_decide_memo_refl
               keeps_decide_memo_trans); intro
    | apply (preserves_memoize keeps_decide_memo keeps_decide_memo_refl
               keeps_decide_memo_trans);
      [ intro | intros; now apply same_decide_memo_keeps ]
    | apply (preserves_bind keeps_decide_memo keeps_decide_memo_trans);
      [ | intro ]
    | apply preserves_if
    | match goal with
      | |- preserves _ (match ?x with _ => _ end) => destruct x
      end ].

Lemma _get_simple_elementwise_kernel_keeps : forall nvcc p o n pre kw,
  preserves keeps_decide_memo
    (_get_simple_elementwise_kernel nvcc p o n pre kw).
Proof.
  intros. unfold _get_simple_elementwise_kernel.
  apply (preserves_memoize keeps_decide_memo keeps_decide_memo_refl
           keeps_decide_memo_trans).
  - intro k. unfold _get_simple_elementwise_kernel_body. keeps_steps.
  - intros. now apply same_decide_memo_keeps.
Qed.

#[local] Hint Resolve _get_simple_elementwise_kernel_keeps : keeps.

Lemma _get_elementwise_kernel_keeps : forall nvcc ai ty ps op n pre kw,
  preserves keeps_decide_memo
    (_get_elementwise_kernel nvcc ai ty ps op n pre kw).
Proof.
  intros. unfold _get_elementwise_kernel.
  apply (preserves_memoize keeps_decide_memo keeps_decide_memo_refl
           keeps_decide_memo_trans).
  - intro k. unfold _get_elementwise_kernel_body. keeps_steps.
  - intros. now apply same_decide_memo_keeps.
Qed.

Lemma _get_ufunc_kernel_keeps : forall nvcc it ot rt ai ort ps n pre,
  preserves keeps_decide_memo
    (_get_ufunc_kernel nvcc it ot rt ai ort ps n pre).
Proof.
  intros. unfold _get_ufunc_kernel.
  apply (preserves_memoize keeps_decide_memo keeps_decide_memo_refl
           keeps_decide_memo_trans).
  - intro k. unfold _get_ufunc_kernel_body. keeps_steps.
  - intros. now apply same_decide_memo_keeps.
Qed.

Lemma _get_param_info_keeps : forall np s c,
  preserves keeps_decide_memo (_get_param_info np s c).
Proof.
  intros np s c w. unfold _get_param_info, memoize_shared.
  destruct (dict_get _ _ _); [apply keeps_decide_memo_refl|].
  assert (Hb : preserves keeps_decide_memo (_get_param_info_body np (s, c))).
  { unfold _get_param_info_body. cbv beta iota zeta.
    unfold new_ParameterInfo. keeps_steps. }
  specialize (Hb w).
  destruct (_get_param_info_body np (s, c) w) as [[e|r] w1];
    cbn [fst snd] in *; [exact Hb|].
  eapply keeps_decide_memo_trans; [exact Hb|].
  now apply same_decide_memo_keeps.
Qed.

#[local] Hint Resolve _get_elementwise_kernel_keeps _get_ufunc_kernel_keeps
  _get_param_info_keeps : keeps.

Lemma ElementwiseKernel_init_keeps : forall np i o op n rd pre kw,
  preserves keeps_decide_memo (ElementwiseKernel_init np i o op n rd pre kw).
Proof. intros. unfold ElementwiseKernel_init. keeps_steps. Qed.

Lemma ElementwiseKernel_call_keeps : forall nvcc self args size,
  preserves keeps_decide_memo (ElementwiseKernel_call nvcc self args size).
Proof.
  intros.
  unfold ElementwiseKernel_call, ElementwiseKernel_prepare,
    ElementwiseKernel_dispatch, _check_args, _get_out_args, cupy_empty.
  keeps_steps.
Qed.

Lemma ufunc_init_keeps : forall np n nin nout ops pre,
  preserves keeps_decide_memo (ufunc_init np n nin nout ops pre).
Proof. intros. unfold ufunc_init, new_ParameterInfo. keeps_steps. Qed.

Lemma ufunc_call_keeps : forall cc nvcc self args out dtype,
  preserves keeps_decide_memo (ufunc_call cc nvcc self args out dtype).
Proof.
  intros.
  unfold ufunc_call, ufunc_prepare, ufunc_dispatch, _check_args,
    _get_out_args, cupy_empty, _guess_routine.
  keeps_steps.
Qed.

Lemma run_action_keeps : forall np cc nvcc a w,
  keeps_decide_memo w (run_action np cc nvcc a w).
Proof.
  intros np cc nvcc a w.
  destruct a as [d|k|k|k|i o op n rd pre kw|self args size
                |n nin nout ops pre|self args out dtype]; simpl.
  - now apply same_decide_memo_keeps.
  - apply _get_simple_elementwise_kernel_keeps.
  - apply _get_elementwise_kernel_keeps.
  - apply _get_ufunc_kernel_keeps.
  - apply ElementwiseKernel_init_keeps.
  - apply ElementwiseKernel_call_keeps.
  - apply ufunc_init_keeps.
  - apply ufunc_call_keeps.
Qed.

(** In every state a run reaches, the memo of [_decide_params_type] is
    sound. *)
Lemma run_decide_memo_sound : forall np cc nvcc acts d,
  decide_memo_sound (run np cc nvcc acts (initial_world d)).
Proof.
  intros np cc nvcc acts d.
  assert (H : forall w, keeps_decide_memo w (run np cc nvcc acts w)).
  { unfold run. induction acts as [|a acts IH]; intro w; simpl.
    - apply keeps_decide_memo_refl.
    - eapply keeps_decide_memo_trans; [apply run_action_keeps|apply IH]. }
  apply H, initial_decide_memo_sound.
Qed.

(** ** What a call returns *)

Lemma mapM_length : forall A B (f : A -> M B) l w r w',
  mapM f l w = (Ok r, w') -> List.length r = List.length l.
Proof.
  induction l as [|x l IH]; intros w r w' H; simpl in H.
  - apply ret_inv in H. destruct H as [-> _]. reflexivity.
  - apply bind_inv_Ok in H. destruct H as (y & w1 & _ & H).
    apply bind_inv_Ok in H. destruct H as (ys & w2 & Hys & H).
    apply ret_inv in H. destruct H as [-> _]. simpl. f_equal. eauto.
Qed.

Lemma mapR_length : forall A B (f : A -> Result B) l r,
  mapR f l = Ok r -> List.length r = List.length l.
Proof.
  induction l as [|x0 l IH]; intros r H; simpl in H.
  - inversion H. reflexivity.
  - apply rbind_inv_Ok in H. destruct H as (y0 & Hy0 & H).
    apply rbind_inv_Ok in H. destruct H as (ys & Hys & H).
    inversion H; subst. simpl. f_equal. auto.
Qed.

Lemma _decide_params_type_body_out_length : forall k it ot ty,
  _decide_params_type_body k = Ok (it, ot, ty) ->
  List.length ot = List.length (dk_out_params k).
Proof.
  intros k it ot ty H. unfold _decide_params_type_body in H.
  apply rbind_inv_Ok in H. destruct H as (td & _ & H).
  destruct (negb _); [discriminate|].
  apply rbind_inv_Ok in H. destruct H as (tu & _ & H).
  apply rbind_inv_Ok in H. destruct H as (it' & _ & H).
  apply rbind_inv_Ok in H. destruct H as (ot' & Hot & H).
  inversion H; subst. eapply mapR_length; eauto.
Qed.

Lemma _broadcast_value_length : forall args params size_error brod value,
  _broadcast args params size_error = Ok (brod, value) ->
  List.length args <= List.length params ->
  List.length value = List.length args.
Proof.
  intros args params size_error brod value H Hlen. unfold _broadcast in H.
  apply rbind_inv_Ok in H. destruct H as (b & Hb & H).
  destruct (size_error && forallb is_None (b_values b)); [discriminate|].
  inversion H; subst; clear H.
  unfold cupy_broadcast in Hb. apply rbind_inv_Ok in Hb.
  destruct Hb as (r & _ & Hb). inversion Hb; subst; clear Hb. simpl.
  rewrite length_map, length_combine, !length_map, length_combine. lia.
Qed.

Lemma _get_out_args_length : forall ia oa ot sh op w r w',
  _get_out_args ia oa ot sh op w = (Ok r, w') ->
  (oa = [] /\ List.length r = List.length ot) \/ (oa <> [] /\ r = oa).
Proof.
  intros ia oa ot sh op w r w' H. unfold _get_out_args in H.
  destruct oa as [|a oa]; simpl in H.
  - left. split; auto.
    destruct (match op with Some ps => existsb p_raw ps | None => false end);
      [discriminate|].
    eapply mapM_length; eauto.
  - right. split; [discriminate|].
    apply bind_inv_Ok in H. destruct H as (? & w1 & _ & H).
    apply ret_inv in H. now destruct H.
Qed.

Lemma ElementwiseKernel_dispatch_ret : forall nvcc self pr w r w',
  ElementwiseKernel_dispatch nvcc self pr w = (Ok r, w') -> r = pr_ret pr.
Proof.
  intros nvcc self pr w r w' H. unfold ElementwiseKernel_dispatch in H.
  apply bind_inv_Ok in H. destruct H as (? & w1 & _ & H).
  apply bind_inv_Ok in H. destruct H as (? & w2 & _ & H).
  apply bind_inv_Ok in H. destruct H as (? & w3 & _ & H).
  apply bind_inv_Ok in H. destruct H as (? & w4 & _ & H).
  apply ret_inv in H. now destruct H.
Qed.

(** Every operation object that [__init__] returns is well formed. *)
Lemma ElementwiseKernel_init_well_formed :
  forall numpy_dtype ip op operation name rd preamble kwargs w self w',
    ElementwiseKernel_init numpy_dtype ip op operation name rd preamble
      kwargs w = (Ok self, w') ->
    well_formed_kernel self.
Proof.
  intros numpy_dtype ip op operation name rd preamble kwargs w self w' H.
  unfold ElementwiseKernel_init in H.
  apply bind_inv_Ok in H. destruct H as (si & w1 & _ & H).
  apply bind_inv_Ok in H. destruct H as (so & w2 & _ & H).
  apply bind_inv_Ok in H. destruct H as (pr & w3 & _ & H).
  destruct (existsb _ _); [discriminate|].
  apply ret_inv in H. destruct H as [-> _].
  unfold well_formed_kernel. simpl. rewrite !length_app. lia.
Qed.

(** The part of C10 the code keeps: a call of a well-formed
    [ElementwiseKernel] that returns, returns its one output array when it
    declares one output, and otherwise the tuple of its [nout] outputs. *)
Lemma ElementwiseKernel_call_returns_declared_outputs :
  forall nvcc self args size w r w',
    well_formed_kernel self ->
    decide_memo_sound w ->
    ElementwiseKernel_call nvcc self args size w = (Ok r, w') ->
    exists out_args,
      List.length out_args = nout self /\ r = make_ret out_args.
Proof.
  intros nvcc self args size w r w' (Hnin & Hnout & Hpar) Hsound H.
  unfold ElementwiseKernel_call in H.
  apply bind_inv_Ok in H. destruct H as (pr & w1 & Hp & H).
  assert (Hr : r = pr_ret pr).
  { destruct (b_size (pr_brod pr) =? 0)%Z.
    - apply ret_inv in H. now destruct H.
    - eapply ElementwiseKernel_dispatch_ret; eauto. }
  subst r. clear H.
  unfold ElementwiseKernel_prepare in Hp.
  destruct (negb _) eqn:Hn; [discriminate|].
  apply negb_false_iff, orb_true_iff in Hn.
  apply bind_inv_Ok in Hp. destruct Hp as (? & wa & Ha & Hp).
  apply lift_inv_Ok in Ha. destruct Ha as [_ ->].
  apply bind_inv_Ok in Hp. destruct Hp as (? & wb & Hb & Hp).
  rewrite _check_args_run in Hb. inversion Hb; subst wb; clear Hb.
  apply bind_inv_Ok in Hp. destruct Hp as ([brod value] & wc & Hc & Hp).
  apply lift_inv_Ok in Hc. destruct Hc as [Hc ->].
  apply bind_inv_Ok in Hp. destruct Hp as ([[it ot] ty] & wd & Hd & Hp).
  apply bind_inv_Ok in Hp. destruct Hp as (out_args & we & He & Hp).
  apply ret_inv in Hp. destruct Hp as [-> _]. simpl.
  exists out_args. split; [|reflexivity].
  assert (Hargs : List.length args <= List.length (params self))
    by (destruct Hn as [Hn|Hn]; apply Nat.eqb_eq in Hn; lia).
  pose proof (_broadcast_value_length _ _ _ _ _ Hc Hargs) as Hv.
  simpl in He, Hd.
  destruct (_decide_params_type_memo (in_params self) (out_params self)
              (_get_ndarray_dtype (firstn (nin self) value))
              (_get_ndarray_dtype (skipn (nin self) value)) w Hsound)
    as [Hbody _].
  rewrite Hd in Hbody. simpl in Hbody. symmetry in Hbody.
  apply _decide_params_type_body_out_length in Hbody. simpl in Hbody.
  apply _get_out_args_length in He.
  destruct He as [[Hempty Hl]|[Hne ->]].
  - rewrite Hl. simpl. lia.
  - rewrite length_skipn, Hv.
    destruct Hn as [Hn|Hn]; apply Nat.eqb_eq in Hn.
    + exfalso. apply Hne. apply length_zero_iff_nil.
      rewrite length_skipn, Hv. lia.
    + lia.
Qed.

Lemma routine_scan_In : forall cc self key op,
  routine_scan cc self key = Some op -> In op (_ops self).
Proof.
  intros cc self key op. unfold routine_scan.
  destruct key as [tys|d]; induction (_ops self) as [|o ops IH]; simpl;
    try discriminate.
  - destruct (forallb _ _); [intro H; inversion H; auto | auto].
  - destruct (forallb _ _); [intro H; inversion H; auto | auto].
Qed.

Lemma _guess_routine_In : forall cc self in_args dtype w op w',
  routine_table_sound cc self w ->
  _guess_routine cc self in_args dtype w = (Ok op, w') ->
  In op (_ops self).
Proof.
  intros cc self in_args dtype w op w' Hs H.
  pose proof H as H0. unfold _guess_routine in H0.
  apply bind_inv_Ok in H0. destruct H0 as (key & w1 & Hk & _).
  apply lift_inv_Ok in Hk. destruct Hk as [Hk _].
  destruct (_guess_routine_run cc self in_args dtype key w Hs Hk) as [Hr _].
  rewrite H in Hr. simpl in Hr.
  destruct (routine_scan cc self key) as [op'|] eqn:Hsc; [|discriminate].
  inversion Hr; subst. eapply routine_scan_In; eauto.
Qed.

Lemma ufunc_dispatch_ret : forall nvcc self pr w r w',
  ufunc_dispatch nvcc self pr w = (Ok r, w') -> r = pr_ret pr.
Proof.
  intros nvcc self pr w r w' H. unfold ufunc_dispatch in H.
  apply bind_inv_Ok in H. destruct H as (? & w1 & _ & H).
  apply bind_inv_Ok in H. destruct H as (? & w2 & _ & H).
  apply bind_inv_Ok in H. destruct H as (? & w3 & _ & H).
  apply bind_inv_Ok in H. destruct H as (? & w4 & _ & H).
  apply bind_inv_Ok in H. destruct H as (? & w5 & _ & H).
  apply ret_inv in H. now destruct H.
Qed.

(** The part of C10 the code keeps for universal functions: without the
    [out] keyword, a call of a well-formed [ufunc] that returns, returns
    [make_ret] of [nout] output arrays. *)
Lemma ufunc_call_returns_declared_outputs :
  forall cc nvcc self args dtype w r w',
    well_formed_ufunc self ->
    routine_table_sound cc self w ->
    ufunc_call cc nvcc self args None dtype w = (Ok r, w') ->
    exists out_args,
      List.length out_args = u_nout self /\ r = make_ret out_args.
Proof.
  intros cc nvcc self args dtype w r w' (Hnargs & Hops) Hsound H.
  unfold ufunc_call in H.
  apply bind_inv_Ok in H. destruct H as (pr & w1 & Hp & H).
  assert (Hr : r = pr_ret pr).
  { destruct (zero_in (b_shape (pr_brod pr))).
    - apply ret_inv in H. now destruct H.
    - eapply ufunc_dispatch_ret; eauto. }
  subst r. clear H.
  unfold ufunc_prepare in Hp.
  destruct (negb _) eqn:Hn; [discriminate|].
  apply negb_false_iff, orb_true_iff in Hn.
  apply bind_inv_Ok in Hp. destruct Hp as (brod & wa & Ha & Hp).
  apply lift_inv_Ok in Ha. destruct Ha as [_ ->].
  apply bind_inv_Ok in Hp. destruct Hp as (oa & wb & Hb & Hp).
  apply ret_inv in Hb. destruct Hb as [-> ->].
  apply bind_inv_Ok in Hp. destruct Hp as (? & wc & Hc & Hp).
  rewrite _check_args_run in Hc. inversion Hc; subst wc; clear Hc.
  apply bind_inv_Ok in Hp. destruct Hp as (op & wd & Hd & Hp).
  apply bind_inv_Ok in Hp. destruct Hp as (out_args & we & He & Hp).
  apply ret_inv in Hp. destruct Hp as [-> _]. simpl.
  exists out_args. split; [|reflexivity].
  apply (_guess_routine_In _ _ _ _ _ _ _ Hsound) in Hd.
  apply Hops in Hd.
  apply _get_out_args_length in He.
  destruct He as [[Hempty Hl]|[Hne ->]].
  - rewrite Hl. exact Hd.
  - rewrite length_skipn.
    destruct Hn as [Hn|Hn]; apply Nat.eqb_eq in Hn.
    + exfalso. apply Hne. apply length_zero_iff_nil.
      rewrite length_skipn. lia.
    + lia.
Qed.

(** ** The model on concrete inputs *)

Example copy_kernel_is_constructed :
  fst (ElementwiseKernel_init numpy_dtype_excerpt "T x" "T y" "y = x" "copy"
         true "" no_kwargs (initial_world 0)) = Ok copy_kernel.
Proof. vm_compute. reflexivity. Qed.

Example pair_ufunc_is_well_formed : well_formed_ufunc pair_ufunc.
Proof.
  split; [reflexivity|].
  intros op [<-|[]]. reflexivity.
Qed.

Example pair_ufunc_is_constructed :
  fst (create_ufunc numpy_dtype_excerpt "pair" [("i->ii", None)]
         "out0 = in0; out1 = in0" "" (initial_world 0)) = Ok pair_ufunc.
Proof. vm_compute. reflexivity. Qed.

Example copy_ufunc_has_one_output :
  match fst (create_ufunc numpy_dtype_excerpt "cupy_copy"
               [("?->?", None); ("b->b", None); ("B->B", None);
                ("h->h", None); ("H->H", None); ("i->i", None);
                ("I->I", None); ("l->l", None); ("L->L", None);
                ("q->q", None); ("Q->Q", None); ("e->e", None);
                ("f->f", None); ("d->d", None)]
               "out0 = in0" "" (initial_world 0)) with
  | inr u => u_nin u = 1 /\ u_nout u = 1 /\ List.length (_ops u) = 14
  | inl _ => False
  end.
Proof. vm_compute. repeat split. Qed.

Example broadcast_3_1_with_1_4 :
  match cupy_broadcast [float32_array 1 0 [3; 1]%Z; float32_array 2 0 [1; 4]%Z]
  with
  | inr b => b_shape b = [3; 4]%Z
  | inl _ => False
  end.
Proof. vm_compute. reflexivity. Qed.

Example broadcast_2_3_with_4_fails :
  is_raise
    (cupy_broadcast [float32_array 1 0 [2; 3]%Z; float32_array 2 0 [4]%Z]).
Proof. vm_compute. exact I. Qed.

Example copy_of_1000_launches_once :
  let r := ElementwiseKernel_call nvcc_accepts_all copy_kernel
             [float32_array 100 0 [1000]%Z] None world_after_copy_kernel in
  List.length (w_compiled (snd r)) = 1
  /\ map le_size (w_launched (snd r)) = [1000%Z].
Proof. vm_compute. split; reflexivity. Qed.

(** C10, at the failing input.  [pair_ufunc] declares two outputs; called
    on an empty [int32] array with [out=] another empty array, the call
    succeeds and returns that one array, not a tuple of two. *)
Theorem out_keyword_returns_one_array_for_two_outputs :
  u_nout pair_ufunc = 2
  /\ fst (ufunc_call numpy_can_cast nvcc_accepts_all pair_ufunc
            [int32_array 100 0 [0]%Z] (Some (int32_array 101 0 [0]%Z)) None
            world_after_pair_ufunc)
     = Ok (Ret_one (int32_array 101 0 [0]%Z)).
Proof. vm_compute. split; reflexivity. Qed.

(** The same call on arrays that are not empty does not return at all. *)
Example out_keyword_on_two_outputs_raises_when_not_empty :
  fst (ufunc_call numpy_can_cast nvcc_accepts_all pair_ufunc
         [int32_array 100 0 [5]%Z] (Some (int32_array 101 0 [5]%Z)) None
         world_after_pair_ufunc)
  = Raise (IndexError "index out of range").
Proof. vm_compute. reflexivity. Qed.

(** ** Instances of the theorems *)

Lemma compilation_cache_per_device_witness :
  exists h1 w2,
    get_elementwise nvcc_accepts_all copy_signature (initial_world 0)
    = (Ok h1, w2)
    /\ (let w3 := run numpy_dtype_excerpt numpy_can_cast nvcc_accepts_all
                    [A_use 1; A_get_elementwise copy_signature; A_use 0] w2 in
        get_elementwise nvcc_accepts_all copy_signature w3 = (Ok h1, w3))
    /\ w_synthesized w2 = 1
    /\ (let w3 := run numpy_dtype_excerpt numpy_can_cast nvcc_accepts_all
                    [A_use 1] w2 in
        forall h2 w4,
          get_elementwise nvcc_accepts_all copy_signature w3 = (Ok h2, w4) ->
          h2 <> h1).
Proof.
  eexists. eexists. split; [vm_compute; reflexivity|].
  split; [|split].
  - refine (proj1 (proj1 (compilation_cache_per_device numpy_dtype_excerpt
              numpy_can_cast nvcc_accepts_all 0 []
              [A_use 1; A_get_elementwise copy_signature; A_use 0]
              copy_signature _ _ _) _)).
    + vm_compute. reflexivity.
    + vm_compute. reflexivity.
  - refine (proj1 (proj2 (proj1 (compilation_cache_per_device
              numpy_dtype_excerpt numpy_can_cast nvcc_accepts_all 0 []
              [A_use 1; A_get_elementwise copy_signature; A_use 0]
              copy_signature _ _ _) _) _)).
    + vm_compute. reflexivity.
    + vm_compute. reflexivity.
    + vm_compute. reflexivity.
  - refine (proj2 (compilation_cache_per_device numpy_dtype_excerpt
              numpy_can_cast nvcc_accepts_all 0 [] [A_use 1]
              copy_signature _ _ _) _).
    + vm_compute. reflexivity.
    + vm_compute. discriminate.
Defined.

Lemma routine_selection_first_match_witness :
  fst (_guess_routine numpy_can_cast add_ufunc
         [V_scalar (T_numpy_scalar int32) 1; V_scalar (T_numpy_scalar float64) 2]
         None (initial_world 0))
  = Ok add_float_op
  /\ fst (_guess_routine numpy_can_cast add_ufunc [] (Some float64)
            (initial_world 0))
     = Ok add_float_op
  /\ fst (_guess_routine numpy_can_cast add_ufunc [] (Some bool_)
            (initial_world 0))
     = Raise (TypeError "Wrong type of arguments for add").
Proof.
  assert (Hs : routine_table_sound numpy_can_cast add_ufunc (initial_world 0)).
  { intros key op H. simpl in H. discriminate. }
  split; [|split].
  - refine (proj1 (proj1 (routine_selection_first_match numpy_can_cast
              add_ufunc
              [V_scalar (T_numpy_scalar int32) 1;
               V_scalar (T_numpy_scalar float64) 2]
              (initial_world 0) Hs) [int32; float64] eq_refl)
              add_float_op _).
    exists [add_int_op], []. split; [reflexivity|]. split.
    + intros j t0 t1 H0 H1.
      destruct j as [|[|j]]; simpl in H0, H1;
        inversion H0; inversion H1; subst; try reflexivity.
      destruct j; discriminate.
    + intros o Ho Hc. destruct Ho as [<-|[]].
      specialize (Hc 1 float64 int32 eq_refl eq_refl).
      vm_compute in Hc. discriminate.
  - refine (proj1 (proj2 (routine_selection_first_match numpy_can_cast
              add_ufunc [] (initial_world 0) Hs) float64) add_float_op _).
    exists [add_int_op], []. split; [reflexivity|]. split.
    + intros t Ht. destruct Ht as [<-|[]]. reflexivity.
    + intros o Ho Hc. destruct Ho as [<-|[]].
      specialize (Hc int32 (or_introl eq_refl)). discriminate.
  - refine (proj2 (proj2 (routine_selection_first_match numpy_can_cast
              add_ufunc [] (initial_world 0) Hs) bool_) _).
    intros o Ho Hc. destruct Ho as [<-|[<-|[]]].
    + specialize (Hc int32 (or_introl eq_refl)). discriminate.
    + specialize (Hc float64 (or_introl eq_refl)). discriminate.
Defined.


Lemma reduce_dims_merges_contiguous_axes_witness :
  let args := [float32_array 100 0 [2; 3]%Z; float32_array 101 0 [2; 3]%Z] in
  let params := [param_x; param_y; param_ind] in
  let ix := mkIndexer [2; 3]%Z in
  exists m r,
    merged_shape args params (ix_shape ix) = Ok m
    /\ List.length m = Indexer_ndim ix
    /\ (forall j, j < Indexer_ndim ix ->
          nth j m 1%Z
          = if (S j <? Indexer_ndim ix)%nat
               && axes_contiguous args params (ix_shape ix) (S j)
            then 1%Z
            else run_extent (axes_contiguous args params (ix_shape ix))
                   (ix_shape ix) j)
    /\ _reduce_dims args params ix = Ok r
    /\ ix_shape (snd r) = filter (fun dim => negb (dim =? 1)%Z) m
    /\ prod (ix_shape (snd r)) = prod (ix_shape ix).
Proof.
  intros args params ix.
  refine (proj2 (proj2 (reduce_dims_merges_contiguous_axes args params ix))
            _ _ _).
  - intros arr Harr. vm_compute in Harr.
    destruct Harr as [<-|[<-|[]]]; reflexivity.
  - vm_compute. lia.
  - vm_compute. lia.
Defined.


Lemma undecided_loop_size_witness :
  ElementwiseKernel_call nvcc_accepts_all copy_kernel [V_scalar T_float 1]
    None world_after_copy_kernel
  = (Raise (ValueError "Loop size is Undecided"), world_after_copy_kernel)
  /\ ElementwiseKernel_call nvcc_accepts_all gather_kernel
       [float32_array 100 0 [8]%Z] None (initial_world 0)
     = (Raise (ValueError "Loop size is Undecided"), initial_world 0).
Proof.
  split.
  - destruct (proj2 (undecided_loop_size nvcc_accepts_all) copy_kernel
                [V_scalar T_float 1] world_after_copy_kernel)
      as (e & Hcall & He).
    + intros p a Hin Ha. simpl in Hin. destruct Hin as [Hin|[]].
      inversion Hin; subst. discriminate.
    + rewrite Hcall, (He (or_introl eq_refl) eq_refl). reflexivity.
  - destruct (proj2 (undecided_loop_size nvcc_accepts_all) gather_kernel
                [float32_array 100 0 [8]%Z] (initial_world 0))
      as (e & Hcall & He).
    + intros p a Hin Ha. simpl in Hin. destruct Hin as [Hin|[]].
      inversion Hin; subst. reflexivity.
    + rewrite Hcall, (He (or_introl eq_refl) eq_refl). reflexivity.
Defined.

(** C6 as first stated fails: three scalars given to a kernel of one input
    and one output, and a raw array living on another device than the
    current one, both without [size] and without any non-raw array, raise
    something else than the undecided-size error. *)
Lemma undecided_loop_size_counterexample :
  fst (ElementwiseKernel_call nvcc_accepts_all copy_kernel
         [V_scalar T_float 1; V_scalar T_float 2; V_scalar T_float 3] None
         world_after_copy_kernel)
  = Raise (TypeError "Wrong number of arguments for copy")
  /\ fst (ElementwiseKernel_call nvcc_accepts_all gather_kernel
            [float32_array 100 1 [8]%Z] None (initial_world 0))
     = Raise (ValueError
                "Array device must be same as the current device: array device = 1 while current = 0").
Proof. vm_compute. split; reflexivity. Qed.

Lemma ParameterInfo_parse_cases_witness :
  ParameterInfo_init numpy_dtype_excerpt 0 "x" true
  = Raise (Exception "Syntax error: x")
  /\ ParameterInfo_init numpy_dtype_excerpt 0 "raw T x" true
     = Ok (mkParameterInfo 0 "x" None (Some "T") true true)
  /\ ParameterInfo_init numpy_dtype_excerpt 0 "CIndexer _ind" false
     = Ok (mkParameterInfo 0 "_ind" None None false false)
  /\ (ParameterInfo_init numpy_dtype_excerpt 0 "f4 x" true
      = Raise (TypeError "data type not understood")
      \/ ParameterInfo_init numpy_dtype_excerpt 0 "f4 x" true
         = Raise (ValueError "Wrong type f4"))
  /\ is_raise (ParameterInfo_init numpy_dtype_excerpt 0 "const T x" true).
Proof.
  split; [|split; [|split; [|split]]].
  - refine (proj1 (ParameterInfo_parse_cases numpy_dtype_excerpt 0 "x" true) _).
    vm_compute. lia.
  - refine (proj1 (proj2 (ParameterInfo_parse_cases numpy_dtype_excerpt 0
              "raw T x" true) ["raw"] "T" "x" eq_refl) eq_refl _).
    repeat constructor.
  - refine (proj1 (proj2 (proj2 (ParameterInfo_parse_cases numpy_dtype_excerpt
              0 "CIndexer _ind" false) [] "CIndexer" "_ind" eq_refl))
              eq_refl _).
    constructor.
  - refine (proj1 (proj2 (proj2 (proj2 (ParameterInfo_parse_cases
              numpy_dtype_excerpt 0 "f4 x" true) [] "f4" "x" eq_refl)))
              _ _ _).
    + discriminate.
    + simpl. lia.
    + intros d Hd. vm_compute in Hd. inversion Hd. discriminate.
  - refine (proj2 (proj2 (proj2 (proj2 (ParameterInfo_parse_cases
              numpy_dtype_excerpt 0 "const T x" true) ["const"] "T" "x"
              eq_refl))) _).
    intro H. inversion H as [|? ? Hraw]. discriminate.
Defined.

(** C7 as first stated fails: [CIndexer] has eight characters and numpy
    knows no such dtype, yet the entry parses. *)
Lemma CIndexer_token_is_accepted :
  param_tokens "CIndexer _ind" = ["CIndexer"; "_ind"]
  /\ String.length "CIndexer" = 8
  /\ numpy_dtype_excerpt "CIndexer" = None
  /\ ParameterInfo_init numpy_dtype_excerpt 0 "CIndexer _ind" false
     = Ok (mkParameterInfo 0 "_ind" None None false false).
Proof. vm_compute. repeat split; reflexivity. Qed.

Lemma reserved_name_rejected_at_construction_witness :
  ParameterInfo_init numpy_dtype_excerpt 0 "raw float32 i" true
  = Ok (mkParameterInfo 0 "i" (Some float32) (Some "float") true true)
  /\ exists w',
       ElementwiseKernel_init numpy_dtype_excerpt "T x, T i" "T y" "y = x + i"
         "add" true "" no_kwargs (initial_world 0)
       = (Raise (ValueError "Can not use 'i' as a parameter name"), w').
Proof.
  split.
  - refine (proj1 (reserved_name_rejected_at_construction numpy_dtype_excerpt)
              0 true "raw float32 i" "raw float32 n" ["raw"] "float32" "n"
              (mkParameterInfo 0 "n" (Some float32) (Some "float") true true)
              eq_refl eq_refl _).
    vm_compute. reflexivity.
  - refine (proj2 (reserved_name_rejected_at_construction numpy_dtype_excerpt)
              "T x, T i" "T y" "y = x + i" "add" true "" no_kwargs
              (initial_world 0) _ _ _ _ _ _ _).
    + vm_compute. reflexivity.
    + vm_compute. reflexivity.
    + vm_compute. auto.
Defined.

Lemma host_array_rejected_witness :
  exists msg,
    ElementwiseKernel_call nvcc_accepts_all copy_kernel
      [V_numpy_ndarray float32 [3]%Z] None world_after_copy_kernel
    = (Raise (TypeError msg), world_after_copy_kernel)
    /\ (msg = ("Wrong number of arguments for " ++ name copy_kernel)%string
        \/ msg = ("Unsupported type " ++ type_repr T_numpy_ndarray)%string).
Proof.
  apply (host_array_rejected nvcc_accepts_all copy_kernel
           [V_numpy_ndarray float32 [3]%Z] None world_after_copy_kernel).
  reflexivity.
Defined.

(** * Further properties of the sources *)

(** ** Argument checks *)

Lemma acceptable_arg_dec : forall dev v,
  {acceptable_arg dev v} + {~ acceptable_arg dev v}.
Proof.
  intros dev v. destruct v; simpl; try (right; discriminate);
    try apply Z.eq_dec; apply Bool.bool_dec.
Qed.

Lemma check_args_loop_step : forall dev v rest,
  check_args_loop dev (v :: rest)
  = if acceptable_arg_dec dev v then check_args_loop dev rest
    else Raise (refusal dev v).
Proof.
  intros dev v rest.
  destruct (acceptable_arg_dec dev v) as [H|H]; destruct v; simpl in *;
    try (exfalso; apply H; discriminate); try discriminate;
    try reflexivity.
  - apply Z.eqb_eq in H. now rewrite H.
  - rewrite H. reflexivity.
  - apply Z.eqb_neq in H. now rewrite H.
  - destruct ty; try reflexivity; try (exfalso; apply H; reflexivity).
    destruct (_typenames d); [exfalso; apply H; reflexivity | reflexivity].
Qed.

(** X8.  [_check_args] returns exactly when every operand is an array on the
    current device or a scalar of a supported type; otherwise the first
    operand that is neither decides the exception: [ValueError] for an
    array on another device, [TypeError] for anything else.  The
    interpreter state is never changed. *)
Theorem _check_args_accepts_exactly :
  forall args w,
    snd (_check_args args w) = w
    /\ (fst (_check_args args w) = Ok tt
        <-> Forall (acceptable_arg (w_device w)) args)
    /\ (forall pre v post,
           args = pre ++ v :: post ->
           Forall (acceptable_arg (w_device w)) pre ->
           ~ acceptable_arg (w_device w) v ->
           fst (_check_args args w) = Raise (refusal (w_device w) v)).
Proof.
  intros args w. rewrite _check_args_run. simpl.
  split; [reflexivity|]. split.
  - induction args as [|v rest IH].
    + simpl. split; auto.
    + rewrite check_args_loop_step.
      destruct (acceptable_arg_dec (w_device w) v) as [H|H].
      * rewrite IH. split; intro F; [constructor; auto | now inversion F].
      * split; [discriminate | intro F; inversion F; contradiction].
  - intros pre v post -> Hpre Hv.
    induction Hpre as [|x pre Hx Hpre IH]; simpl app;
      rewrite check_args_loop_step.
    + destruct (acceptable_arg_dec (w_device w) v); [contradiction|reflexivity].
    + destruct (acceptable_arg_dec (w_device w) x); [exact IH|contradiction].
Qed.

Lemma _check_args_accepts_exactly_witness :
  fst (_check_args [int32_array 0 0 [2%Z]; V_scalar T_float 1; V_None]
         (initial_world 0))
  = Raise (TypeError "Unsupported type <class 'NoneType'>").
Proof.
  apply (proj2 (proj2 (_check_args_accepts_exactly
                  [int32_array 0 0 [2%Z]; V_scalar T_float 1; V_None]
                  (initial_world 0)))
           [int32_array 0 0 [2%Z]; V_scalar T_float 1] V_None []).
  - reflexivity.
  - repeat constructor.
  - simpl. discriminate.
Defined.

(** ** C type names and kernel parameter lists *)

(** X24.  [_get_typename] raises [ValueError] on [None] and [KeyError] on a dtype
    outside [_typenames]; on the twelve dtypes of the table it returns
    pairwise distinct C type names, so a C type name determines the
    element type. *)
Theorem _get_typename_distinct_names :
  _get_typename None = Raise (ValueError "dtype is None")
  /\ (forall d, _typenames d = None ->
                _get_typename (Some d) = Raise (KeyError (dtype_name d)))
  /\ (forall a b s,
         _get_typename (Some a) = Ok s -> _get_typename (Some b) = Ok s ->
         a = b).
Proof.
  split; [reflexivity|]. split.
  - intros d H. unfold _get_typename. now rewrite H.
  - intros a b s Ha Hb. unfold _get_typename, Ok, Raise in *.
    destruct a; simpl in Ha; try discriminate;
      destruct b; simpl in Hb; try discriminate; try reflexivity;
      rewrite <- Hb in Ha; discriminate.
Qed.

Lemma _get_typename_distinct_names_witness :
  _get_typename (Some (other_dtype "complex64" 8))
  = Raise (KeyError "complex64")
  /\ int32 = int32.
Proof.
  split.
  - apply (proj1 (proj2 _get_typename_distinct_names)
             (other_dtype "complex64" 8)).
    reflexivity.
  - apply (proj2 (proj2 _get_typename_distinct_names) int32 int32 "int");
      reflexivity.
Defined.

Lemma mapR_Ok_iff : forall A B (f : A -> Result B) l,
  (exists r, mapR f l = Ok r) <-> Forall (fun x => exists y, f x = Ok y) l.
Proof.
  intros A B f. induction l as [|x l IH]; simpl.
  - split; [constructor | eauto].
  - split.
    + intros [r H]. apply rbind_inv_Ok in H. destruct H as (y & Hy & H).
      apply rbind_inv_Ok in H. destruct H as (ys & Hys & _).
      constructor; [eauto | apply IH; eauto].
    + intro F. inversion F as [|? ? [y Hy] Hl]; subst.
      apply IH in Hl. destruct Hl as [ys Hys].
      exists (y :: ys). rewrite Hy, Hys. reflexivity.
Qed.

Lemma kernel_param_Ok_iff : forall p a,
  (exists s, kernel_param p a = Ok s) <-> info_has_ctype a.
Proof.
  intros p [[ty dt] nd]. unfold kernel_param, info_has_ctype. simpl.
  unfold pytype_eqb.
  destruct (pytype_eq_dec ty T_Indexer) as [->|Hne].
  - split; [now left | intros _; simpl; eauto].
  - split.
    + intros [s H]. right.
      destruct dt as [d|]; [|discriminate]. simpl in H.
      destruct (_typenames d) as [n|] eqn:Hn; [eauto | discriminate].
    + intros [H|(d & n & -> & Hn)]; [contradiction|].
      simpl. rewrite Hn. simpl.
      destruct (pytype_eq_dec ty T_ndarray); simpl; eauto.
Qed.

Lemma combine_firstn_lengths : forall A B (a : list A) (b : list B),
  combine (firstn (List.length b) a) (firstn (List.length a) b) = combine a b.
Proof.
  induction a as [|x a IH]; intros [|y b]; simpl; auto.
  now rewrite IH.
Qed.

(** X23.  [_get_kernel_params] pairs parameters with argument descriptions by
    position and stops at the shorter list.  It returns exactly when every
    paired argument is an indexer or has one of the twelve dtypes of
    [_typenames]; an argument with another dtype, or with none, makes it
    raise. *)
Theorem _get_kernel_params_returns_iff :
  forall params args_info,
    ((exists s, _get_kernel_params params args_info = Ok s)
     <-> Forall info_has_ctype
           (firstn (List.length params) args_info))
    /\ _get_kernel_params params args_info
       = _get_kernel_params
           (firstn (List.length args_info) params)
           (firstn (List.length params) args_info).
Proof.
  intros params args_info. split.
  - unfold _get_kernel_params. split.
    + intros [s H]. apply rbind_inv_Ok in H. destruct H as (r & Hr & _).
      assert (Hex : exists r, mapR (fun pa => kernel_param (fst pa) (snd pa))
                                (combine params args_info) = Ok r) by eauto.
      apply mapR_Ok_iff in Hex. clear Hr.
      revert args_info Hex. induction params as [|p ps IH];
        intros [|a infos] F; simpl; try constructor.
      * inversion F as [|? ? Hx Hl]; subst. simpl in Hx.
        now apply kernel_param_Ok_iff in Hx.
      * inversion F; subst. now apply IH.
    + intro F.
      assert (Hex : exists r, mapR (fun pa => kernel_param (fst pa) (snd pa))
                                (combine params args_info) = Ok r).
      { apply mapR_Ok_iff. revert args_info F.
        induction params as [|p ps IH]; intros [|a infos] F; simpl;
          try constructor.
        - simpl in F. inversion F; subst. simpl.
          now apply kernel_param_Ok_iff.
        - simpl in F. inversion F; subst. now apply IH. }
      destruct Hex as [r Hr]. rewrite Hr. simpl. eauto.
  - unfold _get_kernel_params. now rewrite combine_firstn_lengths.
Qed.

Lemma _get_kernel_params_returns_iff_witness :
  ~ exists s,
      _get_kernel_params [param_x; param_ind]
        [(T_ndarray, Some (other_dtype "complex64" 8), 1);
         (T_Indexer, None, 1)]
      = Ok s.
Proof.
  intro H.
  apply (proj1 (proj1 (_get_kernel_params_returns_iff _ _))) in H.
  simpl in H. inversion H as [|? ? [Hx|(d & n & Hd & Hn)] _]; subst.
  - discriminate.
  - simpl in Hd. inversion Hd; subst. discriminate.
Defined.

(** ** Launches *)

Lemma same_launched_refl : forall w, same_launched w w.
Proof. reflexivity. Qed.

Lemma same_launched_trans : forall w1 w2 w3,
  same_launched w1 w2 -> same_launched w2 w3 -> same_launched w1 w3.
Proof. unfold same_launched. intros. congruence. Qed.

(** Steps through a computation for a reflexive and transitive relation
    on states. *)
Ltac frame_steps R Rrefl Rtrans :=
  repeat first
    [ assumption
    | apply (preserves_ret R Rrefl)
    | apply (preserves_raise R Rrefl)
    | apply (preserves_lift R Rrefl)
    | apply (preserves_current_device R Rrefl)
    | apply (preserves_mapM R Rrefl Rtrans); intro
    | apply (preserves_bind R Rtrans); [ | intro ]
    | apply preserves_if
    | match goal with
      | |- preserves _ (match ?x with _ => _ end) => destruct x
      end ].

Lemma compile_same_launched : forall nvcc code opts nm,
  preserves same_launched (compile_and_get_function nvcc code opts nm).
Proof.
  intros nvcc code opts nm w. unfold compile_and_get_function.
  destruct (nvcc code opts); reflexivity.
Qed.

Lemma _get_simple_elementwise_kernel_same_launched :
  forall nvcc p o n pre kw,
    preserves same_launched (_get_simple_elementwise_kernel nvcc p o n pre kw).
Proof.
  intros. unfold _get_simple_elementwise_kernel.
  apply (preserves_memoize same_launched same_launched_refl
           same_launched_trans).
  - intro k. apply compile_same_launched.
  - reflexivity.
Qed.

Lemma _get_elementwise_kernel_same_launched :
  forall nvcc ai ty ps op n pre kw,
    preserves same_launched
      (_get_elementwise_kernel nvcc ai ty ps op n pre kw).
Proof.
  intros. unfold _get_elementwise_kernel.
  apply (preserves_memoize same_launched same_launched_refl
           same_launched_trans).
  - intro k. unfold _get_elementwise_kernel_body.
    pose proof _get_simple_elementwise_kernel_same_launched.
    assert (preserves same_launched tick_synthesized) by (intro; reflexivity).
    frame_steps same_launched same_launched_refl same_launched_trans.
    auto.
  - reflexivity.
Qed.

Lemma _get_ufunc_kernel_same_launched :
  forall nvcc it ot rt ai ort ps n pre,
    preserves same_launched
      (_get_ufunc_kernel nvcc it ot rt ai ort ps n pre).
Proof.
  intros. unfold _get_ufunc_kernel.
  apply (preserves_memoize same_launched same_launched_refl
           same_launched_trans).
  - intro k. unfold _get_ufunc_kernel_body.
    pose proof _get_simple_elementwise_kernel_same_launched.
    assert (preserves same_launched tick_synthesized) by (intro; reflexivity).
    frame_steps same_launched same_launched_refl same_launched_trans.
    auto.
  - reflexivity.
Qed.

Lemma preserves_at : forall A R (c : M A) w r w',
  preserves R c -> c w = (r, w') -> R w w'.
Proof. intros A R c w r w' H E. specialize (H w). now rewrite E in H. Qed.

Lemma _broadcast_brod : forall args params se brod value,
  _broadcast args params se = Ok (brod, value) ->
  b_size brod = prod (b_shape brod).
Proof.
  intros args params se brod value H. unfold _broadcast in H.
  apply rbind_inv_Ok in H. destruct H as (b & Hb & H).
  destruct (se && forallb is_None (b_values b)); [discriminate|].
  inversion H; subst. eapply cupy_broadcast_size; eauto.
Qed.

Lemma _get_inout_args_Ok : forall args ix params rd r,
  _get_inout_args args ix params rd = Ok r ->
  rd = true
  /\ exists front,
       _reduce_dims args params ix = Ok (front, snd r)
       /\ fst r = front ++ [V_Indexer (snd r)]
       /\ Indexer_size (snd r) = Indexer_size ix.
Proof.
  intros args ix params rd r H. unfold _get_inout_args in H.
  destruct rd; [|discriminate]. split; [reflexivity|].
  apply rbind_inv_Ok in H. destruct H as ([front ix'] & Hr & H).
  inversion H; subst; clear H. simpl. exists front.
  repeat split; auto.
  unfold Indexer_size. now apply _reduce_dims_prod in Hr.
Qed.

(** X4.  An [ElementwiseKernel] made with [reduce_dims=False] cannot run: when
    the broadcast is not empty the call reaches [_get_inout_args], which
    asks the tuple [in_args + out_args] to [append], and raises
    [AttributeError].  Whatever such a call does, nothing is synthesized,
    compiled or launched. *)
Theorem reduce_dims_off_never_launches :
  forall (nvcc : string -> list string -> bool) self args size w,
    reduce_dims self = false ->
    kernel_untouched w (snd (ElementwiseKernel_call nvcc self args size w))
    /\ (forall pr w',
           ElementwiseKernel_prepare self args size w = (Ok pr, w') ->
           b_size (pr_brod pr) <> 0%Z ->
           ElementwiseKernel_call nvcc self args size w
           = (Raise (AttributeError
                       "'tuple' object has no attribute 'append'"), w')).
Proof.
  intros nvcc self args size w Hrd.
  pose proof (ElementwiseKernel_prepare_untouched self args size w) as Hp.
  unfold ElementwiseKernel_call, bind.
  destruct (ElementwiseKernel_prepare self args size w) as [[e|pr] w1] eqn:E;
    simpl in Hp.
  - split; [exact Hp | intros; discriminate].
  - assert (Hd : ElementwiseKernel_dispatch nvcc self pr w1
                 = (Raise (AttributeError
                             "'tuple' object has no attribute 'append'"), w1)).
    { unfold ElementwiseKernel_dispatch, _get_inout_args. rewrite Hrd.
      reflexivity. }
    split.
    + destruct (b_size (pr_brod pr) =? 0)%Z; [exact Hp|].
      rewrite Hd. exact Hp.
    + intros pr' w' H Hnz. inversion H; subst.
      destruct (Z.eqb_spec (b_size (pr_brod pr')) 0); [contradiction|].
      exact Hd.
Qed.

(** X2.  A call of an [ElementwiseKernel] that returns has launched nothing
    when the broadcast is empty, and otherwise exactly one kernel: its loop
    size is [size] when that was given, else the number of elements of the
    broadcast, and its last argument is the indexer, which spans as many
    elements as the loop. *)
Theorem ElementwiseKernel_call_launches_once :
  forall (nvcc : string -> list string -> bool) self args size w r w',
    ElementwiseKernel_call nvcc self args size w = (Ok r, w') ->
    exists brod value,
      _broadcast args (params self)
        (match size with None => true | Some _ => false end)
      = Ok (brod, value)
      /\ (b_size brod = 0%Z -> w_launched w' = w_launched w)
      /\ (b_size brod <> 0%Z ->
          exists kern front ix,
            w_launched w'
            = w_launched w
              ++ [mklaunch kern
                    (match size with Some n => n | None => b_size brod end)
                    (front ++ [V_Indexer ix])]
            /\ Indexer_size ix
               = match size with Some n => n | None => b_size brod end).
Proof.
  intros nvcc self args size w r w' H.
  unfold ElementwiseKernel_call in H.
  apply bind_inv_Ok in H. destruct H as (pr & w1 & Hp & H).
  pose proof (preserves_at _ _ _ _ _ _
                (ElementwiseKernel_prepare_untouched self args size) Hp)
    as (_ & _ & Hl1 & _).
  destruct (ElementwiseKernel_prepare_ret _ _ _ _ _ _ Hp) as (_ & value & Hb).
  assert (Hix : Indexer_size (pr_indexer pr)
                = match size with Some n => n | None => b_size (pr_brod pr) end).
  { unfold ElementwiseKernel_prepare in Hp.
    destruct (negb _); [discriminate|].
    apply bind_inv_Ok in Hp. destruct Hp as (? & wa & _ & Hp).
    apply bind_inv_Ok in Hp. destruct Hp as (? & wb & _ & Hp).
    apply bind_inv_Ok in Hp. destruct Hp as (bv & wc & Hc & Hp).
    apply lift_inv_Ok in Hc. destruct Hc as [Hc _].
    apply bind_inv_Ok in Hp. destruct Hp as (tys & wd & _ & Hp).
    apply bind_inv_Ok in Hp. destruct Hp as (oa & we & _ & Hp).
    apply ret_inv in Hp. destruct Hp as [-> _]. simpl.
    destruct bv as [b v]. simpl. apply _broadcast_brod in Hc.
    destruct size as [n|]; unfold Indexer_size, prod; simpl; [lia|].
    exact (eq_sym Hc). }
  exists (pr_brod pr), value. split; [exact Hb|].
  destruct (Z.eqb_spec (b_size (pr_brod pr)) 0) as [Hz|Hnz].
  - apply ret_inv in H. destruct H as [_ ->].
    split; [intros _; exact Hl1 | intro; contradiction].
  - split; [intro; contradiction | intros _].
    unfold ElementwiseKernel_dispatch in H.
    apply bind_inv_Ok in H. destruct H as (ia & w2 & Hia & H).
    apply lift_inv_Ok in Hia. destruct Hia as [Hia ->].
    apply bind_inv_Ok in H. destruct H as (ai & w3 & Hai & H).
    apply lift_inv_Ok in Hai. destruct Hai as [_ ->].
    apply bind_inv_Ok in H. destruct H as (kern & w4 & Hk & H).
    apply bind_inv_Ok in H. destruct H as (? & w5 & Hl & H).
    apply ret_inv in H. destruct H as [_ ->].
    pose proof (preserves_at _ _ _ _ _ _
                  (_get_elementwise_kernel_same_launched nvcc _ _ _ _ _ _ _)
                  Hk) as Hl4.
    unfold linear_launch in Hl. injection Hl as _ <-.
    apply _get_inout_args_Ok in Hia.
    destruct Hia as (_ & front & _ & Hfst & Hsz).
    exists kern, front, (snd ia). simpl.
    rewrite Hl4, Hl1, Hfst, Hsz, Hix. split; [reflexivity|].
    reflexivity.
Qed.

Lemma reduce_dims_off_never_launches_witness :
  ElementwiseKernel_call nvcc_accepts_all copy_kernel_keeping_dims
    [float32_array 100 0 [8]%Z] None world_after_copy_kernel
  = (Raise (AttributeError "'tuple' object has no attribute 'append'"),
     snd (ElementwiseKernel_prepare copy_kernel_keeping_dims
            [float32_array 100 0 [8]%Z] None world_after_copy_kernel)).
Proof.
  destruct (ElementwiseKernel_prepare copy_kernel_keeping_dims
              [float32_array 100 0 [8]%Z] None world_after_copy_kernel)
    as [[e|pr] w'] eqn:Hp; [vm_compute in Hp; discriminate|].
  apply (proj2 (reduce_dims_off_never_launches nvcc_accepts_all
                  copy_kernel_keeping_dims [float32_array 100 0 [8]%Z] None
                  world_after_copy_kernel eq_refl) pr w' Hp).
  vm_compute in Hp. inversion Hp. simpl. discriminate.
Defined.

Lemma ElementwiseKernel_call_launches_once_witness :
  map le_size
    (w_launched
       (snd (ElementwiseKernel_call nvcc_accepts_all copy_kernel
               [float32_array 100 0 [1000]%Z] None world_after_copy_kernel)))
  = [1000%Z].
Proof.
  destruct (ElementwiseKernel_call nvcc_accepts_all copy_kernel
              [float32_array 100 0 [1000]%Z] None world_after_copy_kernel)
    as [[e|r] w'] eqn:E; [vm_compute in E; discriminate|].
  destruct (ElementwiseKernel_call_launches_once nvcc_accepts_all copy_kernel
              [float32_array 100 0 [1000]%Z] None world_after_copy_kernel
              r w' E) as (brod & value & Hb & _ & Hnz).
  vm_compute in Hb. inversion Hb; subst brod value; clear Hb.
  destruct Hnz as (kern & front & ix & Hl & _); [simpl; discriminate|].
  simpl. rewrite Hl. reflexivity.
Defined.

(** X3.  A call of a universal function that returns has launched nothing when
    some extent of the broadcast is 0, and otherwise exactly one kernel
    whose loop size is the number of elements of the broadcast and whose
    last argument is the indexer, spanning as many elements. *)
Theorem ufunc_call_launches_once :
  forall (cc : Dtype -> Dtype -> bool) (nvcc : string -> list string -> bool)
         self args out dtype w r w',
    ufunc_call cc nvcc self args out dtype w = (Ok r, w') ->
    exists brod,
      cupy_broadcast args = Ok brod
      /\ (b_size brod = 0%Z -> w_launched w' = w_launched w)
      /\ (b_size brod <> 0%Z ->
          exists kern front ix,
            w_launched w'
            = w_launched w
              ++ [mklaunch kern (b_size brod) (front ++ [V_Indexer ix])]
            /\ Indexer_size ix = b_size brod).
Proof.
  intros cc nvcc self args out dtype w r w' H.
  unfold ufunc_call in H.
  apply bind_inv_Ok in H. destruct H as (pr & w1 & Hp & H).
  pose proof (preserves_at _ _ _ _ _ _
                (ufunc_prepare_untouched cc self args out dtype) Hp)
    as (_ & _ & Hl1 & _).
  destruct (ufunc_prepare_ret _ _ _ _ _ _ _ _ Hp) as (_ & Hb).
  pose proof (cupy_broadcast_size _ _ Hb) as Hsz.
  exists (pr_brod pr). split; [exact Hb|].
  destruct (zero_in (b_shape (pr_brod pr))) eqn:Hz.
  - apply prod_zero_iff in Hz. apply ret_inv in H. destruct H as [_ ->].
    split; [intros _; exact Hl1 | intro Hnz; congruence].
  - assert (Hnz : b_size (pr_brod pr) <> 0%Z).
    { rewrite Hsz. intro E. apply prod_zero_iff in E. congruence. }
    split; [intro; contradiction | intros _].
    unfold ufunc_dispatch in H.
    apply bind_inv_Ok in H. destruct H as (ia & w2 & Hia & H).
    apply lift_inv_Ok in Hia. destruct Hia as [Hia ->].
    apply bind_inv_Ok in H. destruct H as (ai & w3 & Hai & H).
    apply lift_inv_Ok in Hai. destruct Hai as [_ ->].
    apply bind_inv_Ok in H. destruct H as (ort & w4 & Hort & H).
    apply lift_inv_Ok in Hort. destruct Hort as [_ ->].
    apply bind_inv_Ok in H. destruct H as (kern & w5 & Hk & H).
    apply bind_inv_Ok in H. destruct H as (? & w6 & Hl & H).
    apply ret_inv in H. destruct H as [_ ->].
    pose proof (preserves_at _ _ _ _ _ _
                  (_get_ufunc_kernel_same_launched nvcc _ _ _ _ _ _ _ _)
                  Hk) as Hl5.
    unfold linear_launch in Hl. injection Hl as _ <-.
    apply _get_inout_args_Ok in Hia.
    destruct Hia as (_ & front & _ & Hfst & Hix).
    exists kern, front, (snd ia). simpl.
    rewrite Hl5, Hl1, Hfst, Hix, Hsz. split; reflexivity.
Qed.

Lemma ufunc_call_launches_once_witness :
  map le_size
    (w_launched
       (snd (ufunc_call numpy_can_cast nvcc_accepts_all add_ufunc
               [int32_array 100 0 [5]%Z; int32_array 101 0 [5]%Z] None None
               (initial_world 0))))
  = [5%Z].
Proof.
  destruct (ufunc_call numpy_can_cast nvcc_accepts_all add_ufunc
              [int32_array 100 0 [5]%Z; int32_array 101 0 [5]%Z] None None
              (initial_world 0)) as [[e|r] w'] eqn:E;
    [vm_compute in E; discriminate|].
  destruct (ufunc_call_launches_once numpy_can_cast nvcc_accepts_all
              add_ufunc [int32_array 100 0 [5]%Z; int32_array 101 0 [5]%Z]
              None None (initial_world 0) r w' E) as (brod & Hb & _ & Hnz).
  vm_compute in Hb. inversion Hb; subst brod; clear Hb.
  destruct Hnz as (kern & front & ix & Hl & _); [simpl; discriminate|].
  simpl. rewrite Hl. reflexivity.
Defined.

(** ** Unbound type tags *)

Lemma check_or_bind_origin : forall e p a td td' c x,
  check_or_bind e p a td = Ok td' ->
  dict_get tag_eq_dec td' c = Some x ->
  dict_get tag_eq_dec td c = Some x
  \/ (p_dtype p = None /\ p_ctype p = c /\ x = a).
Proof.
  unfold check_or_bind. intros e p a td td' c x H Hg.
  destruct (p_dtype p) as [d|].
  - destruct (Dtype_eqb a d); simpl in H; [|discriminate].
    inversion H; subst. now left.
  - destruct (dict_get tag_eq_dec td (p_ctype p)) as [t|] eqn:Ht.
    + destruct (Dtype_eqb t a); simpl in H; [|discriminate].
      inversion H; subst. now left.
    + inversion H; subst. rewrite dict_get_set in Hg.
      destruct (tag_eq_dec c (p_ctype p)) as [->|]; [|now left].
      inversion Hg. right. auto.
Qed.

Lemma decide_out_loop_origin : forall pas td td' c x,
  decide_out_loop pas td = Ok td' ->
  dict_get tag_eq_dec td' c = Some x ->
  dict_get tag_eq_dec td c = Some x
  \/ exists q, In (q, Some x) pas /\ p_dtype q = None /\ p_ctype q = c.
Proof.
  induction pas as [|[p oa] pas IH]; intros td td' c x H Hg; simpl in H.
  - inversion H; subst. now left.
  - destruct oa as [a|]; [|discriminate].
    apply rbind_inv_Ok in H. destruct H as (td1 & H1 & H2).
    destruct (IH _ _ _ _ H2 Hg) as [Hg1|(q & Hq & Hd & Hc)].
    + destruct (check_or_bind_origin _ _ _ _ _ _ _ H1 Hg1)
        as [?|(Hd & Hc & ->)]; [now left|].
      right. exists p. simpl. auto.
    + right. exists q. simpl. auto.
Qed.

Lemma decide_in_loop_origin : forall pas td u td' u' c x,
  decide_in_loop pas td u = Ok (td', u') ->
  dict_get tag_eq_dec td' c = Some x ->
  dict_get tag_eq_dec td c = Some x
  \/ exists q, In (q, Some x) pas /\ p_dtype q = None /\ p_ctype q = c.
Proof.
  induction pas as [|[p oa] pas IH]; intros td u td' u' c x H Hg; simpl in H.
  - inversion H; subst. now left.
  - destruct oa as [a|].
    + apply rbind_inv_Ok in H. destruct H as (td1 & H1 & H2).
      destruct (IH _ _ _ _ _ _ H2 Hg) as [Hg1|(q & Hq & Hd & Hc)].
      * destruct (check_or_bind_origin _ _ _ _ _ _ _ H1 Hg1)
          as [?|(Hd & Hc & ->)]; [now left|].
        right. exists p. simpl. auto.
      * right. exists q. simpl. auto.
    + assert (Hr : exists u1, decide_in_loop pas td u1 = Ok (td', u'))
        by (destruct (p_dtype p); eauto).
      destruct Hr as [u1 Hr].
      destruct (IH _ _ _ _ _ _ Hr Hg) as [?|(q & Hq & Hd & Hc)];
        [now left|].
      right. exists q. simpl. auto.
Qed.

Lemma mapR_In : forall A B (f : A -> Result B) l r x,
  mapR f l = Ok r -> In x l -> exists y, f x = Ok y.
Proof.
  intros A B f l r x H Hx. apply In_nth_error in Hx. destruct Hx as [i Hi].
  destruct (mapR_nth _ _ _ _ _ H i x Hi) as (y & Hy & _). eauto.
Qed.

Lemma _decide_params_type_body_raises : forall k e,
  _decide_params_type_body k = Raise e -> is_resolution_error e.
Proof.
  intros k e H. unfold _decide_params_type_body in H.
  assert (Hm : forall td ps e',
             mapR (resolve_type td) ps = Raise e' -> is_resolution_error e').
  { intros td. induction ps as [|p ps IH]; intros e' Hr; simpl in Hr.
    - discriminate.
    - destruct (resolve_type td p) as [e1|y] eqn:Hy; simpl in Hr.
      + inversion Hr; subst. unfold resolve_type in Hy.
        destruct (p_dtype p); [discriminate|].
        destruct (dict_get _ _ _); [discriminate|]. inversion Hy. exact I.
      + destruct (mapR (resolve_type td) ps) as [e2|ys] eqn:Hys;
          simpl in Hr; [|discriminate].
        inversion Hr; subst. eauto. }
  destruct (List.length (dk_in_params k)
            =? List.length (dk_in_args_dtype k))%nat eqn:Ein.
  2:{ match type of H with rbind ?x _ = _ => destruct x as [e1|td1] eqn:H1 end;
        simpl in H; [|inversion H; exact I].
      inversion H; subst.
      destruct (dk_out_args_dtype k); [discriminate|].
      destruct (List.length (dk_out_params k) =? _)%nat; simpl in H1.
      - apply decide_out_loop_raises in H1. destruct H1 as [m ->]. exact I.
      - inversion H1. exact I. }
  simpl negb in H. cbv iota in H.
  match type of H with rbind ?x _ = _ => destruct x as [e1|td1] eqn:H1 end;
    simpl in H.
  - inversion H; subst.
    destruct (dk_out_args_dtype k); [discriminate|].
    destruct (List.length (dk_out_params k) =? _)%nat; simpl in H1.
    + apply decide_out_loop_raises in H1. destruct H1 as [m ->]. exact I.
    + inversion H1. exact I.
  - destruct (decide_in_loop _ td1 []) as [e2|[td2 u]] eqn:H2; simpl in H.
    + inversion H; subst. apply decide_in_loop_raises in H2.
      destruct H2 as [m ->]. exact I.
    + destruct (mapR (resolve_type td2) (dk_in_params k)) as [e3|it] eqn:H3;
        simpl in H; [inversion H; subst; eauto|].
      destruct (mapR (resolve_type td2) (dk_out_params k)) as [e4|ot] eqn:H4;
        simpl in H; [inversion H; subst; eauto|discriminate].
Qed.

(** X7.  Scalars never bind a type tag.  When [_decide_params_type] returns,
    every binding it reports was made by an array operand of a parameter
    with that tag, and every parameter without concrete type has its tag
    carried by such an operand.  So a call in which some generic tag is
    carried by no array operand does not resolve: the function raises (a
    [KeyError] from [type_dict[p.ctype]] unless a check raised before). *)
Theorem generic_tag_needs_an_array :
  forall k,
    (forall in_types out_types types,
        _decide_params_type_body k = Ok (in_types, out_types, types) ->
        (forall c a, dict_get tag_eq_dec types c = Some a ->
                     tag_carried k c a)
        /\ (forall p, In p (dk_in_params k ++ dk_out_params k) ->
                      p_dtype p = None ->
                      exists a, tag_carried k (p_ctype p) a))
    /\ (forall p,
           In p (dk_in_params k ++ dk_out_params k) ->
           p_dtype p = None ->
           (forall a, ~ tag_carried k (p_ctype p) a) ->
           exists e, _decide_params_type_body k = Raise e
                     /\ is_resolution_error e).
Proof.
  intro k.
  assert (Hok : forall in_types out_types types,
             _decide_params_type_body k = Ok (in_types, out_types, types) ->
             (forall c a, dict_get tag_eq_dec types c = Some a ->
                          tag_carried k c a)
             /\ (forall p, In p (dk_in_params k ++ dk_out_params k) ->
                           p_dtype p = None ->
                           exists a, tag_carried k (p_ctype p) a)).
  { intros it0 ot0 ty H. unfold _decide_params_type_body in H.
    apply rbind_inv_Ok in H. destruct H as (td1 & H1 & H).
    destruct (List.length (dk_in_params k)
              =? List.length (dk_in_args_dtype k))%nat; [|discriminate].
    simpl negb in H. cbv iota in H.
    apply rbind_inv_Ok in H. destruct H as ([td2 u] & H2 & H).
    apply rbind_inv_Ok in H. destruct H as (it & Hit & H).
    apply rbind_inv_Ok in H. destruct H as (ot & Hot & H).
    inversion H; subst it0 ot0 ty; clear H. simpl fst in *.
    assert (Horigin : forall c a, dict_get tag_eq_dec td2 c = Some a ->
                                  tag_carried k c a).
    { intros c a Hg. unfold tag_carried, scan_order.
      destruct (decide_in_loop_origin _ _ _ _ _ _ _ H2 Hg)
        as [Hg1|(q & Hq & Hd & Hc)].
      - destruct (dk_out_args_dtype k) as [|o os] eqn:Eo.
        + inversion H1; subst. discriminate.
        + destruct (List.length (dk_out_params k) =? _)%nat;
            [|discriminate]. simpl in H1.
          destruct (decide_out_loop_origin _ _ _ _ _ H1 Hg1)
            as [?|(q & Hq & Hd & Hc)]; [discriminate|].
          exists q. split; [apply in_or_app; now left | auto].
      - exists q. split; [apply in_or_app; now right | auto]. }
    split; [exact Horigin|].
    intros p Hp Hd.
    assert (Hres : exists y, resolve_type td2 p = Ok y).
    { apply in_app_or in Hp. destruct Hp as [Hp|Hp].
      - exact (mapR_In _ _ (resolve_type td2) _ _ _ Hit Hp).
      - exact (mapR_In _ _ (resolve_type td2) _ _ _ Hot Hp). }
    destruct Hres as [y Hy]. unfold resolve_type in Hy. rewrite Hd in Hy.
    destruct (dict_get tag_eq_dec td2 (p_ctype p)) as [t|] eqn:Ht;
      [|discriminate].
    exists t. now apply Horigin. }
  split; [exact Hok|].
  intros p Hp Hd Hno.
  destruct (_decide_params_type_body k) as [e|[[it ot] ty]] eqn:Hb.
  - exists e. split; [reflexivity|].
    eapply _decide_params_type_body_raises; eauto.
  - exfalso. destruct (Hok it ot ty eq_refl) as [_ Hall].
    destruct (Hall p Hp Hd) as [a Ha]. exact (Hno a Ha).
Qed.

Lemma generic_tag_needs_an_array_witness :
  _decide_params_type_body
    (mkdecide_key [param_x] [param_y] [None] [])
  = Raise (KeyError "T").
Proof.
  destruct (proj2 (generic_tag_needs_an_array
                     (mkdecide_key [param_x] [param_y] [None] []))
              param_x (or_introl eq_refl) eq_refl) as (e & He & _).
  - intros a (q & Hq & _). simpl in Hq. destruct Hq as [Hq|[]].
    discriminate.
  - rewrite He. vm_compute in He. inversion He. reflexivity.
Defined.

(** ** Output arrays *)

Lemma check_out_args_Ok_iff : forall sh op oa i,
  check_out_args sh op i oa = Ok tt
  <-> (forall j a, nth_error oa j = Some a -> output_fits sh op (i + j) a).
Proof.
  intros sh op. induction oa as [|a oa IH]; intro i; simpl.
  - split; auto. intros _ j a Hj. destruct j; discriminate.
  - split.
    + intros H j b Hj.
      destruct a as [arr| | | | |]; try discriminate.
      assert (Hrest : check_out_args sh op (S i) oa = Ok tt
                      /\ output_fits sh op i (V_ndarray arr)).
      { unfold shape_eqb in H.
        destruct (list_eq_dec Z.eq_dec (a_shape arr) sh) as [E|E]; simpl in H.
        - split; [exact H|]. exists arr. auto.
        - destruct op as [ps|]; [|discriminate].
          apply rbind_inv_Ok in H. destruct H as (p & Hp & H).
          apply index_Ok in Hp.
          destruct (p_raw p) eqn:Hraw; simpl in H; [|discriminate].
          split; [exact H|]. exists arr. split; [reflexivity|].
          right. exists ps, p. auto. }
      destruct Hrest as [Hrest Hfit].
      destruct j as [|j]; simpl in Hj.
      * inversion Hj; subst. now rewrite Nat.add_0_r.
      * rewrite <- Nat.add_succ_comm. apply (proj1 (IH (S i)) Hrest j b Hj).
    + intro H.
      assert (Hrest : check_out_args sh op (S i) oa = Ok tt).
      { apply IH. intros j b Hj. rewrite Nat.add_succ_comm.
        apply (H (S j) b Hj). }
      destruct (H 0 a eq_refl) as (arr & -> & Hfit).
      rewrite Nat.add_0_r in Hfit. unfold shape_eqb.
      destruct (list_eq_dec Z.eq_dec (a_shape arr) sh) as [E|E]; simpl;
        [exact Hrest|].
      destruct Hfit as [?|(ps & p & -> & Hp & Hraw)]; [contradiction|].
      apply index_Ok in Hp. rewrite Hp. simpl. rewrite Hraw. exact Hrest.
Qed.

Lemma cupy_empty_run : forall sh t w,
  cupy_empty sh t w
  = (Ok (V_ndarray (mkndarray (w_next w) (w_device w) t sh
                      (contiguous_strides sh (dtype_itemsize t)))),
     set_next (S (w_next w)) w).
Proof. reflexivity. Qed.

Lemma mapM_cupy_empty : forall sh ots w,
  exists r,
    mapM (cupy_empty sh) ots w
    = (Ok r, set_next (w_next w + List.length ots) w)
    /\ List.length r = List.length ots
    /\ (forall j t, nth_error ots j = Some t ->
          nth_error r j
          = Some (V_ndarray
                    (mkndarray (w_next w + j) (w_device w) t sh
                       (contiguous_strides sh (dtype_itemsize t))))).
Proof.
  intros sh. induction ots as [|t ots IH]; intro w.
  - exists []. simpl. unfold ret. rewrite Nat.add_0_r.
    destruct w; repeat split. intros j t Hj. destruct j; discriminate.
  - destruct (IH (set_next (S (w_next w)) w)) as (r & Hr & Hlen & Hnth).
    exists (V_ndarray
              (mkndarray (w_next w) (w_device w) t sh
                 (contiguous_strides sh (dtype_itemsize t))) :: r).
    split; [|split].
    + cbn [mapM].
      rewrite (bind_Ok _ _ _ _ _ _ _ (cupy_empty_run sh t w)).
      rewrite (bind_Ok _ _ _ _ _ _ _ Hr). unfold ret.
      destruct w; unfold set_next; simpl. repeat f_equal. lia.
    + simpl. now rewrite Hlen.
    + intros [|j] u Hj; simpl in Hj |- *.
      * inversion Hj; subst. now rewrite Nat.add_0_r.
      * rewrite (Hnth j u Hj). simpl. repeat f_equal. lia.
Qed.

(** X9.  [_get_out_args].  Supplied outputs are never replaced: the call
    returns them as they are, without changing the interpreter state,
    exactly when each is an array whose shape is the broadcast shape or
    whose parameter is raw, and raises otherwise.  With no output
    supplied, a raw output parameter makes it raise
    [ValueError('Output array size is Undecided')]; otherwise it
    allocates one new array per output type, of the broadcast shape and
    of that type, on the current device. *)
Theorem _get_out_args_cases :
  forall in_args out_args out_types out_shape out_params w,
    (out_args <> [] ->
     ((forall j a, nth_error out_args j = Some a ->
                   output_fits out_shape out_params j a) ->
      _get_out_args in_args out_args out_types out_shape out_params w
      = (Ok out_args, w))
     /\ (~ (forall j a, nth_error out_args j = Some a ->
                        output_fits out_shape out_params j a) ->
         exists e,
           _get_out_args in_args out_args out_types out_shape out_params w
           = (Raise e, w)))
    /\ (out_args = [] ->
        ((exists ps, out_params = Some ps /\ existsb p_raw ps = true) ->
         _get_out_args in_args out_args out_types out_shape out_params w
         = (Raise (ValueError "Output array size is Undecided"), w))
        /\ (~ (exists ps, out_params = Some ps /\ existsb p_raw ps = true) ->
            exists r w',
              _get_out_args in_args out_args out_types out_shape out_params w
              = (Ok r, w')
              /\ List.length r = List.length out_types
              /\ (forall j t, nth_error out_types j = Some t ->
                    exists arr,
                      nth_error r j = Some (V_ndarray arr)
                      /\ a_shape arr = out_shape /\ a_dtype arr = t
                      /\ a_device arr = w_device w
                      /\ a_data arr = w_next w + j))).
Proof.
  intros ia oa ot sh op w. split.
  - intro Hne. unfold _get_out_args.
    destruct oa as [|a oa]; [contradiction|]. cbn [List.length Nat.eqb].
    unfold bind, lift, ret.
    pose proof (check_out_args_Ok_iff sh op (a :: oa) 0) as Hiff.
    destruct (check_out_args sh op 0 (a :: oa)) as [e|[]] eqn:Hc.
    + split.
      * intro Hall. apply Hiff in Hall. discriminate.
      * intros _. eauto.
    + split; [reflexivity|]. intro Hn. exfalso. apply Hn.
      now apply Hiff.
  - intros ->. unfold _get_out_args. cbn [List.length Nat.eqb]. split.
    + intros (ps & -> & Hraw). now rewrite Hraw.
    + intro Hn.
      assert (Hf : match op with
                   | Some ps => existsb p_raw ps
                   | None => false
                   end = false).
      { destruct op as [ps|]; [|reflexivity].
        destruct (existsb p_raw ps) eqn:E; [|reflexivity].
        exfalso. apply Hn. eauto. }
      rewrite Hf.
      destruct (mapM_cupy_empty sh ot w) as (r & Hr & Hlen & Hnth).
      exists r, (set_next (w_next w + List.length ot) w).
      split; [exact Hr|]. split; [exact Hlen|].
      intros j t Hj. eexists. split; [apply (Hnth j t Hj)|].
      simpl. auto.
Qed.

Lemma _get_out_args_cases_witness :
  _get_out_args [] [float32_array 7 0 [2; 3]%Z] [float32] [2; 3]%Z
    (Some [param_y]) (initial_world 0)
  = (Ok [float32_array 7 0 [2; 3]%Z], initial_world 0).
Proof.
  apply (proj1 (proj1 (_get_out_args_cases [] [float32_array 7 0 [2; 3]%Z]
                         [float32] [2; 3]%Z (Some [param_y])
                         (initial_world 0))
                  ltac:(discriminate))).
  intros [|[|j]] a Hj; simpl in Hj; inversion Hj; subst.
  eexists. split; [reflexivity|]. left. reflexivity.
Defined.

(** ** Parameter strings *)

Lemma ParameterInfo_init_fields : forall np oid str c p,
  ParameterInfo_init np oid str c = Ok p ->
  p_oid p = oid /\ p_is_const p = c.
Proof.
  intros np oid str c p H. unfold ParameterInfo_init in H.
  destruct (List.length (param_tokens str) <? 2)%nat; [discriminate|].
  destruct (last_two (param_tokens str)) as [|t [|n [|? ?]]];
    try discriminate.
  apply rbind_inv_Ok in H. destruct H as (dc & _ & H).
  apply rbind_inv_Ok in H. destruct H as (raw & _ & H).
  inversion H; subst. auto.
Qed.

Lemma ParameterInfo_init_oid : forall np oid oid' str c p,
  ParameterInfo_init np oid str c = Ok p ->
  ParameterInfo_init np oid' str c
  = Ok (mkParameterInfo oid' (p_name p) (p_dtype p) (p_ctype p) (p_raw p)
          (p_is_const p)).
Proof.
  intros np oid oid' str c p H. unfold ParameterInfo_init in *.
  destruct (List.length (param_tokens str) <? 2)%nat; [discriminate|].
  destruct (last_two (param_tokens str)) as [|t [|n [|? ?]]];
    try discriminate.
  apply rbind_inv_Ok in H. destruct H as (dc & -> & H).
  apply rbind_inv_Ok in H. destruct H as (raw & -> & H).
  inversion H; subst. reflexivity.
Qed.

Lemma ParameterInfo_init_short : forall np oid str c,
  List.length (param_tokens str) < 2 ->
  ParameterInfo_init np oid str c
  = Raise (Exception ("Syntax error: " ++ str)).
Proof.
  intros np oid str c Hlen. unfold ParameterInfo_init.
  destruct (short_list_cases _ _ Hlen) as [-> | [x ->]]; reflexivity.
Qed.

Lemma new_ParameterInfo_run : forall np c str w,
  new_ParameterInfo np c str w
  = (ParameterInfo_init np (w_next w) str c, set_next (S (w_next w)) w).
Proof. reflexivity. Qed.

Lemma mapM_new_ParameterInfo : forall np c entries w ps w',
  mapM (new_ParameterInfo np c) entries w = (Ok ps, w') ->
  Forall2 (fun entry p => ParameterInfo_init np (p_oid p) entry c = Ok p)
    entries ps
  /\ (forall j p, nth_error ps j = Some p -> p_oid p = w_next w + j)
  /\ w_param_memo w' = w_param_memo w.
Proof.
  intros np c. induction entries as [|e entries IH]; intros w ps w' H;
    simpl in H.
  - apply ret_inv in H. destruct H as [-> ->]. repeat split; [constructor|].
    intros j p Hj. destruct j; discriminate.
  - apply bind_inv_Ok in H. destruct H as (p & w1 & Hp & H).
    apply bind_inv_Ok in H. destruct H as (r & w2 & Hr & H).
    apply ret_inv in H. destruct H as [-> ->].
    rewrite new_ParameterInfo_run in Hp. injection Hp as Hp <-.
    destruct (ParameterInfo_init_fields _ _ _ _ _ Hp) as [Hoid _].
    apply IH in Hr. destruct Hr as (Hall & Hnth & Hm). repeat split.
    + constructor; [now rewrite Hoid | exact Hall].
    + intros [|j] q Hj; simpl in Hj.
      * inversion Hj; subst. lia.
      * rewrite (Hnth j q Hj). simpl. lia.
    + exact Hm.
Qed.

Lemma mapM_raises_at : forall A B (f : A -> M B) l x,
  In x l -> (forall w, is_raise (fst (f x w))) ->
  forall w, is_raise (fst (mapM f l w)).
Proof.
  intros A B f. induction l as [|y l IH]; intros x Hx Hf w; [contradiction|].
  simpl. unfold bind at 1.
  destruct (f y w) as [[e|b] w1] eqn:Hy; [exact I|].
  destruct Hx as [->|Hx].
  - specialize (Hf w). now rewrite Hy in Hf.
  - unfold bind. specialize (IH x Hx Hf w1).
    destruct (mapM f l w1) as [[e|bs] w2]; [exact I|contradiction].
Qed.

Lemma lstrip_all_space : forall s, all_space s = true -> lstrip s = "".
Proof.
  induction s as [|c s IH]; simpl; auto.
  intro H. apply andb_true_iff in H. destruct H as [Hc Hs].
  rewrite Hc. auto.
Qed.

Lemma _get_param_info_sound : forall (np : string -> option Dtype) s c w ps w',
  param_memo_sound np w ->
  _get_param_info np s c w = (Ok ps, w') ->
  params_describe np s c ps /\ param_memo_sound np w'.
Proof.
  intros np s c w ps w' Hs H.
  assert (Hbody : forall ps w1,
            _get_param_info_body np (s, c) w = (Ok ps, w1) ->
            params_describe np s c ps /\ w_param_memo w1 = w_param_memo w).
  { intros ps0 w1 H0. unfold _get_param_info_body, params_describe in *.
    destruct (String.length s =? 0)%nat.
    - apply ret_inv in H0. destruct H0 as [-> ->]. auto.
    - apply mapM_new_ParameterInfo in H0. destruct H0 as (H0 & _ & Hm).
      auto. }
  unfold _get_param_info, memoize_shared in H.
  destruct (dict_get param_key_eq_dec (w_param_memo w) (s, c)) as [r|]
    eqn:Hg.
  - injection H as <- <-. split; [now apply Hs | exact Hs].
  - destruct (_get_param_info_body np (s, c) w) as [[e|r] w1] eqn:Hb;
      [discriminate|].
    injection H as <- <-. destruct (Hbody r w1 eq_refl) as [Hd Hm].
    split; [exact Hd|].
    intros s2 c2 ps2 Hg2. simpl in Hg2. rewrite dict_get_set in Hg2.
    destruct (param_key_eq_dec (s2, c2) (s, c)) as [E|_].
    + inversion E; subst. now inversion Hg2; subst.
    + apply Hs. now rewrite <- Hm.
Qed.

(** X10.  [_get_param_info] returns no descriptor for the empty string; from a
    memo whose entries are results of its body, a call that returns gives
    one descriptor per comma-separated entry of the stripped string, in
    order, each what [ParameterInfo] makes of its entry with the
    [is_const] passed, and leaves the memo such.  A string of whitespace
    only is not the empty string: its single entry has no token and the
    call raises [Exception('Syntax error: ')]; so does, with the entry in
    the message or an earlier error, any string with an entry of fewer
    than two words, such as the one a trailing comma leaves. *)
Theorem _get_param_info_entries :
  forall (np : string -> option Dtype) s c w,
    param_memo_sound np w ->
    (forall ps w',
        _get_param_info np s c w = (Ok ps, w') ->
        params_describe np s c ps
        /\ Forall (fun p => p_is_const p
                            = match c with Some b => b | None => false end) ps
        /\ param_memo_sound np w')
    /\ (s = "" -> fst (_get_param_info np s c w) = Ok [])
    /\ (s <> "" -> all_space s = true ->
        fst (_get_param_info np s c w)
        = Raise (Exception "Syntax error: "))
    /\ (forall entry,
           s <> "" ->
           In entry (str_split_on "," (str_strip s)) ->
           List.length (param_tokens entry) < 2 ->
           is_raise (fst (_get_param_info np s c w))).
Proof.
  intros np s c w Hs.
  assert (Hconst : forall ps, params_describe np s c ps ->
            Forall (fun p => p_is_const p
                             = match c with Some b => b | None => false end)
              ps).
  { unfold params_describe. intros ps Hd.
    destruct (String.length s =? 0)%nat; [subst; constructor|].
    induction Hd as [|e p es ps He _ IH]; constructor; auto.
    now apply ParameterInfo_init_fields in He. }
  assert (Hmiss : forall e,
            s <> "" ->
            (forall w0, fst (_get_param_info_body np (s, c) w0) = Raise e) ->
            fst (_get_param_info np s c w) = Raise e).
  { intros e Hne Hr. unfold _get_param_info, memoize_shared.
    destruct (dict_get param_key_eq_dec (w_param_memo w) (s, c)) as [ps|]
      eqn:Hg.
    - exfalso. apply Hs in Hg. unfold params_describe in Hg.
      destruct s as [|a s']; [contradiction|]. simpl in Hg.
      specialize (Hr w). unfold _get_param_info_body in Hr. simpl in Hr.
      assert (Hok : forall entries ps0 w0,
                Forall2 (fun entry p =>
                           ParameterInfo_init np (p_oid p) entry
                             (match c with Some b => b | None => false end)
                           = Ok p) entries ps0 ->
                exists r w1,
                  mapM (new_ParameterInfo np
                          (match c with Some b => b | None => false end))
                    entries w0 = (Ok r, w1)).
      { intros entries ps0 w0 F. revert w0.
        induction F as [|e0 p es ps1 He _ IH]; intro w0.
        - simpl. unfold ret. eauto.
        - simpl. unfold bind at 1. rewrite new_ParameterInfo_run.
          rewrite (ParameterInfo_init_oid _ _ (w_next w0) _ _ _ He).
          cbn [Ok]. unfold bind.
          destruct (IH (set_next (S (w_next w0)) w0)) as (r & w1 & ->).
          cbn. unfold ret. eauto. }
      destruct (Hok _ _ w Hg) as (r & w1 & E). rewrite E in Hr.
      discriminate.
    - specialize (Hr w).
      destruct (_get_param_info_body np (s, c) w) as [[e'|r] w1];
        simpl in *; [exact Hr | discriminate]. }
  split; [|split; [|split]].
  - intros ps w' H.
    destruct (_get_param_info_sound np s c w ps w' Hs H) as [Hd Hs'].
    split; [exact Hd|]. split; [now apply Hconst | exact Hs'].
  - intros ->. unfold _get_param_info, memoize_shared.
    destruct (dict_get param_key_eq_dec (w_param_memo w) ("", c)) as [r|]
      eqn:Hg.
    + apply Hs in Hg. simpl in *. now rewrite Hg.
    + reflexivity.
  - intros Hne Hsp. apply Hmiss; [exact Hne|]. intro w0.
    unfold _get_param_info_body.
    destruct s as [|a s']; [contradiction|]. cbn [String.length Nat.eqb].
    unfold str_strip. rewrite (lstrip_all_space _ Hsp). reflexivity.
  - intros entry Hne Hin Hshort.
    assert (Hr : forall w0,
              is_raise (fst (_get_param_info_body np (s, c) w0))).
    { intro w0. unfold _get_param_info_body.
      destruct s as [|a s']; [contradiction|]. cbn [String.length Nat.eqb].
      apply (mapM_raises_at _ _ _ _ entry Hin). intro w1.
      rewrite new_ParameterInfo_run. simpl.
      now rewrite ParameterInfo_init_short. }
    unfold _get_param_info, memoize_shared.
    destruct (dict_get param_key_eq_dec (w_param_memo w) (s, c)) as [ps|]
      eqn:Hg.
    + exfalso. apply Hs in Hg. unfold params_describe in Hg.
      destruct s as [|a s']; [contradiction|]. simpl in Hg.
      clear Hr. induction Hg as [|e0 p es ps1 He _ IH]; [contradiction|].
      destruct Hin as [->|Hin]; [|auto].
      rewrite ParameterInfo_init_short in He by exact Hshort. discriminate.
    + specialize (Hr w).
      destruct (_get_param_info_body np (s, c) w) as [[e|r] w1];
        simpl in *; [exact I|contradiction].
Qed.

Lemma initial_param_memo_sound : forall np d,
  param_memo_sound np (initial_world d).
Proof. intros np d s c ps H. discriminate. Qed.

Lemma _get_param_info_entries_witness :
  fst (_get_param_info numpy_dtype_excerpt "  " None (initial_world 0))
  = Raise (Exception "Syntax error: ")
  /\ is_raise
       (fst (_get_param_info numpy_dtype_excerpt "T x," (Some true)
               (initial_world 0))).
Proof.
  split.
  - apply (proj1 (proj2 (proj2 (_get_param_info_entries numpy_dtype_excerpt
                                  "  " None (initial_world 0)
                                  (initial_param_memo_sound _ 0)))));
      [discriminate | reflexivity].
  - apply (proj2 (proj2 (proj2 (_get_param_info_entries numpy_dtype_excerpt
                                  "T x," (Some true) (initial_world 0)
                                  (initial_param_memo_sound _ 0)))) "").
    + discriminate.
    + vm_compute. auto.
    + vm_compute. lia.
Defined.

(** ** What [ElementwiseKernel.__init__] builds *)

(** X11.  From a memo whose entries are results of [_get_param_info], a
    construction that returns has parsed its input string with
    [is_const=True], its output string with [is_const=False];
    [nin] and [nout] count those descriptors; [params] is inputs, then
    outputs, then the single indexer slot [_ind], which is neither raw
    nor const and has neither dtype nor tag; no input or output is named
    [i]; the other attributes are the arguments as passed. *)
Theorem ElementwiseKernel_init_postcondition :
  forall (np : string -> option Dtype) in_s out_s op nm rd pre kw w self w',
    param_memo_sound np w ->
    ElementwiseKernel_init np in_s out_s op nm rd pre kw w = (Ok self, w') ->
    params_describe np in_s (Some true) (in_params self)
    /\ params_describe np out_s None (out_params self)
    /\ nin self = List.length (in_params self)
    /\ nout self = List.length (out_params self)
    /\ (exists oid,
          params self
          = in_params self ++ out_params self
            ++ [mkParameterInfo oid "_ind" None None false false])
    /\ ~ In "i" (map p_name (in_params self ++ out_params self))
    /\ operation self = op /\ name self = nm /\ reduce_dims self = rd
    /\ preamble self = pre /\ kwargs self = kw
    /\ param_memo_sound np w'.
Proof.
  intros np in_s out_s op nm rd pre kw w self w' Hs H.
  unfold ElementwiseKernel_init in H.
  apply bind_inv_Ok in H. destruct H as (ins & w1 & Hin & H).
  apply bind_inv_Ok in H. destruct H as (outs & w2 & Hout & H).
  apply bind_inv_Ok in H. destruct H as (rest & w3 & Hrest & H).
  destruct (_get_param_info_sound np _ _ _ _ _ Hs Hin) as (Hdi & Hs1).
  destruct (_get_param_info_sound np _ _ _ _ _ Hs1 Hout) as (Hdo & Hs2).
  destruct (_get_param_info_sound np _ _ _ _ _ Hs2 Hrest) as (Hdr & Hs3).
  destruct (existsb (String.eqb "i") (map p_name (ins ++ outs))) eqn:Hi;
    [discriminate|].
  apply ret_inv in H. destruct H as [-> ->]. simpl.
  repeat split; auto.
  - unfold params_describe in Hdr.
    replace (str_split_on "," (str_strip "CIndexer _ind"))
      with ["CIndexer _ind"] in Hdr by (vm_compute; reflexivity).
    simpl in Hdr. inversion Hdr as [|e p es ps Hp Hnil]; subst.
    inversion Hnil; subst. rewrite indexer_slot_entry in Hp.
    exists (p_oid p). inversion Hp as [E]. rewrite <- E at 1. reflexivity.
  - intro Hin'. apply existsb_name_i in Hin'. congruence.
Qed.

Lemma ElementwiseKernel_init_postcondition_witness :
  nin copy_kernel = 1 /\ nout copy_kernel = 1
  /\ exists oid,
       params copy_kernel
       = in_params copy_kernel ++ out_params copy_kernel
         ++ [mkParameterInfo oid "_ind" None None false false].
Proof.
  assert (E : ElementwiseKernel_init numpy_dtype_excerpt "T x" "T y" "y = x"
                "copy" true "" no_kwargs (initial_world 0)
              = (Ok copy_kernel, world_after_copy_kernel))
    by (vm_compute; reflexivity).
  destruct (ElementwiseKernel_init_postcondition numpy_dtype_excerpt
              "T x" "T y" "y = x" "copy" true "" no_kwargs (initial_world 0)
              copy_kernel world_after_copy_kernel
              (initial_param_memo_sound _ 0) E)
    as (_ & _ & Hnin & Hnout & Hparams & _).
  split; [exact Hnin|]. split; [exact Hnout | exact Hparams].
Defined.

(** ** Compilation failures and shared sources *)

Lemma get_elementwise_miss : forall nvcc k src w,
  elementwise_source k = Ok src ->
  dict_get elementwise_key_eq_dec (w_elementwise_memo w (w_device w)) k
  = None ->
  get_elementwise nvcc k w
  = match _get_simple_elementwise_kernel nvcc (sk_params src)
            (sk_operation src) (sk_name src) (sk_preamble src)
            (sk_kwargs src) (set_synthesized (S (w_synthesized w)) w) with
    | (inl e, w') => (inl e, w')
    | (inr h, w') =>
        (Ok h,
         store_elementwise
           (dev_memo_set elementwise_key_eq_dec (w_elementwise_memo w')
              (w_device w) k h) w')
    end.
Proof.
  intros nvcc k src w Hsrc Hmiss.
  unfold get_elementwise, _get_elementwise_kernel, memoize.
  rewrite elementwise_key_eta, Hmiss.
  unfold _get_elementwise_kernel_body, bind, tick_synthesized, lift.
  rewrite Hsrc. reflexivity.
Qed.

Lemma _get_simple_elementwise_kernel_miss : forall nvcc src w,
  dict_get simple_key_eq_dec (w_simple_memo w (w_device w)) src = None ->
  _get_simple_elementwise_kernel nvcc (sk_params src) (sk_operation src)
    (sk_name src) (sk_preamble src) (sk_kwargs src) w
  = if nvcc (module_code_of src) (options_of src)
    then
      (Ok (w_next w),
       store_simple
         (dev_memo_set simple_key_eq_dec (w_simple_memo w) (w_device w) src
            (w_next w))
         (set_compiled
            (w_compiled w
             ++ [mkcompile (w_device w) (module_code_of src) (sk_name src)
                   (options_of src) (w_next w)])
            (set_next (S (w_next w)) w)))
    else (Raise (CompileError (sk_name src)), w).
Proof.
  intros nvcc src w Hmiss. unfold _get_simple_elementwise_kernel, memoize.
  rewrite simple_key_eta, Hmiss.
  unfold _get_simple_elementwise_kernel_body, compile_and_get_function.
  fold (module_code_of src). fold (options_of src).
  destruct (nvcc (module_code_of src) (options_of src)); reflexivity.
Qed.

Lemma _get_simple_elementwise_kernel_hit : forall nvcc src w h,
  dict_get simple_key_eq_dec (w_simple_memo w (w_device w)) src = Some h ->
  _get_simple_elementwise_kernel nvcc (sk_params src) (sk_operation src)
    (sk_name src) (sk_preamble src) (sk_kwargs src) w
  = (Ok h, w).
Proof.
  intros nvcc src w h Hhit. unfold _get_simple_elementwise_kernel, memoize.
  now rewrite simple_key_eta, Hhit.
Qed.


(** X13.  Two signatures that assemble the same source share one compiled
    function.  After a call of [_get_elementwise_kernel] that returned a
    handle for a signature [k1] not yet cached, a call for another
    signature [k2], not cached either but with the same source, parameter
    text, name, preamble and keyword arguments, returns the same handle
    and compiles nothing. *)
Theorem same_source_shares_the_compiled_function :
  forall (nvcc : string -> list string -> bool) k1 k2 src w h w1,
    elementwise_source k1 = Ok src ->
    elementwise_source k2 = Ok src ->
    k1 <> k2 ->
    dict_get elementwise_key_eq_dec (w_elementwise_memo w (w_device w)) k1
    = None ->
    dict_get elementwise_key_eq_dec (w_elementwise_memo w (w_device w)) k2
    = None ->
    get_elementwise nvcc k1 w = (Ok h, w1) ->
    exists w2,
      get_elementwise nvcc k2 w1 = (Ok h, w2)
      /\ w_compiled w2 = w_compiled w1
      /\ w_synthesized w2 = S (w_synthesized w1).
Proof.
  intros nvcc k1 k2 src w h w1 Hs1 Hs2 Hne Hm1 Hm2 H.
  rewrite (get_elementwise_miss nvcc k1 src w Hs1 Hm1) in H.
  set (wt := set_synthesized (S (w_synthesized w)) w) in *.
  assert (Hstored : exists w',
             w1 = store_elementwise
                    (dev_memo_set elementwise_key_eq_dec
                       (w_elementwise_memo w') (w_device w) k1 h) w'
             /\ w_device w' = w_device w
             /\ w_elementwise_memo w' = w_elementwise_memo w
             /\ dict_get simple_key_eq_dec (w_simple_memo w' (w_device w)) src
                = Some h).
  { destruct (dict_get simple_key_eq_dec (w_simple_memo wt (w_device wt)) src)
      as [h0|] eqn:Hg.
    - rewrite (_get_simple_elementwise_kernel_hit nvcc src wt h0 Hg) in H.
      injection H as <- <-. exists wt. repeat split. exact Hg.
    - rewrite _get_simple_elementwise_kernel_miss in H by exact Hg.
      destruct (nvcc (module_code_of src) (options_of src)); [|discriminate].
      injection H as <- <-.
      match goal with
      | |- exists w', store_elementwise _ ?X = _ /\ _ => exists X
      end.
      split; [reflexivity|].
      repeat split. simpl. rewrite dev_memo_get_set.
      destruct (Z.eq_dec (w_device w) (w_device w)); [|congruence].
      destruct (simple_key_eq_dec src src); [reflexivity|congruence]. }
  destruct Hstored as (w' & -> & Hdev & Hmemo & Hsimple).
  set (w1 := store_elementwise _ w').
  assert (Hm2' : dict_get elementwise_key_eq_dec
                   (w_elementwise_memo w1 (w_device w1)) k2 = None).
  { subst w1. simpl. rewrite Hdev, dev_memo_get_set.
    destruct (Z.eq_dec (w_device w) (w_device w)); [|congruence].
    destruct (elementwise_key_eq_dec k2 k1); [congruence|].
    now rewrite Hmemo. }
  rewrite (get_elementwise_miss nvcc k2 src w1 Hs2 Hm2').
  rewrite (_get_simple_elementwise_kernel_hit nvcc src _ h).
  - eexists. repeat split.
  - subst w1. simpl. now rewrite Hdev.
Qed.


Lemma same_source_shares_the_compiled_function_witness :
  let w1 := snd (get_elementwise nvcc_accepts_all copy_signature
                   (initial_world 0)) in
  fst (get_elementwise nvcc_accepts_all copy_signature_again w1) = Ok 0
  /\ w_compiled
       (snd (get_elementwise nvcc_accepts_all copy_signature_again w1))
     = w_compiled w1.
Proof.
  intro w1.
  destruct (elementwise_source copy_signature) as [e|src] eqn:Hs;
    [vm_compute in Hs; discriminate|].
  assert (Hs2 : elementwise_source copy_signature_again = Ok src)
    by (transitivity (elementwise_source copy_signature);
        [vm_compute; reflexivity | exact Hs]).
  assert (E : get_elementwise nvcc_accepts_all copy_signature
                (initial_world 0) = (Ok 0, w1))
    by (subst w1; vm_compute; reflexivity).
  destruct (same_source_shares_the_compiled_function nvcc_accepts_all
              copy_signature copy_signature_again src (initial_world 0)
              0 w1 Hs Hs2 ltac:(discriminate) eq_refl eq_refl E)
    as (w2 & E2 & Hc & _).
  rewrite E2. split; [reflexivity | exact Hc].
Defined.

(** ** [cuda/device.py]: the [with] statement on a device *)

Lemma rev_snoc_inv : forall A (l : list A) x,
  rev (l ++ [x]) = x :: rev l.
Proof. intros. now rewrite rev_app_distr. Qed.

(** X19.  [with dev: body] switches to [dev] for the body and back afterwards.
    The body starts with [dev.id] current.  If the body leaves the
    object's stack as it found it (it does not use the object, or only in
    [with] statements of its own), then whatever device the body made
    current and whether it returned or raised, after the statement the
    device that was current before it is current again, the stack of the
    object is what it was, and nothing else in the interpreter state is
    touched by entering and leaving. *)
Theorem Device_with_restores_current_device :
  forall A (self : Device)
         (body : Device -> World -> Result A * (Device * World))
         w r self2 w2,
    body (fst (Device_enter self w)) (snd (Device_enter self w))
    = (r, (self2, w2)) ->
    Device_stack self2 = Device_stack (fst (Device_enter self w)) ->
    w_device (snd (Device_enter self w)) = Device_id self
    /\ Device_with self body w
       = (r, (mkDevice (Device_id self2) (Device_stack self),
              set_device (w_device w) w2)).
Proof.
  intros A self body w r self2 w2 Hb Hst. split; [reflexivity|].
  unfold Device_with.
  destruct (Device_enter self w) as [self1 w1] eqn:He. simpl in Hb, Hst.
  rewrite Hb. unfold Device_exit. rewrite Hst.
  unfold Device_enter in He. injection He as <- <-. simpl.
  rewrite rev_snoc_inv, rev_involutive. simpl. unfold Device_init. simpl.
  reflexivity.
Qed.

Lemma Device_with_restores_current_device_witness :
  let body := fun (d : Device) (w : World) =>
                (Ok tt, (d, Device_use 3 w)) in
  Device_with (Device_new (Arg_int 1) (initial_world 0)) body
    (initial_world 0)
  = (Ok tt, (mkDevice 1 [], initial_world 0)).
Proof.
  intro body.
  apply (proj2 (Device_with_restores_current_device unit
                  (Device_new (Arg_int 1) (initial_world 0)) body
                  (initial_world 0) (Ok tt) _ _ eq_refl eq_refl)).
Defined.

(** X20.  Leaving a device that was not entered raises [IndexError]: the stack
    is empty.  Entering then leaving, in any nesting on the same object,
    is balanced: [__exit__] right after [__enter__] gives back the object
    and the current device. *)
Theorem Device_exit_needs_enter :
  forall self w,
    (Device_stack self = [] ->
     Device_exit self w = Raise (IndexError "pop from empty list"))
    /\ Device_exit (fst (Device_enter self w)) (snd (Device_enter self w))
       = Ok (self, set_device (w_device w) w).
Proof.
  intros [id st] w. split.
  - simpl. intros ->. reflexivity.
  - unfold Device_exit, Device_enter. simpl.
    rewrite rev_snoc_inv, rev_involutive. simpl. unfold Device_init. simpl.
    unfold Device_use. destruct w; reflexivity.
Qed.

(** Equality of devices is equality of their ids: it ignores the stack, is
    reflexive, symmetric and transitive, [!=] is its negation, and a
    device is never equal to a value that is not a [Device]. *)
Theorem Device_eq_is_by_id :
  (forall a b, Device_eq a (C_Device b) = true <-> Device_id a = Device_id b)
  /\ (forall a, Device_eq a (C_Device a) = true)
  /\ (forall a b, Device_eq a (C_Device b) = Device_eq b (C_Device a))
  /\ (forall a b c, Device_eq a (C_Device b) = true ->
                    Device_eq b (C_Device c) = true ->
                    Device_eq a (C_Device c) = true)
  /\ (forall a o, Device_ne a o = negb (Device_eq a o))
  /\ (forall a v, Device_eq a (C_other v) = false
                  /\ Device_ne a (C_other v) = true).
Proof.
  unfold Device_ne, Device_eq. repeat split.
  - apply Z.eqb_eq.
  - apply Z.eqb_eq.
  - intro a. apply Z.eqb_refl.
  - intros a b. apply Z.eqb_sym.
  - intros a b c H1 H2. apply Z.eqb_eq in H1, H2. apply Z.eqb_eq. congruence.
Qed.

(** ** [cuda/device.py]: the memoizing decorator *)

Section DeviceMemoizeFacts.
Variables K R S : Type.
Variable key_eq_dec : forall a b : K, {a = b} + {a <> b}.

Local Abbreviation reg_t := (registry K R).
Local Abbreviation func := (@memoize_func K R S key_eq_dec).

Lemma hasattr_register : forall (reg : reg_t) f g,
  hasattr_memo (register reg f) g
  = if Nat.eq_dec g f then true else hasattr_memo reg g.
Proof.
  intros reg f g. unfold hasattr_memo, register. simpl.
  destruct (Nat.eq_dec g f); reflexivity.
Qed.

Lemma hasattr_memo_store : forall (reg : reg_t) f dev k r g,
  hasattr_memo (memo_store key_eq_dec reg f dev k r) g = hasattr_memo reg g.
Proof.
  intros reg f dev k r g. unfold hasattr_memo, memo_store. simpl.
  destruct (Nat.eq_dec g f) as [->|]; [|reflexivity].
  destruct (_cupy_dev_memo reg f); reflexivity.
Qed.

Lemma memo_of_store : forall (reg : reg_t) f dev k r g d,
  hasattr_memo reg f = true ->
  memo_of (memo_store key_eq_dec reg f dev k r) g d
  = if Nat.eq_dec g f
    then (if Z.eq_dec d dev
          then dict_set key_eq_dec (memo_of reg f dev) k r
          else memo_of reg f d)
    else memo_of reg g d.
Proof.
  intros reg f dev k r g d Hh. unfold memo_of, memo_store, hasattr_memo in *.
  simpl. destruct (Nat.eq_dec g f) as [->|]; [|reflexivity].
  destruct (_cupy_dev_memo reg f); [|discriminate].
  destruct (Z.eq_dec d dev) as [->|]; reflexivity.
Qed.

Lemma hasattr_ensured : forall (reg : reg_t) f,
  hasattr_memo (ensured reg f) f = true.
Proof.
  intros reg f. unfold ensured.
  destruct (hasattr_memo reg f) eqn:E; [exact E|].
  rewrite hasattr_register. destruct (Nat.eq_dec f f); congruence.
Qed.

Lemma ensured_idem : forall (reg : reg_t) f,
  hasattr_memo reg f = true -> ensured reg f = reg.
Proof. intros reg f H. unfold ensured. now rewrite H. Qed.

Lemma memoize_func_unfold : forall fid body dev k (reg : reg_t) (s : S),
  func fid body dev k (reg, s)
  = match dict_get key_eq_dec (memo_of (ensured reg fid) fid dev) k with
    | Some (Some result) => (Ok (Some result), (ensured reg fid, s))
    | _ =>
        match body k s with
        | (inl e, s') => (inl e, (ensured reg fid, s'))
        | (inr result, s') =>
            (Ok result,
             (memo_store key_eq_dec (ensured reg fid) fid dev k result, s'))
        end
    end.
Proof. reflexivity. Qed.

(** What is stored for a key after a call that returned. *)
Lemma memoize_func_stored : forall fid body dev k (reg : reg_t) (s : S)
    r reg' s',
  func fid body dev k (reg, s) = (Ok r, (reg', s')) ->
  hasattr_memo reg' fid = true
  /\ (forall v, r = Some v ->
                dict_get key_eq_dec (memo_of reg' fid dev) k = Some (Some v))
  /\ (r = None ->
      dict_get key_eq_dec (memo_of reg' fid dev) k = Some None)
  /\ (forall d, d <> dev -> memo_of reg' fid d = memo_of reg fid d
                            \/ (hasattr_memo reg fid = false
                                /\ memo_of reg' fid d = [])).
Proof.
  intros fid body dev k reg s r reg' s' H.
  rewrite memoize_func_unfold in H.
  pose proof (hasattr_ensured reg fid) as Hh.
  assert (Hframe : forall d,
            memo_of (ensured reg fid) fid d = memo_of reg fid d
            \/ (hasattr_memo reg fid = false
                /\ memo_of (ensured reg fid) fid d = [])).
  { intro d. unfold ensured. destruct (hasattr_memo reg fid) eqn:E;
      [now left|]. right. split; [reflexivity|].
    unfold memo_of, register. simpl.
    destruct (Nat.eq_dec fid fid); [reflexivity|congruence]. }
  destruct (dict_get key_eq_dec (memo_of (ensured reg fid) fid dev) k)
    as [[v|]|] eqn:Hg.
  - injection H as <- <- <-. repeat split; auto.
    + intros v0 E. inversion E; subst. exact Hg.
    + discriminate.
  - destruct (body k s) as [[e|r0] s0]; [discriminate|].
    injection H as <- <- <-.
    rewrite hasattr_memo_store. split; [exact Hh|].
    assert (Hst : dict_get key_eq_dec
                    (memo_of (memo_store key_eq_dec (ensured reg fid) fid
                                dev k r0) fid dev) k = Some r0).
    { rewrite memo_of_store by exact Hh.
      destruct (Nat.eq_dec fid fid); [|congruence].
      destruct (Z.eq_dec dev dev); [|congruence].
      apply dict_get_set_same. }
    repeat split.
    + intros v ->. exact Hst.
    + intros ->. exact Hst.
    + intros d Hd. rewrite memo_of_store by exact Hh.
      destruct (Nat.eq_dec fid fid); [|congruence].
      destruct (Z.eq_dec d dev); [contradiction|]. apply Hframe.
  - destruct (body k s) as [[e|r0] s0]; [discriminate|].
    injection H as <- <- <-.
    rewrite hasattr_memo_store. split; [exact Hh|].
    assert (Hst : dict_get key_eq_dec
                    (memo_of (memo_store key_eq_dec (ensured reg fid) fid
                                dev k r0) fid dev) k = Some r0).
    { rewrite memo_of_store by exact Hh.
      destruct (Nat.eq_dec fid fid); [|congruence].
      destruct (Z.eq_dec dev dev); [|congruence].
      apply dict_get_set_same. }
    repeat split.
    + intros v ->. exact Hst.
    + intros ->. exact Hst.
    + intros d Hd. rewrite memo_of_store by exact Hh.
      destruct (Nat.eq_dec fid fid); [|congruence].
      destruct (Z.eq_dec d dev); [contradiction|]. apply Hframe.
Qed.

(** X21.  After a call of a memoized function that returned [r] while device
    [dev] was current: if [r] is not [None], a call with the same key
    under the same device returns [r] without running the function and
    without changing anything, whatever the function would do now; if
    [r] is [None] the function is run again, since the decorator cannot
    tell a cached [None] from a missing entry; and under another device,
    for which the key had no entry, the function is run again too: what
    is cached is cached for one device. *)
Theorem memoize_caches_per_device_except_None :
  forall fid body dev k (reg : reg_t) (s : S) r reg' s',
    func fid body dev k (reg, s) = (Ok r, (reg', s')) ->
    (forall v, r = Some v ->
       forall body2 s2,
         func fid body2 dev k (reg', s2) = (Ok (Some v), (reg', s2)))
    /\ (r = None ->
        forall body2 s2,
          func fid body2 dev k (reg', s2)
          = match body2 k s2 with
            | (inl e, s3) => (inl e, (reg', s3))
            | (inr r2, s3) =>
                (Ok r2, (memo_store key_eq_dec reg' fid dev k r2, s3))
            end)
    /\ (forall dev',
          dev' <> dev ->
          dict_get key_eq_dec (memo_of reg fid dev') k = None ->
          forall body2 s2,
            func fid body2 dev' k (reg', s2)
            = match body2 k s2 with
              | (inl e, s3) => (inl e, (reg', s3))
              | (inr r2, s3) =>
                  (Ok r2, (memo_store key_eq_dec reg' fid dev' k r2, s3))
              end).
Proof.
  intros fid body dev k reg s r reg' s' H.
  destruct (memoize_func_stored _ _ _ _ _ _ _ _ _ H) as (Hh & Hv & Hn & Hf).
  split; [|split].
  - intros v Hr body2 s2. rewrite memoize_func_unfold.
    rewrite (ensured_idem _ _ Hh), (Hv v Hr). reflexivity.
  - intros Hr body2 s2. rewrite memoize_func_unfold.
    rewrite (ensured_idem _ _ Hh), (Hn Hr). reflexivity.
  - intros dev' Hd Hmiss body2 s2. rewrite memoize_func_unfold.
    rewrite (ensured_idem _ _ Hh).
    assert (Hg : dict_get key_eq_dec (memo_of reg' fid dev') k = None).
    { destruct (Hf dev' Hd) as [E|[_ E]]; rewrite E;
        [exact Hmiss | reflexivity]. }
    rewrite Hg. reflexivity.
Qed.

Lemma clear_loop_spec : forall funcs (memo : nat -> option (Z -> dict K (option R))),
  NoDup funcs ->
  (forall g, In g funcs -> memo g <> None) ->
  exists memo',
    clear_loop funcs memo = (Ok tt, memo')
    /\ forall g, memo' g = if existsb (Nat.eqb g) funcs then None else memo g.
Proof.
  induction funcs as [|f funcs IH]; intros memo Hnd Hall.
  - exists memo. split; reflexivity.
  - inversion Hnd as [|? ? Hnotin Hnd']; subst. simpl.
    destruct (memo f) as [m|] eqn:Hf;
      [|exfalso; apply (Hall f); [now left | exact Hf]].
    destruct (IH (fun g => if Nat.eq_dec g f then None else memo g) Hnd')
      as (memo' & Hc & Hm).
    + intros g Hg. destruct (Nat.eq_dec g f) as [->|]; [contradiction|].
      apply Hall. now right.
    + exists memo'. split; [exact Hc|]. intro g. rewrite Hm.
      destruct (Nat.eqb_spec g f) as [->|Hne]; simpl.
      * destruct (existsb (Nat.eqb f) funcs); [reflexivity|].
        destruct (Nat.eq_dec f f); [reflexivity|congruence].
      * destruct (existsb (Nat.eqb g) funcs); [reflexivity|].
        destruct (Nat.eq_dec g f); [contradiction|reflexivity].
Qed.

Lemma registry_inv_empty : registry_inv (@empty_registry K R).
Proof.
  split; [constructor|]. intro g. simpl. split; [contradiction|discriminate].
Qed.

Lemma registry_inv_ensured : forall (reg : reg_t) f,
  registry_inv reg -> registry_inv (ensured reg f).
Proof.
  intros reg f [Hnd Hiff]. unfold ensured.
  destruct (hasattr_memo reg f) eqn:E; [split; assumption|].
  split.
  - simpl. apply NoDup_app; [exact Hnd | repeat constructor; intros [] |].
    intros g Hg [<-|[]]. apply Hiff in Hg. congruence.
  - intro g. rewrite hasattr_register. simpl. rewrite in_app_iff, Hiff.
    simpl. destruct (Nat.eq_dec g f) as [->|Hne].
    + split; auto.
    + split; [intros [?|[?|[]]]; [assumption|congruence] | auto].
Qed.

Lemma registry_inv_store : forall (reg : reg_t) f dev k r,
  registry_inv reg -> registry_inv (memo_store key_eq_dec reg f dev k r).
Proof.
  intros reg f dev k r [Hnd Hiff]. split; [exact Hnd|].
  intro g. rewrite hasattr_memo_store. apply Hiff.
Qed.

Lemma registry_inv_call : forall fid body dev k (reg : reg_t) (s : S),
  registry_inv reg -> registry_inv (fst (snd (func fid body dev k (reg, s)))).
Proof.
  intros fid body dev k reg s Hinv. rewrite memoize_func_unfold.
  pose proof (registry_inv_ensured reg fid Hinv) as He.
  destruct (dict_get key_eq_dec _ k) as [[v|]|];
    try exact He;
    destruct (body k s) as [[e|r0] s0]; simpl;
    auto using registry_inv_store.
Qed.

Lemma clear_under_inv : forall (reg : reg_t),
  registry_inv reg ->
  exists memo',
    clear_device_dependent_memo reg = (Ok tt, mkregistry [] memo')
    /\ forall g, memo' g = None.
Proof.
  intros reg [Hnd Hiff]. unfold clear_device_dependent_memo.
  destruct (clear_loop_spec (_memoized_funcs reg) (_cupy_dev_memo reg) Hnd)
    as (memo' & Hc & Hm).
  - intros g Hg. apply Hiff in Hg. unfold hasattr_memo in Hg.
    destruct (_cupy_dev_memo reg g); [discriminate|discriminate].
  - rewrite Hc. exists memo'. split; [reflexivity|]. intro g. rewrite Hm.
    destruct (existsb (Nat.eqb g) (_memoized_funcs reg)) eqn:E;
      [reflexivity|].
    destruct (_cupy_dev_memo reg g) eqn:Hg; [|reflexivity].
    assert (Hin : In g (_memoized_funcs reg))
      by (apply Hiff; unfold hasattr_memo; now rewrite Hg).
    assert (existsb (Nat.eqb g) (_memoized_funcs reg) = true).
    { apply existsb_exists. exists g. split; [exact Hin|].
      apply Nat.eqb_refl. }
    congruence.
Qed.

Lemma memo_run_inv : forall bodies acts (st : reg_t * S),
  registry_inv (fst st) -> registry_inv (fst (memo_run key_eq_dec bodies acts st)).
Proof.
  intros bodies. induction acts as [|a acts IH]; intros st Hinv; [exact Hinv|].
  simpl. apply IH. destruct a as [fid dev k|]; simpl.
  - destruct st as [reg s]. apply registry_inv_call. exact Hinv.
  - destruct (clear_under_inv _ Hinv) as (memo' & -> & Hm). simpl.
    split; [constructor|]. intro g. unfold hasattr_memo. simpl.
    rewrite Hm. split; [contradiction|discriminate].
Qed.

(** X22.  Whatever memoized functions a program calls and whenever it clears:
    every function is listed in [_memoized_funcs] at most once and exactly
    when it has its memo, so [clear_device_dependent_memo] never fails on
    a missing attribute; it leaves no function with a memo and an empty
    list, and the next call of any memoized function runs the function
    again. *)
Theorem clear_device_dependent_memo_forgets_everything :
  forall bodies acts (s0 : S),
    let st := memo_run key_eq_dec bodies acts (@empty_registry K R, s0) in
    registry_inv (fst st)
    /\ exists reg',
         clear_device_dependent_memo (fst st) = (Ok tt, reg')
         /\ _memoized_funcs reg' = []
         /\ (forall g, hasattr_memo reg' g = false)
         /\ forall fid body dev k s,
              func fid body dev k (reg', s)
              = match body k s with
                | (inl e, s') => (inl e, (register reg' fid, s'))
                | (inr result, s') =>
                    (Ok result,
                     (memo_store key_eq_dec (register reg' fid) fid dev k
                        result, s'))
                end.
Proof.
  intros bodies acts s0 st.
  assert (Hinv : registry_inv (fst st))
    by (apply memo_run_inv; apply registry_inv_empty).
  split; [exact Hinv|].
  destruct (clear_under_inv _ Hinv) as (memo' & Hc & Hm).
  exists (mkregistry [] memo'). split; [exact Hc|]. split; [reflexivity|].
  assert (Hno : forall g, hasattr_memo (mkregistry [] memo') g = false)
    by (intro g; unfold hasattr_memo; simpl; now rewrite Hm).
  split; [exact Hno|].
  intros fid body dev k s. rewrite memoize_func_unfold.
  unfold ensured. rewrite Hno.
  assert (Hg : dict_get key_eq_dec
                 (memo_of (register (mkregistry [] memo') fid) fid dev) k
               = None).
  { unfold memo_of, register. simpl.
    destruct (Nat.eq_dec fid fid); [reflexivity|congruence]. }
  rewrite Hg. reflexivity.
Qed.

End DeviceMemoizeFacts.

Lemma memoize_caches_per_device_except_None_witness :
  let first := memoize_func Nat.eq_dec 7 counting_body 0%Z 5
                 (empty_registry nat nat, 0) in
  let second := memoize_func Nat.eq_dec 7 counting_body 0%Z 5 (snd first) in
  fst second = Ok (Some 5) /\ snd (snd second) = 1.
Proof.
  intros first.
  destruct first as [[e|r] [reg' s']] eqn:E;
    [vm_compute in E; discriminate|].
  assert (Hr : r = Some 5) by (vm_compute in E; congruence).
  assert (Hs : s' = 1) by (vm_compute in E; congruence).
  intro second.
  assert (E2 : second = (Ok (Some 5), (reg', s'))).
  { apply (proj1 (memoize_caches_per_device_except_None nat nat nat Nat.eq_dec
                    7 counting_body 0%Z 5 (empty_registry nat nat) 0 r reg'
                    s' E) 5 Hr counting_body s'). }
  rewrite E2. split; [reflexivity | exact Hs].
Defined.

(** ** Construction of universal functions *)

Lemma split_ws_no_space : forall s cur,
  no_space s = true ->
  split_ws_from cur s
  = if str_is_empty (cur ++ s) then [] else [(cur ++ s)%string].
Proof.
  induction s as [|c s IH]; intros cur H; simpl.
  - replace (cur ++ "")%string with cur
      by (clear; induction cur; simpl; congruence).
    reflexivity.
  - simpl in H. apply andb_true_iff in H. destruct H as [Hc Hs].
    apply negb_true_iff in Hc. rewrite Hc, IH by exact Hs.
    replace ((cur ++ String c "") ++ s)%string with (cur ++ String c s)%string
      by (clear; induction cur; simpl; congruence).
    reflexivity.
Qed.

Lemma string_of_uint_no_space : forall d,
  no_space (NilEmpty.string_of_uint d) = true.
Proof. induction d; simpl; auto. Qed.

Lemma str_of_nat_no_space : forall n, no_space (str_of_nat n) = true.
Proof. intro n. apply string_of_uint_no_space. Qed.

Lemma generic_param_tokens : forall nm,
  no_space nm = true -> nm <> "" ->
  param_tokens ("T " ++ nm) = ["T"; nm].
Proof.
  intros nm Hns Hne. unfold param_tokens, str_split.
  change (split_ws_from "" ("T " ++ nm))
    with ("T" :: split_ws_from "" nm).
  rewrite split_ws_no_space by exact Hns. simpl.
  destruct nm as [|c nm]; [contradiction|]. reflexivity.
Qed.

Lemma generic_param_parses : forall np oid nm c,
  no_space nm = true -> nm <> "" ->
  ParameterInfo_init np oid ("T " ++ nm) c = Ok (generic_param oid nm c).
Proof.
  intros np oid nm c Hns Hne.
  rewrite (ParameterInfo_init_tokens np oid _ c [] "T" nm)
    by (now apply generic_param_tokens).
  reflexivity.
Qed.

Lemma mapM_generic_params : forall np c pre,
  no_space pre = true -> pre <> "" ->
  forall n a w,
    mapM (fun i => new_ParameterInfo np c ("T " ++ pre ++ str_of_nat i))
      (seq a n) w
    = (Ok (map (fun j => generic_param (w_next w + j)
                           (pre ++ str_of_nat (a + j)) c) (seq 0 n)),
       set_next (w_next w + n) w).
Proof.
  intros np c pre Hns Hne. induction n as [|n IH]; intros a w.
  - simpl. unfold ret. rewrite Nat.add_0_r. destruct w; reflexivity.
  - cbn [seq mapM]. unfold bind at 1. rewrite new_ParameterInfo_run.
    assert (Hp : no_space (pre ++ str_of_nat a) = true).
    { clear -Hns. induction pre as [|ch pre IHp]; simpl in *.
      - apply str_of_nat_no_space.
      - apply andb_true_iff in Hns. destruct Hns as [H1 H2].
        rewrite H1. simpl. auto. }
    assert (Hq : (pre ++ str_of_nat a)%string <> "")
      by (destruct pre; [contradiction|discriminate]).
    replace ("T " ++ pre ++ str_of_nat a)%string
      with ("T " ++ (pre ++ str_of_nat a))%string by reflexivity.
    rewrite generic_param_parses by assumption. cbn [Ok].
    unfold bind. rewrite IH. unfold ret. cbn [Ok map w_next set_next].
    f_equal.
    + f_equal. rewrite !Nat.add_0_r, <- seq_shift, map_map. f_equal.
      apply map_ext. intro j. unfold generic_param. f_equal; [lia|].
      f_equal. f_equal. lia.
    + destruct w; unfold set_next; simpl. f_equal. lia.
Qed.

Lemma ufunc_init_run :
  forall (np : string -> option Dtype) name nin nout ops pre w,
    exists w',
      ufunc_init np name nin nout ops pre w
      = (Ok (mkufunc (w_next w) name nin nout (nin + nout) ops pre
               (map (fun j => generic_param (w_next w + 1 + j)
                                ("in" ++ str_of_nat j) true) (seq 0 nin)
                ++ map (fun j => generic_param (w_next w + 1 + nin + j)
                                   ("out" ++ str_of_nat j) false)
                     (seq 0 nout)
                ++ [mkParameterInfo (w_next w + 1 + nin + nout) "_ind"
                      None None false false])),
         w')
      /\ w_routine_table w' (w_next w) = []
      /\ (forall o, o <> w_next w ->
                    w_routine_table w' o = w_routine_table w o)
      /\ w_next w' = w_next w + nin + nout + 2.
Proof.
  intros np name nin nout ops pre w. unfold ufunc_init.
  unfold bind at 1. unfold fresh at 1.
  unfold bind at 1.
  rewrite (mapM_generic_params np true "in" eq_refl ltac:(discriminate)).
  unfold bind at 1.
  rewrite (mapM_generic_params np false "out" eq_refl ltac:(discriminate)).
  unfold bind at 1. rewrite new_ParameterInfo_run, indexer_slot_entry.
  cbn [Ok w_next set_next].
  assert (E1 : map (fun j => generic_param (S (w_next w) + j)
                               ("in" ++ str_of_nat (0 + j)) true) (seq 0 nin)
               = map (fun j => generic_param (w_next w + 1 + j)
                                 ("in" ++ str_of_nat j) true) (seq 0 nin))
    by (apply map_ext; intro j; simpl; f_equal; lia).
  assert (E2 : map (fun j => generic_param (S (w_next w) + nin + j)
                               ("out" ++ str_of_nat (0 + j)) false)
                 (seq 0 nout)
               = map (fun j => generic_param (w_next w + 1 + nin + j)
                                 ("out" ++ str_of_nat j) false) (seq 0 nout))
    by (apply map_ext; intro j; simpl; f_equal; lia).
  assert (E3 : S (w_next w) + nin + nout = w_next w + 1 + nin + nout) by lia.
  rewrite E1, E2, E3.
  eexists. split; [reflexivity|]. split; [|split].
  - simpl. destruct (Nat.eq_dec (w_next w) (w_next w)); congruence.
  - intros o Ho. simpl. destruct (Nat.eq_dec o (w_next w)); congruence.
  - simpl. lia.
Qed.

(** X16.  [ufunc.__init__] never raises, whatever the counts and whatever numpy
    understands.  The new object has the attributes passed, [nargs = nin +
    nout], and [nin + nout + 1] descriptors, all new objects: constant
    inputs [in0], [in1], ..., then outputs [out0], [out1], ..., all with
    the generic tag [T] and none raw, then the indexer slot [_ind]; and
    its routine table is empty, the tables of other objects being left
    alone. *)
Theorem ufunc_init_builds :
  forall (np : string -> option Dtype) name nin nout ops pre w,
    exists u w',
      ufunc_init np name nin nout ops pre w = (Ok u, w')
      /\ u_oid u = w_next w /\ u_name u = name
      /\ u_nin u = nin /\ u_nout u = nout /\ u_nargs u = nin + nout
      /\ _ops u = ops /\ _preamble u = pre
      /\ List.length (_params u) = nin + nout + 1
      /\ (forall j, j < nin ->
            nth_error (_params u) j
            = Some (generic_param (w_next w + 1 + j) ("in" ++ str_of_nat j)
                      true))
      /\ (forall j, j < nout ->
            nth_error (_params u) (nin + j)
            = Some (generic_param (w_next w + 1 + nin + j)
                      ("out" ++ str_of_nat j) false))
      /\ nth_error (_params u) (nin + nout)
         = Some (mkParameterInfo (w_next w + 1 + nin + nout) "_ind" None None
                   false false)
      /\ w_routine_table w' (w_next w) = []
      /\ (forall o, o <> w_next w ->
                    w_routine_table w' o = w_routine_table w o).
Proof.
  intros np name nin nout ops pre w.
  destruct (ufunc_init_run np name nin nout ops pre w)
    as (w' & E & Hempty & Hother & _).
  eexists. exists w'. split; [exact E|]. cbn [u_oid u_name u_nin u_nout
    u_nargs _ops _preamble _params].
  assert (Hmap : forall (f : nat -> ParameterInfo) n j,
            j < n -> nth_error (map f (seq 0 n)) j = Some (f j)).
  { intros f n j Hj. rewrite nth_error_map, nth_error_seq.
    destruct (Nat.ltb_spec j n); [reflexivity | lia]. }
  repeat split; auto.
  - rewrite !length_app, !length_map, !length_seq. simpl. lia.
  - intros j Hj. rewrite nth_error_app1
      by (rewrite length_map, length_seq; exact Hj).
    now apply Hmap.
  - intros j Hj. rewrite nth_error_app2
      by (rewrite length_map, length_seq; lia).
    rewrite length_map, length_seq.
    replace (nin + j - nin) with j by lia.
    rewrite nth_error_app1 by (rewrite length_map, length_seq; exact Hj).
    now apply Hmap.
  - rewrite nth_error_app2 by (rewrite length_map, length_seq; lia).
    rewrite length_map, length_seq.
    replace (nin + nout - nin) with nout by lia.
    rewrite nth_error_app2 by (rewrite length_map, length_seq; lia).
    rewrite length_map, length_seq, Nat.sub_diag. reflexivity.
Qed.

Lemma mapR_Forall2 : forall A B (f : A -> Result B) l r,
  mapR f l = Ok r -> Forall2 (fun x y => f x = Ok y) l r.
Proof.
  induction l as [|x l IH]; intros r H; simpl in H.
  - inversion H. constructor.
  - apply rbind_inv_Ok in H. destruct H as (y & Hy & H).
    apply rbind_inv_Ok in H. destruct H as (ys & Hys & H).
    inversion H; subst. constructor; auto.
Qed.

Lemma to_dtype_Forall2 : forall (np : string -> option Dtype) l r,
  mapR (fun t => match np t with
                 | Some d => Ok d
                 | None => Raise (TypeError "data type not understood")
                 end) l = Ok r ->
  Forall2 (fun c d => np c = Some d) l r.
Proof.
  intros np l r H. apply mapR_Forall2 in H.
  induction H as [|x y l r Hxy _ IH]; constructor; auto.
  destruct (np x); inversion Hxy; reflexivity.
Qed.

Lemma create_ufunc_ops_table : forall (np : string -> option Dtype) routine
    ops table,
  create_ufunc_ops np ops routine = Ok table ->
  List.length table = List.length ops
  /\ forall j typ own,
       nth_error ops j = Some (typ, own) ->
       exists ins outs,
         nth_error table j
         = Some (ins, outs, match own with Some r => r | None => routine end)
         /\ signature_reads np typ ins outs.
Proof.
  intros np routine. induction ops as [|[typ own] ops IH]; intros table H;
    simpl in H.
  - inversion H. split; [reflexivity|]. intros j ? ? Hj.
    destruct j; discriminate.
  - apply rbind_inv_Ok in H. destruct H as ([i o] & Hio & H).
    apply rbind_inv_Ok in H. destruct H as (ins & Hins & H).
    apply rbind_inv_Ok in H. destruct H as (outs & Houts & H).
    apply rbind_inv_Ok in H. destruct H as (rest & Hrest & H).
    inversion H; subst table; clear H.
    destruct (IH _ Hrest) as [Hlen Hnth]. split; [simpl; now rewrite Hlen|].
    intros [|j] typ' own' Hj; simpl in Hj.
    + inversion Hj; subst typ' own'. exists ins, outs.
      split; [reflexivity|]. unfold signature_reads.
      simpl fst in Hins. simpl snd in Houts.
      apply to_dtype_Forall2 in Hins, Houts.
      destruct (str_split_arrow typ) as [|t [|t2 [|t3 l]]];
        try discriminate; inversion Hio; subst.
      * inversion Hins as [|? d ? ? Hd Hnil]; subst.
        inversion Hnil; subst.
        inversion Houts as [|? d' ? ? Hd' Hnil']; subst.
        inversion Hnil'; subst.
        exists d. repeat split; congruence.
      * split; assumption.
    + apply Hnth. exact Hj.
Qed.

(** X17.  [create_ufunc].  With no type string it raises [IndexError], there
    being no first routine to count arguments on.  When it returns, the
    table of the new function has one routine for each type string, in
    order, each with the dtypes its string reads as and with its own
    routine body or else the default one; and [nin], [nout] are the
    numbers of input and of output types of the first routine alone. *)
Theorem create_ufunc_table :
  forall (np : string -> option Dtype) name routine pre w,
    create_ufunc np name [] routine pre w
    = (Raise (IndexError "list index out of range"), w)
    /\ forall ops u w',
         create_ufunc np name ops routine pre w = (Ok u, w') ->
         List.length (_ops u) = List.length ops
         /\ (forall j typ own,
               nth_error ops j = Some (typ, own) ->
               exists ins outs,
                 nth_error (_ops u) j
                 = Some (ins, outs,
                         match own with Some r => r | None => routine end)
                 /\ signature_reads np typ ins outs)
         /\ (exists ins outs rt,
               nth_error (_ops u) 0 = Some (ins, outs, rt)
               /\ u_nin u = List.length ins
               /\ u_nout u = List.length outs)
         /\ u_nargs u = u_nin u + u_nout u
         /\ u_name u = name /\ _preamble u = pre.
Proof.
  intros np name routine pre w. split; [reflexivity|].
  intros ops u w' H. unfold create_ufunc in H.
  apply bind_inv_Ok in H. destruct H as (table & w1 & Ht & H).
  apply lift_inv_Ok in Ht. destruct Ht as [Ht ->].
  destruct table as [|op0 rest]; [discriminate|].
  unfold ufunc_init in H.
  apply bind_inv_Ok in H. destruct H as (oid & w2 & _ & H).
  apply bind_inv_Ok in H. destruct H as (ips & w3 & _ & H).
  apply bind_inv_Ok in H. destruct H as (ops' & w4 & _ & H).
  apply bind_inv_Ok in H. destruct H as (ind & w5 & _ & H).
  injection H as <- <-. simpl.
  destruct (create_ufunc_ops_table np routine ops _ Ht) as [Hlen Hnth].
  repeat split; auto.
  destruct op0 as [[ins outs] rt]. exists ins, outs, rt. auto.
Qed.

(** ** Dimension reduction keeps every element where it was *)

Lemma prod_app : forall a b, prod (a ++ b) = (prod a * prod b)%Z.
Proof.
  unfold prod. induction a as [|x a IH]; intro b; cbn [app fold_right].
  - lia.
  - rewrite IH. ring.
Qed.

Lemma prod_pos : forall l, Forall (fun d => 0 < d)%Z l -> (0 < prod l)%Z.
Proof.
  unfold prod. induction 1; cbn [fold_right]; lia.
Qed.

Lemma element_offset_prefix : forall pre spre X X' SX SX' k,
  List.length pre = List.length spre ->
  prod X = prod X' ->
  (element_offset (pre ++ X) (spre ++ SX) k - element_offset X SX k
   = element_offset (pre ++ X') (spre ++ SX') k - element_offset X' SX' k)%Z.
Proof.
  induction pre as [|d pre IH]; intros [|s spre] X X' SX SX' k Hlen Hp;
    try discriminate.
  - simpl. lia.
  - simpl in Hlen. injection Hlen as Hlen.
    cbn [app element_offset]. rewrite !prod_app, Hp.
    specialize (IH spre X X' SX SX' k Hlen Hp). lia.
Qed.

Lemma split_at_two : forall A (l : list A) i x y,
  nth_error l i = Some x -> nth_error l (S i) = Some y ->
  exists pre post, l = pre ++ x :: y :: post /\ List.length pre = i.
Proof.
  induction l as [|a l IH]; intros i x y Hx Hy; [destruct i; discriminate|].
  destruct i as [|i]; simpl in Hx, Hy.
  - inversion Hx; subst. destruct l as [|b l]; [discriminate|].
    inversion Hy; subst. exists [], l. auto.
  - destruct (IH i x y Hx Hy) as (pre & post & -> & Hlen).
    exists (a :: pre), post. simpl. auto.
Qed.

Lemma list_set_two : forall A (pre : list A) x y post u v,
  list_set (list_set (pre ++ x :: y :: post) (S (List.length pre)) v)
    (List.length pre) u
  = pre ++ u :: v :: post.
Proof.
  induction pre as [|a pre IH]; intros; simpl; [reflexivity|].
  now rewrite IH.
Qed.

Lemma merge_pair_offset : forall di dp si post spost k,
  (0 < di)%Z -> (0 < dp)%Z -> Forall (fun d => 0 < d)%Z post ->
  element_offset (1 :: di * dp :: post)%Z ((si * di)%Z :: si :: spost) k
  = element_offset (dp :: di :: post) ((si * di)%Z :: si :: spost) k.
Proof.
  intros di dp si post spost k Hdi Hdp Hpost.
  pose proof (prod_pos _ Hpost) as HP.
  cbn [element_offset].
  assert (E1 : prod (di * dp :: post)%Z = (dp * prod (di :: post))%Z)
    by (unfold prod; cbn [fold_right]; ring).
  assert (E2 : prod (di :: post) = (prod post * di)%Z)
    by (unfold prod; cbn [fold_right]; ring).
  rewrite Z.mod_1_r, E2.
  rewrite <- (Z.div_div k (prod post) di) by lia.
  rewrite (Z.rem_mul_r (k / prod post) di dp) by lia.
  ring.
Qed.

Lemma Forall_pos_list_set : forall (l : list Z) i v,
  Forall (fun d => 0 < d)%Z l -> (0 < v)%Z ->
  Forall (fun d => 0 < d)%Z (list_set l i v).
Proof.
  induction l as [|x l IH]; intros i v H Hv; simpl; [constructor|].
  inversion H; subst. destruct i; constructor; auto.
Qed.

Lemma merge_step_offset : forall shape st i di dp si sp k,
  nth_error shape i = Some dp -> nth_error shape (S i) = Some di ->
  nth_error st i = Some sp -> nth_error st (S i) = Some si ->
  (si * di)%Z = sp ->
  Forall (fun d => 0 < d)%Z shape ->
  element_offset (list_set (list_set shape (S i) (di * dp)%Z) i 1%Z) st k
  = element_offset shape st k.
Proof.
  intros shape st i di dp si sp k Hdp Hdi Hsp Hsi Heq Hpos.
  destruct (split_at_two _ shape i dp di Hdp Hdi) as (pre & post & -> & Hl).
  destruct (split_at_two _ st i sp si Hsp Hsi) as (spre & spost & -> & Hsl).
  subst i. rewrite list_set_two.
  apply Forall_app in Hpos. destruct Hpos as [_ Hpos].
  inversion Hpos as [|? ? Hp1 Hpos1]; subst.
  inversion Hpos1 as [|? ? Hp2 Hpos2]; subst.
  pose proof (element_offset_prefix pre spre
                (1 :: di * dp :: post)%Z (dp :: di :: post)
                ((si * di)%Z :: si :: spost) ((si * di)%Z :: si :: spost) k
                (eq_sym Hsl)) as Hpre.
  rewrite (merge_pair_offset di dp si post spost k) in Hpre by assumption.
  assert (Hprod : prod (1 :: di * dp :: post)%Z = prod (dp :: di :: post))
    by (unfold prod; cbn [fold_right]; ring).
  specialize (Hpre Hprod). lia.
Qed.

Lemma all_contiguous_true : forall i shape arrays arr,
  all_contiguous i shape arrays = Ok true ->
  In arr arrays ->
  exists si di sp,
    nth_error (a_strides arr) i = Some si
    /\ nth_error shape i = Some di
    /\ nth_error (a_strides arr) (i - 1) = Some sp
    /\ (si * di)%Z = sp.
Proof.
  intros i shape. induction arrays as [|a arrays IH]; intros arr H Hin;
    [contradiction|].
  simpl in H.
  apply rbind_inv_Ok in H. destruct H as (si & Hsi & H).
  apply rbind_inv_Ok in H. destruct H as (di & Hdi & H).
  apply rbind_inv_Ok in H. destruct H as (sp & Hsp & H).
  apply index_Ok in Hsi, Hdi, Hsp.
  destruct (Z.eqb_spec (si * di) sp) as [E|E]; simpl in H; [|discriminate].
  destruct Hin as [<-|Hin]; [|auto].
  exists si, di, sp. auto.
Qed.

Lemma merge_axes_offset : forall arrays arr axes shape m,
  In arr arrays ->
  Forall (fun i => 1 <= i) axes ->
  Forall (fun d => 0 < d)%Z shape ->
  merge_axes arrays axes shape = Ok m ->
  Forall (fun d => 0 < d)%Z m
  /\ forall k, element_offset m (a_strides arr) k
               = element_offset shape (a_strides arr) k.
Proof.
  intros arrays arr. induction axes as [|i axes IH];
    intros shape m Hin Hax Hpos H; simpl in H.
  - inversion H; subst. auto.
  - inversion Hax as [|? ? Hi Hax']; subst.
    apply rbind_inv_Ok in H. destruct H as (ok & Hok & H).
    destruct ok; [|now apply IH].
    apply rbind_inv_Ok in H. destruct H as (di & Hdi & H).
    apply rbind_inv_Ok in H. destruct H as (dp & Hdp & H).
    apply index_Ok in Hdi, Hdp.
    destruct (all_contiguous_true _ _ _ arr Hok Hin)
      as (si & di' & sp & Hsi & Hdi' & Hsp & Heq).
    assert (di' = di) by congruence. subst di'.
    destruct i as [|j]; [lia|]. replace (S j - 1) with j in * by lia.
    assert (Hdipos : (0 < di)%Z)
      by (eapply (proj1 (Forall_forall _ _) Hpos), nth_error_In; eauto).
    assert (Hdppos : (0 < dp)%Z)
      by (eapply (proj1 (Forall_forall _ _) Hpos), nth_error_In; eauto).
    apply IH in H; auto.
    + destruct H as [Hm Hk]. split; [exact Hm|]. intro k. rewrite Hk.
      eapply merge_step_offset; eauto.
    + apply Forall_pos_list_set; [apply Forall_pos_list_set|]; auto; lia.
Qed.

Lemma element_offset_nil_r : forall sh k, element_offset sh [] k = 0%Z.
Proof. intros [|d sh] k; reflexivity. Qed.

Lemma filter_strides_offset : forall st pre sh st' k,
  filter_strides (pre ++ sh) (List.length pre) st = Ok st' ->
  element_offset (filter (fun dim => negb (dim =? 1)%Z) sh) st' k
  = element_offset sh st k.
Proof.
  induction st as [|s st IH]; intros pre sh st' k H; simpl in H.
  - inversion H; subst. now rewrite !element_offset_nil_r.
  - apply rbind_inv_Ok in H. destruct H as (d & Hd & H).
    apply rbind_inv_Ok in H. destruct H as (r & Hr & H).
    apply index_Ok in Hd.
    rewrite nth_error_app2 in Hd by lia. rewrite Nat.sub_diag in Hd.
    destruct sh as [|d0 sh']; [discriminate|]. simpl in Hd.
    inversion Hd; subst d0.
    replace (pre ++ d :: sh') with ((pre ++ [d]) ++ sh') in Hr
      by (now rewrite <- app_assoc).
    replace (S (List.length pre)) with (List.length (pre ++ [d])) in Hr
      by (rewrite length_app; simpl; lia).
    specialize (IH _ _ _ k Hr).
    inversion H; subst st'; clear H. cbn [filter element_offset].
    destruct (Z.eqb_spec d 1) as [->|Hne]; cbn [negb].
    + rewrite IH, Z.mod_1_r. lia.
    + cbn [element_offset]. rewrite IH, prod_filter_ones. reflexivity.
Qed.

Lemma reshape_args_nth : forall ns shape flags args i r,
  reshape_args ns shape flags i args = Ok r ->
  List.length r = List.length args
  /\ forall j a,
       nth_error args j = Some a ->
       exists f,
         nth_error flags (i + j) = Some f
         /\ ((f = false \/ is_ndarray a = false) -> nth_error r j = Some a)
         /\ (forall arr, f = true -> a = V_ndarray arr ->
               exists st',
                 filter_strides shape 0 (a_strides arr) = Ok st'
                 /\ nth_error r j
                    = Some (V_ndarray
                              (mkndarray (a_data arr) (a_device arr)
                                 (a_dtype arr) ns st'))).
Proof.
  intros ns shape flags. induction args as [|a args IH]; intros i r H;
    simpl in H.
  - inversion H; subst. split; [reflexivity|]. intros j a Hj.
    destruct j; discriminate.
  - apply rbind_inv_Ok in H. destruct H as (f & Hf & H).
    apply rbind_inv_Ok in H. destruct H as (a' & Ha' & H).
    apply rbind_inv_Ok in H. destruct H as (r' & Hr' & H).
    inversion H; subst r; clear H. apply index_Ok in Hf.
    destruct (IH _ _ Hr') as [Hlen Hnth].
    split; [simpl; now rewrite Hlen|].
    intros [|j] b Hj; simpl in Hj.
    + inversion Hj; subst b. exists f. rewrite Nat.add_0_r.
      split; [exact Hf|]. split.
      * intros [->|Hna]; simpl.
        -- inversion Ha'. reflexivity.
        -- destruct f; [|inversion Ha'; reflexivity].
           destruct a; try discriminate; inversion Ha'; reflexivity.
      * intros arr -> ->.
        apply rbind_inv_Ok in Ha'. destruct Ha' as (st' & Hst & Ha').
        inversion Ha'; subst. exists st'. auto.
    + destruct (Hnth j b Hj) as (g & Hg & H1 & H2).
      exists g. rewrite <- Nat.add_succ_comm. auto.
Qed.

(** X1.  [_reduce_dims] moves no element.  Whenever it returns, for a space
    whose extents are all positive: there are as many arguments as before;
    an argument that is not an array bound to a non-raw parameter comes
    back as it was; such an array comes back as a view of the same buffer,
    on the same device and of the same dtype, and for every [k] the
    distance from its base to the [k]-th element of the reduced space is
    the distance to the [k]-th element of the original one. *)
Theorem _reduce_dims_keeps_addresses :
  forall args params ix new_args new_ix,
    _reduce_dims args params ix = Ok (new_args, new_ix) ->
    Forall (fun d => 0 < d)%Z (ix_shape ix) ->
    List.length new_args = List.length args
    /\ forall j a,
         nth_error args j = Some a ->
         (~ reshaped_operand args params j -> nth_error new_args j = Some a)
         /\ (forall arr,
               a = V_ndarray arr -> reshaped_operand args params j ->
               exists arr',
                 nth_error new_args j = Some (V_ndarray arr')
                 /\ a_data arr' = a_data arr
                 /\ a_device arr' = a_device arr
                 /\ a_dtype arr' = a_dtype arr
                 /\ forall k,
                      element_offset (ix_shape new_ix) (a_strides arr') k
                      = element_offset (ix_shape ix) (a_strides arr) k).
Proof.
  intros args params ix new_args new_ix H Hpos.
  assert (Hsame : forall j a,
            nth_error args j = Some a ->
            (~ reshaped_operand args params j -> nth_error args j = Some a)
            /\ (forall arr,
                  a = V_ndarray arr -> reshaped_operand args params j ->
                  exists arr',
                    nth_error args j = Some (V_ndarray arr')
                    /\ a_data arr' = a_data arr
                    /\ a_device arr' = a_device arr
                    /\ a_dtype arr' = a_dtype arr
                    /\ forall k,
                         element_offset (ix_shape ix) (a_strides arr') k
                         = element_offset (ix_shape ix) (a_strides arr) k)).
  { intros j a Hj. split; [auto|]. intros arr -> _. exists arr. auto. }
  unfold _reduce_dims in H.
  destruct (Indexer_ndim ix <=? 1)%nat;
    [inversion H; subst; split; [reflexivity | exact Hsame]|].
  apply rbind_inv_Ok in H. destruct H as (m & Hm & H).
  destruct (shape_eqb _ (ix_shape ix)) eqn:E;
    [inversion H; subst; split; [reflexivity | exact Hsame]|].
  apply rbind_inv_Ok in H. destruct H as (na & Hna & H).
  inversion H; subst new_args new_ix; clear H.
  destruct (reshape_args_nth _ _ _ _ _ _ Hna) as [Hlen Hnth].
  split; [exact Hlen|].
  intros j a Hj. destruct (Hnth j a Hj) as (f & Hf & Hkeep & Hview).
  simpl in Hf. unfold reshaped_operand. split.
  - intro Hn. apply Hkeep. left. destruct f; [contradiction|reflexivity].
  - intros arr -> Hfl. rewrite Hfl in Hf. injection Hf as <-.
    destruct (Hview arr eq_refl eq_refl) as (st' & Hst & Hr).
    eexists. split; [exact Hr|]. simpl. repeat split.
    intro k.
    assert (Hin : In arr (array_args_of args (is_array_flags_of args params)))
      by (eapply flagged_array_in; eauto).
    unfold merged_shape in Hm.
    destruct (merge_axes_offset _ arr _ _ _ Hin (seq_from_one _) Hpos Hm)
      as [_ Hk].
    rewrite <- Hk.
    apply (filter_strides_offset (a_strides arr) [] m st' k). exact Hst.
Qed.

Lemma _reduce_dims_keeps_addresses_witness :
  exists arr',
    nth_error
      (fst (match _reduce_dims [float32_array 0 0 [2; 3]%Z]
                    [param_x; param_ind] (mkIndexer [2; 3]%Z) with
            | inr r => r
            | inl _ => ([], mkIndexer [])
            end)) 0
    = Some (V_ndarray arr')
    /\ forall k,
         element_offset [6%Z] (a_strides arr') k
         = element_offset [2; 3]%Z [12; 4]%Z k.
Proof.
  destruct (_reduce_dims [float32_array 0 0 [2; 3]%Z] [param_x; param_ind]
              (mkIndexer [2; 3]%Z)) as [e|[new_args new_ix]] eqn:E;
    [vm_compute in E; discriminate|].
  assert (Hix : ix_shape new_ix = [6%Z])
    by (vm_compute in E; inversion E; reflexivity).
  destruct (_reduce_dims_keeps_addresses _ _ _ _ _ E
              ltac:(repeat constructor)) as [_ H].
  destruct (H 0 _ eq_refl) as [_ Hv].
  destruct (Hv _ eq_refl eq_refl) as (arr' & Hn & _ & _ & _ & Hk).
  exists arr'. split; [exact Hn|].
  intro k. rewrite <- Hix. apply Hk.
Defined.

(** ** Soundness of routine tables along runs *)

Section TableAlongRuns.
Variable cc : Dtype -> Dtype -> bool.
Variable u : ufunc.

Local Abbreviation R := (table_kept_sound cc u).

Lemma table_kept_sound_refl : forall w, R w w.
Proof. intro w. split; auto. Qed.

Lemma table_kept_sound_trans : forall w1 w2 w3, R w1 w2 -> R w2 w3 -> R w1 w3.
Proof.
  intros w1 w2 w3 [H1 H1'] [H2 H2']. split; [lia|].
  intros Hlt Hs. apply H2'; [lia|]. now apply H1'.
Qed.

Lemma table_kept_sound_same : forall w w',
  w_next w <= w_next w' ->
  w_routine_table w' (u_oid u) = w_routine_table w (u_oid u) ->
  R w w'.
Proof.
  intros w w' Hn Ht. split; [exact Hn|].
  intros _ Hs key op. rewrite Ht. apply Hs.
Qed.

Ltac table_steps :=
  repeat first
    [ match goal with H : _ |- _ => solve [apply H] end
    | apply (preserves_ret _ table_kept_sound_refl)
    | apply (preserves_raise _ table_kept_sound_refl)
    | apply (preserves_lift _ table_kept_sound_refl)
    | apply (preserves_current_device _ table_kept_sound_refl)
    | apply (preserves_mapM _ table_kept_sound_refl table_kept_sound_trans);
      intro
    | apply (preserves_memoize _ table_kept_sound_refl
               table_kept_sound_trans);
      [ intro | intros; apply table_kept_sound_same; simpl; auto ]
    | apply (preserves_bind _ table_kept_sound_trans); [ | intro ]
    | apply preserves_if
    | match goal with
      | |- preserves _ (match ?x with _ => _ end) => destruct x
      end ].

Lemma fresh_table : preserves R fresh.
Proof. intro w. apply table_kept_sound_same; simpl; auto. Qed.

Lemma tick_table : preserves R tick_synthesized.
Proof. intro w. apply table_kept_sound_same; simpl; auto. Qed.

Lemma linear_launch_table : forall kern size args,
  preserves R (linear_launch kern size args).
Proof. intros kern size args w. apply table_kept_sound_same; simpl; auto. Qed.

Lemma compile_table : forall nvcc code opts nm,
  preserves R (compile_and_get_function nvcc code opts nm).
Proof.
  intros nvcc code opts nm w. unfold compile_and_get_function.
  destruct (nvcc code opts); apply table_kept_sound_same; simpl; auto.
Qed.

Lemma _get_simple_elementwise_kernel_table : forall nvcc p o n pre kw,
  preserves R (_get_simple_elementwise_kernel nvcc p o n pre kw).
Proof.
  intros. unfold _get_simple_elementwise_kernel,
    _get_simple_elementwise_kernel_body.
  pose proof compile_table. table_steps.
Qed.

Lemma _get_elementwise_kernel_table : forall nvcc ai ty ps op n pre kw,
  preserves R (_get_elementwise_kernel nvcc ai ty ps op n pre kw).
Proof.
  intros. unfold _get_elementwise_kernel, _get_elementwise_kernel_body.
  pose proof tick_table. pose proof _get_simple_elementwise_kernel_table.
  table_steps.
Qed.

Lemma _get_ufunc_kernel_table : forall nvcc it ot rt ai ort ps n pre,
  preserves R (_get_ufunc_kernel nvcc it ot rt ai ort ps n pre).
Proof.
  intros. unfold _get_ufunc_kernel, _get_ufunc_kernel_body.
  pose proof tick_table. pose proof _get_simple_elementwise_kernel_table.
  table_steps.
Qed.

Lemma _get_param_info_table : forall np s c,
  preserves R (_get_param_info np s c).
Proof.
  intros np s c w. unfold _get_param_info, memoize_shared.
  destruct (dict_get _ _ _); [apply table_kept_sound_refl|].
  assert (Hb : preserves R (_get_param_info_body np (s, c))).
  { unfold _get_param_info_body. cbv beta iota zeta.
    unfold new_ParameterInfo. pose proof fresh_table. table_steps. }
  specialize (Hb w).
  destruct (_get_param_info_body np (s, c) w) as [[e|r] w1];
    cbn [fst snd] in *; [exact Hb|].
  eapply table_kept_sound_trans; [exact Hb|].
  apply table_kept_sound_same; simpl; auto.
Qed.

Lemma ElementwiseKernel_init_table : forall np i o op n rd pre kw,
  preserves R (ElementwiseKernel_init np i o op n rd pre kw).
Proof.
  intros. unfold ElementwiseKernel_init.
  pose proof _get_param_info_table. table_steps.
Qed.

Lemma ElementwiseKernel_call_table : forall nvcc self args size,
  preserves R (ElementwiseKernel_call nvcc self args size).
Proof.
  intros.
  unfold ElementwiseKernel_call, ElementwiseKernel_prepare,
    ElementwiseKernel_dispatch, _check_args, _get_out_args, cupy_empty,
    _decide_params_type.
  pose proof fresh_table. pose proof linear_launch_table.
  pose proof _get_elementwise_kernel_table.
  table_steps.
Qed.

Lemma ufunc_init_table : forall np n nin nout ops pre,
  preserves R (ufunc_init np n nin nout ops pre).
Proof.
  intros np n nin nout ops pre w.
  destruct (ufunc_init_run np n nin nout ops pre w)
    as (w' & E & _ & Hother & Hnext).
  rewrite E. simpl. split; [lia|].
  intros Hlt Hs key op. rewrite Hother by lia. apply Hs.
Qed.

Lemma routine_table_sound_at : forall w w',
  w_routine_table w' (u_oid u) = w_routine_table w (u_oid u) ->
  routine_table_sound cc u w -> routine_table_sound cc u w'.
Proof. intros w w' E Hs key op. rewrite E. apply Hs. Qed.

Lemma lookup_or_scan_table : forall self key,
  (u_oid self = u_oid u -> self = u) ->
  preserves R (lookup_or_scan cc self key).
Proof.
  intros self key Hid w. split.
  - unfold lookup_or_scan. destruct (dict_get _ _ _); simpl; auto.
  - intros _ Hs. destruct (Nat.eq_dec (u_oid self) (u_oid u)) as [E|E].
    + rewrite (Hid E).
      destruct (lookup_or_scan_run cc u key w Hs) as (w' & -> & Hs').
      exact Hs'.
    + revert Hs. apply routine_table_sound_at.
      unfold lookup_or_scan. destruct (dict_get _ _ _); simpl; auto.
      destruct (Nat.eq_dec (u_oid u) (u_oid self)); congruence.
Qed.

Lemma ufunc_call_table : forall nvcc self args out dtype,
  (u_oid self = u_oid u -> self = u) ->
  preserves R (ufunc_call cc nvcc self args out dtype).
Proof.
  intros nvcc self args out dtype Hid.
  unfold ufunc_call, ufunc_prepare, ufunc_dispatch, _check_args,
    _get_out_args, cupy_empty, _guess_routine.
  pose proof fresh_table. pose proof linear_launch_table.
  pose proof _get_ufunc_kernel_table.
  pose proof (fun key => lookup_or_scan_table self key Hid).
  table_steps.
Qed.

Lemma run_action_table : forall np nvcc a w,
  calls_the_object u a -> R w (run_action np cc nvcc a w).
Proof.
  intros np nvcc a w Ha.
  destruct a as [d|k|k|k|i o op n rd pre kw|self args size
                |n nin nout ops pre|self args out dtype]; simpl.
  - apply table_kept_sound_same; simpl; auto.
  - apply _get_simple_elementwise_kernel_table.
  - apply _get_elementwise_kernel_table.
  - apply _get_ufunc_kernel_table.
  - apply ElementwiseKernel_init_table.
  - apply ElementwiseKernel_call_table.
  - apply ufunc_init_table.
  - apply ufunc_call_table. exact Ha.
Qed.

Lemma run_table : forall np nvcc acts w,
  Forall (calls_the_object u) acts -> R w (run np cc nvcc acts w).
Proof.
  intros np nvcc. unfold run.
  induction acts as [|a acts IH]; intros w Hall; simpl.
  - apply table_kept_sound_refl.
  - inversion Hall; subst.
    eapply table_kept_sound_trans; [apply run_action_table | apply IH];
      assumption.
Qed.

End TableAlongRuns.

(** X14.  The routine table of a universal function is sound in every state a
    program can reach after making the function: whatever it does next
    (switching devices, making and calling kernels and other universal
    functions, calling this one), every entry of [_routine_table] is what
    a scan of [_ops] gives for its key, provided calls that name the
    identity of this object are calls on this object. *)
Theorem routine_table_stays_sound :
  forall (np : string -> option Dtype) (cc : Dtype -> Dtype -> bool)
         (nvcc : string -> list string -> bool)
         name nin nout ops pre w0 u w1 acts,
    ufunc_init np name nin nout ops pre w0 = (Ok u, w1) ->
    Forall (calls_the_object u) acts ->
    routine_table_sound cc u (run np cc nvcc acts w1).
Proof.
  intros np cc nvcc name nin nout ops pre w0 u w1 acts Hinit Hacts.
  destruct (ufunc_init_run np name nin nout ops pre w0)
    as (w' & E & Hempty & _ & Hnext).
  rewrite E in Hinit. injection Hinit as <- <-.
  apply (run_table cc _ np nvcc acts w' Hacts).
  - simpl. lia.
  - intros key op H. simpl in H. rewrite Hempty in H. discriminate.
Qed.

Lemma routine_table_stays_sound_witness :
  routine_table_sound numpy_can_cast pair_ufunc
    (run numpy_dtype_excerpt numpy_can_cast nvcc_accepts_all
       [A_use 1;
        A_ufunc_call pair_ufunc [int32_array 100 1 [4]%Z] None None]
       world_after_pair_ufunc).
Proof.
  apply (routine_table_stays_sound numpy_dtype_excerpt numpy_can_cast
           nvcc_accepts_all "pair" 1 2
           [([int32], [int32; int32], "out0 = in0; out1 = in0")] ""
           (initial_world 0) pair_ufunc world_after_pair_ufunc).
  - vm_compute. reflexivity.
  - repeat constructor.
Defined.

(** ** The universal functions [copy] and [copy_where] *)

Lemma reads_type_codes_each : forall np,
  reads_type_codes np ->
  np "?" = Some bool_ /\ np "b" = Some int8 /\ np "B" = Some uint8
  /\ np "h" = Some int16 /\ np "H" = Some uint16 /\ np "i" = Some int32
  /\ np "I" = Some uint32 /\ np "l" = Some int64 /\ np "L" = Some uint64
  /\ np "q" = Some int64 /\ np "Q" = Some uint64 /\ np "e" = Some float16
  /\ np "f" = Some float32 /\ np "d" = Some float64.
Proof.
  intros np H. repeat split; apply H; simpl; tauto.
Qed.

Lemma copy_table : forall np w u w',
  reads_type_codes np ->
  copy np w = (Ok u, w') ->
  _ops u
  = map (fun d => ([d], [d], _id))
      [bool_; int8; uint8; int16; uint16; int32; uint32; int64; uint64;
       int64; uint64; float16; float32; float64]
  /\ u_nin u = 1 /\ u_nout u = 1 /\ u_nargs u = 2.
Proof.
  intros np w u w' Hnp H.
  destruct (reads_type_codes_each np Hnp)
    as (H1&H2&H3&H4&H5&H6&H7&H8&H9&H10&H11&H12&H13&H14).
  unfold copy, create_ufunc in H.
  apply bind_inv_Ok in H. destruct H as (table & w1 & Ht & H).
  apply lift_inv_Ok in Ht. destruct Ht as [Ht ->].
  cbn in Ht.
  rewrite H1, H2, H3, H4, H5, H6, H7, H8, H9, H10, H11, H12, H13, H14 in Ht.
  cbn in Ht. injection Ht as <-.
  unfold ufunc_init in H.
  apply bind_inv_Ok in H. destruct H as (oid & w2 & _ & H).
  apply bind_inv_Ok in H. destruct H as (ips & w3 & _ & H).
  apply bind_inv_Ok in H. destruct H as (ops' & w4 & _ & H).
  apply bind_inv_Ok in H. destruct H as (ind & w5 & _ & H).
  injection H as <- <-. simpl. auto.
Qed.

Lemma copy_where_table : forall np w u w',
  reads_type_codes np ->
  copy_where np w = (Ok u, w') ->
  _ops u
  = map (fun d => ([d; bool_], [d], "if (in1) out0 = in0"))
      [bool_; int8; uint8; int16; uint16; int32; uint32; int64; uint64;
       int64; uint64; float16; float32; float64]
  /\ u_nin u = 2 /\ u_nout u = 1 /\ u_nargs u = 3.
Proof.
  intros np w u w' Hnp H.
  destruct (reads_type_codes_each np Hnp)
    as (H1&H2&H3&H4&H5&H6&H7&H8&H9&H10&H11&H12&H13&H14).
  unfold copy_where, create_ufunc in H.
  apply bind_inv_Ok in H. destruct H as (table & w1 & Ht & H).
  apply lift_inv_Ok in Ht. destruct Ht as [Ht ->].
  cbn in Ht.
  rewrite H1, H2, H3, H4, H5, H6, H7, H8, H9, H10, H11, H12, H13, H14 in Ht.
  cbn in Ht. injection Ht as <-.
  unfold ufunc_init in H.
  apply bind_inv_Ok in H. destruct H as (oid & w2 & _ & H).
  apply bind_inv_Ok in H. destruct H as (ips & w3 & _ & H).
  apply bind_inv_Ok in H. destruct H as (ops' & w4 & _ & H).
  apply bind_inv_Ok in H. destruct H as (ind & w5 & _ & H).
  injection H as <- <-. simpl. auto.
Qed.

Lemma from_in_types_exists : forall cc ops tys op,
  In op ops ->
  forallb (fun t => cc (fst t) (snd t)) (combine tys (fst (fst op))) = true ->
  exists op',
    _guess_routine_from_in_types cc ops tys = Some op'
    /\ In op' ops
    /\ forallb (fun t => cc (fst t) (snd t)) (combine tys (fst (fst op')))
       = true.
Proof.
  intros cc. induction ops as [|o ops IH]; intros tys op Hin Hok;
    [contradiction|].
  simpl.
  destruct (forallb _ (combine tys (fst (fst o)))) eqn:E.
  - exists o. split; [reflexivity|]. split; [now left | exact E].
  - destruct Hin as [->|Hin]; [congruence|].
    destruct (IH tys op Hin Hok) as (op' & H1 & H2 & H3).
    exists op'. split; [exact H1|]. split; [now right | exact H3].
Qed.

Lemma supported_or_other : forall d,
  In d supported_dtypes \/ exists n sz, d = other_dtype n sz.
Proof.
  intro d. destruct d; try (left; simpl; tauto). right. eauto.
Qed.

(** X18.  The module's [copy] and [copy_where], wherever numpy reads the
    one-character codes as usual (C [long] of 64 bits).  [copy] has one
    input and one output, [copy_where] two inputs and one output, and
    every routine of either has one output type.  Asked for any of the
    twelve supported dtypes with [dtype=], each selects the routine whose
    data input and output are exactly that type; asked for another dtype
    it finds none.  Without [dtype=], for an input of a supported type
    [copy] always finds a routine, and that routine's output type is its
    input type, one the input can be cast to. *)
Theorem copy_keeps_the_element_type :
  forall (np : string -> option Dtype),
    reads_type_codes np ->
    (forall w u w',
        copy np w = (Ok u, w') ->
        u_nin u = 1 /\ u_nout u = 1 /\ well_formed_ufunc u
        /\ (forall d, In d supported_dtypes ->
              _guess_routine_from_dtype (_ops u) d = Some ([d], [d], _id))
        /\ (forall d, ~ In d supported_dtypes ->
              _guess_routine_from_dtype (_ops u) d = None)
        /\ (forall (cc : Dtype -> Dtype -> bool) d,
              (forall t, cc t t = true) ->
              In d supported_dtypes ->
              exists t,
                _guess_routine_from_in_types cc (_ops u) [d]
                = Some ([t], [t], _id)
                /\ cc d t = true))
    /\ (forall w u w',
           copy_where np w = (Ok u, w') ->
           u_nin u = 2 /\ u_nout u = 1 /\ well_formed_ufunc u
           /\ (forall d, In d supported_dtypes ->
                 _guess_routine_from_dtype (_ops u) d
                 = Some ([d; bool_], [d], "if (in1) out0 = in0"))
           /\ (forall d, ~ In d supported_dtypes ->
                 _guess_routine_from_dtype (_ops u) d = None)).
Proof.
  intros np Hnp. split.
  - intros w u w' H.
    destruct (copy_table np w u w' Hnp H) as (Hops & Hnin & Hnout & Hnargs).
    split; [exact Hnin|]. split; [exact Hnout|]. split; [|split; [|split]].
    + split; [lia|]. intros op Hop. rewrite Hops in Hop. rewrite Hnout.
      apply in_map_iff in Hop. destruct Hop as (d & <- & _). reflexivity.
    + intros d Hd. rewrite Hops. simpl in Hd.
      repeat (destruct Hd as [<-|Hd]; [vm_compute; reflexivity|]).
      contradiction.
    + intros d Hd. rewrite Hops.
      destruct (supported_or_other d) as [?|(n & sz & ->)]; [contradiction|].
      reflexivity.
    + intros cc d Hrefl Hd.
      destruct (from_in_types_exists cc (_ops u) [d] ([d], [d], _id))
        as (op' & Hsel & Hin & Hok).
      * rewrite Hops. simpl in Hd. simpl.
        repeat (destruct Hd as [<-|Hd]; [tauto|]). contradiction.
      * simpl. now rewrite Hrefl.
      * rewrite Hops in Hin. apply in_map_iff in Hin.
        destruct Hin as (t & <- & _). exists t. split; [exact Hsel|].
        simpl in Hok. now rewrite andb_true_r in Hok.
  - intros w u w' H.
    destruct (copy_where_table np w u w' Hnp H)
      as (Hops & Hnin & Hnout & Hnargs).
    split; [exact Hnin|]. split; [exact Hnout|]. split; [|split].
    + split; [lia|]. intros op Hop. rewrite Hops in Hop. rewrite Hnout.
      apply in_map_iff in Hop. destruct Hop as (d & <- & _). reflexivity.
    + intros d Hd. rewrite Hops. simpl in Hd.
      repeat (destruct Hd as [<-|Hd]; [vm_compute; reflexivity|]).
      contradiction.
    + intros d Hd. rewrite Hops.
      destruct (supported_or_other d) as [?|(n & sz & ->)]; [contradiction|].
      reflexivity.
Qed.

Lemma numpy_dtype_excerpt_reads_type_codes :
  reads_type_codes numpy_dtype_excerpt.
Proof.
  intros c d H. simpl in H.
  repeat (destruct H as [H|H]; [inversion H; subst; reflexivity|]).
  contradiction.
Qed.

Lemma copy_keeps_the_element_type_witness :
  match fst (copy numpy_dtype_excerpt (initial_world 0)) with
  | inr u =>
      _guess_routine_from_dtype (_ops u) float32
      = Some ([float32], [float32], _id)
  | inl _ => False
  end.
Proof.
  destruct (copy numpy_dtype_excerpt (initial_world 0)) as [[e|u] w'] eqn:E;
    [vm_compute in E; discriminate|].
  simpl.
  destruct (proj1 (copy_keeps_the_element_type numpy_dtype_excerpt
                     numpy_dtype_excerpt_reads_type_codes)
              (initial_world 0) u w' E) as (_ & _ & _ & Hd & _).
  apply Hd. simpl. tauto.
Defined.

(** ** Instances for the returned outputs *)

Lemma ElementwiseKernel_call_returns_declared_outputs_witness :
  exists out_args,
    List.length out_args = 1
    /\ fst (ElementwiseKernel_call nvcc_accepts_all copy_kernel
              [float32_array 100 0 [1000]%Z] None world_after_copy_kernel)
       = Ok (make_ret out_args).
Proof.
  destruct (ElementwiseKernel_call nvcc_accepts_all copy_kernel
              [float32_array 100 0 [1000]%Z] None world_after_copy_kernel)
    as [[e|r] w'] eqn:E; [vm_compute in E; discriminate|].
  destruct (ElementwiseKernel_call_returns_declared_outputs nvcc_accepts_all
              copy_kernel [float32_array 100 0 [1000]%Z] None
              world_after_copy_kernel r w') as (out_args & Hlen & ->).
  - repeat split; simpl; lia.
  - intros d k r0 H. vm_compute in H. discriminate.
  - exact E.
  - exists out_args. split; [exact Hlen | reflexivity].
Defined.

Lemma ufunc_call_returns_declared_outputs_witness :
  exists out_args,
    List.length out_args = 1
    /\ fst (ufunc_call numpy_can_cast nvcc_accepts_all add_ufunc
              [int32_array 100 0 [5]%Z; int32_array 101 0 [5]%Z] None None
              (initial_world 0))
       = Ok (make_ret out_args).
Proof.
  destruct (ufunc_call numpy_can_cast nvcc_accepts_all add_ufunc
              [int32_array 100 0 [5]%Z; int32_array 101 0 [5]%Z] None None
              (initial_world 0))
    as [[e|r] w'] eqn:E; [vm_compute in E; discriminate|].
  destruct (ufunc_call_returns_declared_outputs numpy_can_cast
              nvcc_accepts_all add_ufunc
              [int32_array 100 0 [5]%Z; int32_array 101 0 [5]%Z] None
              (initial_world 0) r w') as (out_args & Hlen & ->).
  - split; [reflexivity|]. intros op [<-|[<-|[]]]; reflexivity.
  - intros key op H. discriminate.
  - exact E.
  - exists out_args. split; [exact Hlen | reflexivity].
Defined.

(** ** Outputs that are not supplied *)




(** ** Scalars passed to a kernel *)

Lemma _broadcast_passes_scalars : forall args params se brod value j x,
  _broadcast args params se = Ok (brod, value) ->
  nth_error args j = Some x ->
  j < List.length params ->
  is_ndarray x = false ->
  nth_error value j = Some x.
Proof.
  intros args params se brod value j x H Hj Hlt Hx. unfold _broadcast in H.
  apply rbind_inv_Ok in H. destruct H as (b & Hb & H).
  destruct (se && forallb is_None (b_values b)); [discriminate|].
  inversion H; subst brod value; clear H.
  unfold cupy_broadcast in Hb. apply rbind_inv_Ok in Hb.
  destruct Hb as (r & _ & Hb). inversion Hb; subst b; clear Hb. simpl.
  destruct (nth_error params j) as [p|] eqn:Hp;
    [|apply nth_error_None in Hp; lia].
  assert (Hc : nth_error (combine params args) j = Some (p, x)).
  { clear -Hp Hj. revert params args Hp Hj.
    induction j as [|j IH]; intros [|p0 ps] [|a0 args] Hp Hj;
      simpl in *; try discriminate.
    - now inversion Hp; inversion Hj.
    - now apply IH. }
  set (masked := map _ (combine params args)).
  assert (Hm : nth_error masked j = Some V_None).
  { subst masked. rewrite nth_error_map, Hc. simpl. rewrite Hx.
    now rewrite andb_false_r. }
  assert (Hbv : nth_error (map (broadcast_value (rev r)) masked) j
                = Some V_None)
    by (rewrite nth_error_map, Hm; reflexivity).
  rewrite nth_error_map.
  assert (Hcomb : nth_error (combine (map (broadcast_value (rev r)) masked)
                               args) j = Some (V_None, x)).
  { revert Hbv Hj. generalize (map (broadcast_value (rev r)) masked).
    clear. intros l. revert l args.
    induction j as [|j IH]; intros [|v l] [|a args] Hv Ha;
      simpl in *; try discriminate.
    - now inversion Hv; inversion Ha.
    - now apply IH. }
  rewrite Hcomb. reflexivity.
Qed.

Lemma _reduce_dims_passes_scalars : forall args params ix front ix' j a,
  _reduce_dims args params ix = Ok (front, ix') ->
  nth_error args j = Some a ->
  is_ndarray a = false ->
  nth_error front j = Some a.
Proof.
  intros args params ix front ix' j a H Hj Ha. unfold _reduce_dims in H.
  destruct (Indexer_ndim ix <=? 1)%nat; [now inversion H; subst|].
  apply rbind_inv_Ok in H. destruct H as (m & _ & H).
  destruct (shape_eqb _ (ix_shape ix)); [now inversion H; subst|].
  apply rbind_inv_Ok in H. destruct H as (na & Hna & H).
  inversion H; subst front ix'; clear H.
  destruct (reshape_args_nth _ _ _ _ _ _ Hna) as [_ Hnth].
  destruct (Hnth j a Hj) as (f & _ & Hkeep & _). apply Hkeep. now right.
Qed.

Lemma nth_error_combine : forall A B (l : list A) (l' : list B) j x y,
  nth_error l j = Some x -> nth_error l' j = Some y ->
  nth_error (combine l l') j = Some (x, y).
Proof.
  intros A B l l' j. revert l l'.
  induction j as [|j IH]; intros [|a l] [|b l'] x y Hx Hy;
    simpl in *; try discriminate.
  - now inversion Hx; inversion Hy.
  - now apply IH.
Qed.

(** X6.  A scalar given for an input reaches the kernel as a numpy scalar of
    the type resolved for its parameter.  When a call of an
    [ElementwiseKernel] launches (it returned and the broadcast is not
    empty), the kernel argument at the position of each scalar input is
    that value converted with [t.type(x)], [t] being the input type that
    [_decide_params_type] gives the parameter. *)
Theorem scalars_are_converted_to_the_resolved_type :
  forall (nvcc : string -> list string -> bool) self args size w r w',
    well_formed_kernel self ->
    decide_memo_sound w ->
    ElementwiseKernel_call nvcc self args size w = (Ok r, w') ->
    exists brod value in_types out_types types,
      _broadcast args (params self)
        (match size with None => true | Some _ => false end)
      = Ok (brod, value)
      /\ _decide_params_type_body
           (mkdecide_key (in_params self) (out_params self)
              (_get_ndarray_dtype (firstn (nin self) value))
              (_get_ndarray_dtype (skipn (nin self) value)))
         = Ok (in_types, out_types, types)
      /\ (b_size brod <> 0%Z ->
          exists ev,
            w_launched w' = w_launched w ++ [ev]
            /\ forall j ty payload,
                 j < nin self ->
                 nth_error args j = Some (V_scalar ty payload) ->
                 exists t,
                   nth_error in_types j = Some t
                   /\ nth_error (le_args ev) j
                      = Some (V_scalar (T_numpy_scalar t) payload)).
Proof.
  intros nvcc self args size w r w' (Hnin & Hnout & Hpar) Hsound H.
  unfold ElementwiseKernel_call in H.
  apply bind_inv_Ok in H. destruct H as (pr & w1 & Hp & H).
  pose proof (preserves_at _ _ _ _ _ _
                (ElementwiseKernel_prepare_untouched self args size) Hp)
    as (_ & _ & Hl1 & _).
  unfold ElementwiseKernel_prepare in Hp.
  destruct (negb _) eqn:Hn; [discriminate|].
  apply negb_false_iff, orb_true_iff in Hn.
  apply bind_inv_Ok in Hp. destruct Hp as (? & wa & Ha & Hp).
  apply lift_inv_Ok in Ha. destruct Ha as [_ ->].
  apply bind_inv_Ok in Hp. destruct Hp as (? & wb & Hb & Hp).
  rewrite _check_args_run in Hb. inversion Hb; subst wb; clear Hb.
  apply bind_inv_Ok in Hp. destruct Hp as ([brod value] & wc & Hc & Hp).
  apply lift_inv_Ok in Hc. destruct Hc as [Hc ->].
  apply bind_inv_Ok in Hp. destruct Hp as ([[it ot] ty] & wd & Hd & Hp).
  apply bind_inv_Ok in Hp. destruct Hp as (outs & we & He & Hp).
  apply ret_inv in Hp. destruct Hp as [-> ->]. simpl in *.
  destruct (_decide_params_type_memo (in_params self) (out_params self)
              (_get_ndarray_dtype (firstn (nin self) value))
              (_get_ndarray_dtype (skipn (nin self) value)) w Hsound)
    as [Hbody _].
  rewrite Hd in Hbody. simpl in Hbody. symmetry in Hbody.
  exists brod, value, it, ot, ty. split; [exact Hc|]. split; [exact Hbody|].
  intro Hnz.
  destruct (Z.eqb_spec (b_size brod) 0) as [?|_]; [contradiction|].
  unfold ElementwiseKernel_dispatch in H. simpl in H.
  apply bind_inv_Ok in H. destruct H as (ia & w2 & Hia & H).
  apply lift_inv_Ok in Hia. destruct Hia as [Hia ->].
  apply bind_inv_Ok in H. destruct H as (ai & w3 & Hai & H).
  apply lift_inv_Ok in Hai. destruct Hai as [_ ->].
  apply bind_inv_Ok in H. destruct H as (kern & w4 & Hk & H).
  apply bind_inv_Ok in H. destruct H as (? & w5 & Hl & H).
  apply ret_inv in H. destruct H as [_ ->].
  pose proof (preserves_at _ _ _ _ _ _
                (_get_elementwise_kernel_same_launched nvcc _ _ _ _ _ _ _)
                Hk) as Hl4.
  unfold linear_launch in Hl. injection Hl as _ <-.
  eexists. split; [simpl; rewrite Hl4, Hl1; reflexivity|].
  intros j sty payload Hj Harg. simpl.
  assert (Hitlen : List.length it = List.length (in_params self)).
  { unfold _decide_params_type_body in Hbody.
    apply rbind_inv_Ok in Hbody. destruct Hbody as (td & _ & Hbody).
    destruct (negb _); [discriminate|].
    apply rbind_inv_Ok in Hbody. destruct Hbody as (tu & _ & Hbody).
    apply rbind_inv_Ok in Hbody. destruct Hbody as (it' & Hit & Hbody).
    apply rbind_inv_Ok in Hbody. destruct Hbody as (ot' & _ & Hbody).
    inversion Hbody; subst. eapply mapR_length; eauto. }
  destruct (nth_error it j) as [t|] eqn:Ht;
    [|apply nth_error_None in Ht; lia].
  exists t. split; [reflexivity|].
  assert (Hval : nth_error value j = Some (V_scalar sty payload))
    by (eapply _broadcast_passes_scalars; eauto; lia).
  assert (Hin : nth_error
                  (map (fun xt => if is_ndarray (fst xt) then fst xt
                                  else dtype_type_call (snd xt) (fst xt))
                     (combine (firstn (nin self) value) it)) j
                = Some (V_scalar (T_numpy_scalar t) payload)).
  { rewrite nth_error_map.
    rewrite (nth_error_combine _ _ _ _ j (V_scalar sty payload) t);
      [reflexivity | | exact Ht].
    rewrite nth_error_firstn.
    destruct (Nat.ltb_spec j (nin self)); [exact Hval | lia]. }
  apply _get_inout_args_Ok in Hia.
  destruct Hia as (_ & front & Hred & Hfst & _).
  rewrite Hfst.
  assert (Hfront : nth_error front j
                   = Some (V_scalar (T_numpy_scalar t) payload)).
  { eapply _reduce_dims_passes_scalars; [exact Hred | | reflexivity].
    rewrite nth_error_app1; [exact Hin|].
    apply nth_error_Some. congruence. }
  rewrite nth_error_app1; [exact Hfront|].
  apply nth_error_Some. congruence.
Qed.

Lemma scalars_are_converted_to_the_resolved_type_witness :
  exists ev,
    w_launched
      (snd (ElementwiseKernel_call nvcc_accepts_all scale_kernel
              [float32_array 100 0 [4]%Z; V_scalar T_float 2] None
              (initial_world 0)))
    = [ev]
    /\ nth_error (le_args ev) 1 = Some (V_scalar (T_numpy_scalar float32) 2).
Proof.
  destruct (ElementwiseKernel_call nvcc_accepts_all scale_kernel
              [float32_array 100 0 [4]%Z; V_scalar T_float 2] None
              (initial_world 0)) as [[e|r] w'] eqn:E;
    [vm_compute in E; discriminate|].
  destruct (scalars_are_converted_to_the_resolved_type nvcc_accepts_all
              scale_kernel [float32_array 100 0 [4]%Z; V_scalar T_float 2]
              None (initial_world 0) r w')
    as (brod & value & it & ot & ty & Hb & Hd & Hl).
  - repeat split; simpl; lia.
  - apply initial_decide_memo_sound.
  - exact E.
  - vm_compute in Hb. inversion Hb; subst brod value; clear Hb.
    vm_compute in Hd. inversion Hd; subst it ot ty; clear Hd.
    destruct Hl as (ev & Hev & Hargs); [simpl; discriminate|].
    exists ev. split; [exact Hev|].
    destruct (Hargs 1 T_float 2%Z) as (t & Ht & Ha);
      [simpl; lia | reflexivity |].
    simpl in Ht. inversion Ht; subst t. exact Ha.
Defined.

(** ** Calls of a universal function that return *)























(** ** Calls of a kernel that return *)

















